(** * Parenta: quota/session reconciliation and captive-portal handshake

    A shallow embedding of the Go sources of the Parenta parental-control
    backend, and the properties of its specification proved (or refuted)
    against it.

    Layout: the Go runtime notions the code relies on (machine integers,
    strings, time, base64), the data model ([internal/models]), the record
    store ([internal/storage]), the effect monad, the reconciliation loop
    ([internal/services/ticker.go]) and the two revisions of the
    captive-portal handler; the theorems follow the definitions. *)

From Stdlib Require Import ZArith List String Ascii Bool Lia Arith DecimalString.
Import ListNotations.
Open Scope string_scope.
Open Scope Z_scope.

(* ================================================================== *)
(** ** Go runtime: integers, durations, instants *)
(* ================================================================== *)

Module Go.

(** Go's [int] on the 64-bit targets of the project (arm64, amd64):
    two's complement, silent wrap-around. *)
Definition minInt : Z := - 2 ^ 63.
Definition maxInt : Z := 2 ^ 63 - 1.

Definition wrap (z : Z) : Z := (z + 2 ^ 63) mod 2 ^ 64 - 2 ^ 63.

Definition int_add (a b : Z) : Z := wrap (a + b).
Definition int_sub (a b : Z) : Z := wrap (a - b).

(** [time.Duration]: a signed 64-bit count of nanoseconds. *)
Definition Minute : Z := 60 * 1000000000.

(** An instant as the code observes it.  [instant] is the position on the
    time line in nanoseconds, with 0 the zero [time.Time]; the other fields
    are the local calendar reading the runtime reports for that instant
    ([Weekday]: 0 = Sunday). *)
Record Time := mkTime {
  instant : Z;
  Year : Z;
  Month : Z;
  Day : Z;
  Hour : Z;
  Min : Z;
  Weekday : Z
}.

Definition zeroTime : Time := mkTime 0 1 1 1 0 0 1.

Definition IsZero (t : Time) : bool := instant t =? 0.

(** [t.Sub(u)]: the difference as a Duration, saturating at the ends of the
    int64 range. *)
Definition Sub (t u : Time) : Z :=
  let d := instant t - instant u in
  if d <? minInt then minInt else if maxInt <? d then maxInt else d.

(** *** float64

    A finite float64 is held as the fraction it denotes; the denominator
    is a power of two.  Every operation rounds the exact result to the
    nearest value with 53 significant bits, ties to the even one (IEEE 754
    round-to-nearest-even).  The exponent range of float64 is not
    modelled: the quotients and sums of Durations stay far inside it. *)
Record float64 := mkFloat { num : Z; den : Z }.

(** The integer part of the binary logarithm of [p / q], for positive [p]
    and [q]: the exponent of the leading bit. *)
Definition floorLog2 (p q : Z) : Z :=
  if q <=? p then Z.log2 (p / q) else - Z.log2_up ((q + p - 1) / p).

(** [a / b] rounded to the nearest integer, ties to the even one. *)
Definition roundEven (a b : Z) : Z :=
  let f := a / b in
  let r := a mod b in
  if 2 * r <? b then f
  else if b <? 2 * r then f + 1
  else if Z.even f then f else f + 1.

(** The float64 nearest to [p / q] ([q] positive): the quotient is scaled
    so that its integer part has 53 bits, and rounded there. *)
Definition nearest (p q : Z) : float64 :=
  if p =? 0 then mkFloat 0 1
  else
    let a := Z.abs p in
    let e := floorLog2 a q - 52 in
    if 0 <=? e then mkFloat (Z.sgn p * (roundEven a (q * 2 ^ e) * 2 ^ e)) 1
    else mkFloat (Z.sgn p * roundEven (a * 2 ^ (- e)) q) (2 ^ (- e)).

(** [float64(n)], [x + y], [x / y] and [int(x)] (truncation toward zero). *)
Definition float64_of_int (n : Z) : float64 := nearest n 1.

Definition fadd (x y : float64) : float64 :=
  nearest (num x * den y + num y * den x) (den x * den y).

Definition fdiv (x y : float64) : float64 :=
  nearest (Z.sgn (num y) * num x * den y) (den x * Z.abs (num y)).

Definition int_of_float64 (x : float64) : Z := Z.quot (num x) (den x).

(** [d.Minutes()], as package [time] computes it:
    [min := d / Minute; nsec := d % Minute;
     return float64(min) + float64(nsec)/(60*1e9)]. *)
Definition Minutes (d : Z) : float64 :=
  let min := Z.quot d Minute in
  let nsec := Z.rem d Minute in
  fadd (float64_of_int min) (fdiv (float64_of_int nsec) (float64_of_int (60 * 1000000000))).

(** [int(d.Minutes())] *)
Definition MinutesInt (d : Z) : Z := int_of_float64 (Minutes d).

Definition digit (n : Z) : ascii := ascii_of_nat (48 + Z.to_nat (n mod 10)).

Definition pad2 (n : Z) : string :=
  String (digit (n / 10)) (String (digit n) EmptyString).

Definition pad4 (n : Z) : string :=
  String (digit (n / 1000)) (String (digit (n / 100)) (pad2 n)).

(** [t.Format("15:04")] and [t.Format("2006-01-02")]. *)
Definition Format_HHMM (t : Time) : string := pad2 (Hour t) ++ ":" ++ pad2 (Min t).

Definition Format_date (t : Time) : string :=
  pad4 (Year t) ++ "-" ++ pad2 (Month t) ++ "-" ++ pad2 (Day t).

(** Comparison of Go strings: byte-wise lexicographic. *)
Fixpoint str_leb (a b : string) : bool :=
  match a, b with
  | EmptyString, _ => true
  | String _ _, EmptyString => false
  | String x a', String y b' =>
      if (nat_of_ascii x <? nat_of_ascii y)%nat then true
      else if (nat_of_ascii x =? nat_of_ascii y)%nat then str_leb a' b'
      else false
  end.

Definition str_ltb (a b : string) : bool := negb (str_leb b a).

(** *** Package [strings] (byte strings; separators are never empty here) *)

Definition is_cr_lf (c : ascii) : bool :=
  (nat_of_ascii c =? 10)%nat || (nat_of_ascii c =? 13)%nat.

(** Scan shared by [Split] and [ReplaceAll]: at a match of [sep] the
    remaining [length sep - 1] bytes of the match are skipped. *)
Fixpoint splitScan (sep s : string) (skip : nat) (cur : string) : list string :=
  match s with
  | EmptyString => [cur]
  | String c s' =>
      match skip with
      | S k => splitScan sep s' k cur
      | O =>
          if prefix sep s
          then cur :: splitScan sep s' (String.length sep - 1) EmptyString
          else splitScan sep s' 0 (cur ++ String c EmptyString)
      end
  end.

(** [strings.Split(s, sep)] *)
Definition Split (s sep : string) : list string := splitScan sep s 0 EmptyString.

(** [strings.SplitN(s, sep, 2)]: cut at the first occurrence of [sep]. *)
Fixpoint cutScan (sep s : string) (cur : string) : list string :=
  match s with
  | EmptyString => [cur]
  | String c s' =>
      if prefix sep s
      then [cur; substring (String.length sep) (String.length s) s]
      else cutScan sep s' (cur ++ String c EmptyString)
  end.

Definition SplitN2 (s sep : string) : list string := cutScan sep s EmptyString.

(** [strings.Contains(s, substr)] *)
Fixpoint Contains (s substr : string) : bool :=
  match s with
  | EmptyString => prefix substr EmptyString
  | String _ s' => prefix substr s || Contains s' substr
  end.

(** [strings.ReplaceAll(s, old, new)] *)
Fixpoint replaceScan (old new s : string) (skip : nat) : string :=
  match s with
  | EmptyString => EmptyString
  | String c s' =>
      match skip with
      | S k => replaceScan old new s' k
      | O =>
          if prefix old s
          then new ++ replaceScan old new s' (String.length old - 1)
          else String c (replaceScan old new s' 0)
      end
  end.

Definition ReplaceAll (s old new : string) : string := replaceScan old new s 0.

(** [strings.Repeat(s, n)] *)
Fixpoint Repeat (s : string) (n : nat) : string :=
  match n with
  | O => EmptyString
  | S k => s ++ Repeat s k
  end.

Fixpoint inCutset (cutset : string) (c : ascii) : bool :=
  match cutset with
  | EmptyString => false
  | String x rest => Ascii.eqb x c || inCutset rest c
  end.

(** [strings.TrimRight(s, cutset)], for a cutset of ASCII bytes. *)
Fixpoint TrimRight (s cutset : string) : string :=
  match s with
  | EmptyString => EmptyString
  | String c s' =>
      match TrimRight s' cutset with
      | EmptyString => if inCutset cutset c then EmptyString else String c EmptyString
      | r => String c r
      end
  end.

Fixpoint rev_string (s acc : string) : string :=
  match s with
  | EmptyString => acc
  | String c s' => rev_string s' (String c acc)
  end.

Definition bytes_string (l : list nat) : string :=
  string_of_list_ascii (map ascii_of_nat l).

(** The UTF-8 encodings of the code points [unicode.IsSpace] accepts. *)
Definition spaceRunes : list string :=
  map bytes_string
    [ [9]; [10]; [11]; [12]; [13]; [32];
      [194; 133]; [194; 160]; [225; 154; 128];
      [226; 128; 128]; [226; 128; 129]; [226; 128; 130]; [226; 128; 131];
      [226; 128; 132]; [226; 128; 133]; [226; 128; 134]; [226; 128; 135];
      [226; 128; 136]; [226; 128; 137]; [226; 128; 138];
      [226; 128; 168]; [226; 128; 169]; [226; 128; 175];
      [226; 129; 159]; [227; 128; 128] ]%nat.

Fixpoint dropLeading (pats : list string) (s : string) (skip : nat) : string :=
  match s with
  | EmptyString => EmptyString
  | String _ s' =>
      match skip with
      | S k => dropLeading pats s' k
      | O =>
          match find (fun p => prefix p s) pats with
          | Some p => dropLeading pats s' (String.length p - 1)
          | None => s
          end
      end
  end.

(** [strings.TrimSpace(s)]: leading and trailing white space removed. *)
Definition TrimSpace (s : string) : string :=
  let front := dropLeading spaceRunes s 0 in
  let back := dropLeading (map (fun p => rev_string p EmptyString) spaceRunes)
                          (rev_string front EmptyString) 0 in
  rev_string back EmptyString.

(** *** UTF-8, as [for range] over a string and [utf8.AppendRune] have it *)

Definition RuneError : Z := 65533.

Definition byteVal (c : ascii) : Z := Z.of_nat (nat_of_ascii c).

(** A continuation byte, for a second byte within [lo..hi]. *)
Definition continues (c : ascii) (lo hi : Z) : bool :=
  (lo <=? byteVal c) && (byteVal c <=? hi).

(** [utf8.DecodeRuneInString(s)] for a non-empty [s]: the rune and its
    width; a byte that begins no valid encoding is [RuneError], width 1. *)
Definition decodeRune (s : string) : Z * nat :=
  match s with
  | EmptyString => (RuneError, 0%nat)
  | String b0 rest =>
      let x := byteVal b0 in
      if x <? 128 then (x, 1%nat)
      else if (194 <=? x) && (x <=? 223) then
        match rest with
        | String b1 _ =>
            if continues b1 128 191
            then (x mod 32 * 64 + byteVal b1 mod 64, 2%nat)
            else (RuneError, 1%nat)
        | _ => (RuneError, 1%nat)
        end
      else if (224 <=? x) && (x <=? 239) then
        match rest with
        | String b1 (String b2 _) =>
            if continues b1 (if x =? 224 then 160 else 128) (if x =? 237 then 159 else 191)
               && continues b2 128 191
            then (x mod 16 * 4096 + byteVal b1 mod 64 * 64 + byteVal b2 mod 64, 3%nat)
            else (RuneError, 1%nat)
        | _ => (RuneError, 1%nat)
        end
      else if (240 <=? x) && (x <=? 244) then
        match rest with
        | String b1 (String b2 (String b3 _)) =>
            if continues b1 (if x =? 240 then 144 else 128) (if x =? 244 then 143 else 191)
               && continues b2 128 191 && continues b3 128 191
            then (x mod 8 * 262144 + byteVal b1 mod 64 * 4096 + byteVal b2 mod 64 * 64
                  + byteVal b3 mod 64, 4%nat)
            else (RuneError, 1%nat)
        | _ => (RuneError, 1%nat)
        end
      else (RuneError, 1%nat)
  end.

Definition byteOf (v : Z) : ascii := ascii_of_nat (Z.to_nat v).

(** [utf8.AppendRune]: a surrogate or a value out of range is written as
    [RuneError]. *)
Definition encodeRune (r : Z) : string :=
  if (0 <=? r) && (r <=? 127) then String (byteOf r) ""
  else if (128 <=? r) && (r <=? 2047) then
    String (byteOf (192 + r / 64)) (String (byteOf (128 + r mod 64)) "")
  else if (r <? 0) || (1114111 <? r) || ((55296 <=? r) && (r <=? 57343)) then
    String (byteOf 239) (String (byteOf 191) (String (byteOf 189) ""))
  else if r <=? 65535 then
    String (byteOf (224 + r / 4096))
      (String (byteOf (128 + r / 64 mod 64)) (String (byteOf (128 + r mod 64)) ""))
  else
    String (byteOf (240 + r / 262144))
      (String (byteOf (128 + r / 4096 mod 64))
         (String (byteOf (128 + r / 64 mod 64)) (String (byteOf (128 + r mod 64)) ""))).

(** [strings.Map(mapping, s)]: the runes of [s], mapped and written out
    again; a rune mapped to a negative value is dropped.  ([skip] counts
    the bytes left of the rune just decoded.) *)
Fixpoint mapRunes (mapping : Z -> Z) (s : string) (skip : nat) : string :=
  match s with
  | EmptyString => EmptyString
  | String _ s' =>
      match skip with
      | S k => mapRunes mapping s' k
      | O =>
          let (c, width) := decodeRune s in
          let r := mapping c in
          (if r <? 0 then EmptyString else encodeRune r) ++ mapRunes mapping s' (width - 1)
      end
  end.

(** *** [strings.ToLower]

    For a text of ASCII bytes the letters are lowered byte by byte;
    any other text goes through [strings.Map(unicode.ToLower, s)].
    [unicode.ToLower] lowers the ASCII letters itself and looks every other
    rune up in the case tables of package [unicode], which are no part of
    the repository: [caseTable] stands for that lookup. *)
Definition lower_ascii (c : ascii) : ascii :=
  let n := nat_of_ascii c in
  if ((65 <=? n) && (n <=? 90))%nat then ascii_of_nat (n + 32) else c.

Fixpoint lowerBytes (s : string) : string :=
  match s with
  | EmptyString => EmptyString
  | String c s' => String (lower_ascii c) (lowerBytes s')
  end.

Fixpoint isASCII (s : string) : bool :=
  match s with
  | EmptyString => true
  | String c s' => (byteVal c <? 128) && isASCII s'
  end.

Definition unicode_ToLower (caseTable : Z -> Z) (r : Z) : Z :=
  if r <=? 127 then (if (65 <=? r) && (r <=? 90) then r + 32 else r)
  else caseTable r.

Definition ToLower (caseTable : Z -> Z) (s : string) : string :=
  if isASCII s then lowerBytes s
  else mapRunes (unicode_ToLower caseTable) s 0.

Fixpoint filter_string (keep : ascii -> bool) (s : string) : string :=
  match s with
  | EmptyString => EmptyString
  | String c s' => if keep c then String c (filter_string keep s') else filter_string keep s'
  end.

(** [strings.Fields(s)]: the maximal runs of bytes free of white space. *)
Fixpoint fieldsScan (s : string) (skip : nat) (cur : string) : list string :=
  match s with
  | EmptyString => if String.eqb cur EmptyString then [] else [cur]
  | String c s' =>
      match skip with
      | S k => fieldsScan s' k cur
      | O =>
          match find (fun p => prefix p s) spaceRunes with
          | Some p =>
              if String.eqb cur EmptyString
              then fieldsScan s' (String.length p - 1) EmptyString
              else cur :: fieldsScan s' (String.length p - 1) EmptyString
          | None => fieldsScan s' 0 (cur ++ String c EmptyString)
          end
      end
  end.

Definition Fields (s : string) : list string := fieldsScan s 0 EmptyString.

(** [%d] of [fmt.Sprintf] *)
Definition itoa (z : Z) : string := NilZero.string_of_int (Z.to_int z).

(** [strings.Join(parts, sep)] *)
Definition Join (parts : list string) (sep : string) : string := String.concat sep parts.


(** [strings.TrimPrefix(s, prefix)] *)
Definition TrimPrefix (s pre : string) : string :=
  if prefix pre s
  then substring (String.length pre) (String.length s - String.length pre) s
  else s.

(** [strings.Index(s, substr)]: the position of the first occurrence,
    -1 when there is none. *)
Fixpoint Index (s substr : string) : Z :=
  match s with
  | EmptyString => if prefix substr EmptyString then 0 else -1
  | String _ s' =>
      if prefix substr s then 0
      else let i := Index s' substr in if i =? -1 then -1 else i + 1
  end.

(** *** Package [encoding/base64] *)

Definition stdAlphabet : string :=
  "ABCDEFGHIJKLMNOPQRSTUVWXYZabcdefghijklmnopqrstuvwxyz0123456789+/".

Definition urlAlphabet : string :=
  "ABCDEFGHIJKLMNOPQRSTUVWXYZabcdefghijklmnopqrstuvwxyz0123456789-_".

Fixpoint indexOf (alphabet : string) (c : ascii) (i : Z) : option Z :=
  match alphabet with
  | EmptyString => None
  | String x rest => if Ascii.eqb x c then Some i else indexOf rest c (i + 1)
  end.

Definition sextet (alphabet : string) (c : ascii) : option Z := indexOf alphabet c 0.

Definition symbol (alphabet : string) (v : Z) : ascii :=
  match String.get (Z.to_nat (v mod 64)) alphabet with
  | Some c => c
  | None => "="%char
  end.

Definition byte_of (v : Z) : ascii := ascii_of_nat (Z.to_nat (v mod 256)).
Definition val_of (c : ascii) : Z := Z.of_nat (nat_of_ascii c).

Definition isPad (c : ascii) : bool := Ascii.eqb c "="%char.

(** The quanta of a base64 text from which CR and LF have been dropped.
    With padding the text is whole 4-byte quanta, the last one possibly
    [xx==] or [xxx=]; without it the last quantum may have 2 or 3 symbols. *)
Fixpoint decodeQuanta (alphabet : string) (padded : bool) (l : list ascii)
  : option (list ascii) :=
  match l with
  | [] => Some []
  | a :: b :: c :: d :: rest =>
      match sextet alphabet a, sextet alphabet b with
      | Some x, Some y =>
          match sextet alphabet c, sextet alphabet d with
          | Some z, Some w =>
              let v := x * 262144 + y * 4096 + z * 64 + w in
              match decodeQuanta alphabet padded rest with
              | Some out => Some (byte_of (v / 65536) :: byte_of (v / 256) :: byte_of v :: out)
              | None => None
              end
          | Some z, None =>
              match rest with
              | [] =>
                  if padded && isPad d
                  then let v := x * 262144 + y * 4096 + z * 64 in
                       Some [byte_of (v / 65536); byte_of (v / 256)]
                  else None
              | _ => None
              end
          | None, _ =>
              match rest with
              | [] =>
                  if padded && isPad c && isPad d
                  then let v := x * 262144 + y * 4096 in Some [byte_of (v / 65536)]
                  else None
              | _ => None
              end
          end
      | _, _ => None
      end
  | [a; b; c] =>
      if padded then None
      else match sextet alphabet a, sextet alphabet b, sextet alphabet c with
           | Some x, Some y, Some z =>
               let v := x * 262144 + y * 4096 + z * 64 in
               Some [byte_of (v / 65536); byte_of (v / 256)]
           | _, _, _ => None
           end
  | [a; b] =>
      if padded then None
      else match sextet alphabet a, sextet alphabet b with
           | Some x, Some y => let v := x * 262144 + y * 4096 in Some [byte_of (v / 65536)]
           | _, _ => None
           end
  | [_] => None
  end.

(** [enc.DecodeString(s)]; [None] stands for a non-nil error. *)
Definition decodeString (alphabet : string) (padded : bool) (s : string) : option string :=
  match decodeQuanta alphabet padded
          (filter (fun c => negb (is_cr_lf c)) (list_ascii_of_string s)) with
  | Some out => Some (string_of_list_ascii out)
  | None => None
  end.

Definition StdEncoding_DecodeString : string -> option string := decodeString stdAlphabet true.
Definition URLEncoding_DecodeString : string -> option string := decodeString urlAlphabet true.
Definition RawStdEncoding_DecodeString : string -> option string := decodeString stdAlphabet false.

(** [base64.StdEncoding.EncodeToString] *)
Fixpoint encodeQuanta (alphabet : string) (l : list ascii) : list ascii :=
  match l with
  | [] => []
  | a :: b :: c :: rest =>
      let v := val_of a * 65536 + val_of b * 256 + val_of c in
      symbol alphabet (v / 262144) :: symbol alphabet (v / 4096)
        :: symbol alphabet (v / 64) :: symbol alphabet v :: encodeQuanta alphabet rest
  | [a; b] =>
      let v := val_of a * 65536 + val_of b * 256 in
      [symbol alphabet (v / 262144); symbol alphabet (v / 4096); symbol alphabet (v / 64); "="%char]
  | [a] =>
      let v := val_of a * 65536 in
      [symbol alphabet (v / 262144); symbol alphabet (v / 4096); "="%char; "="%char]
  end.

Definition StdEncoding_EncodeToString (s : string) : string :=
  string_of_list_ascii (encodeQuanta stdAlphabet (list_ascii_of_string s)).

(** *** Package [net/url] *)

Definition hexDigit (v : Z) : ascii :=
  match String.get (Z.to_nat (v mod 16)) "0123456789ABCDEF" with
  | Some c => c
  | None => "0"%char
  end.

Definition unhex (c : ascii) : option Z :=
  let n := nat_of_ascii c in
  if ((48 <=? n) && (n <=? 57))%nat then Some (Z.of_nat n - 48)
  else if ((97 <=? n) && (n <=? 102))%nat then Some (Z.of_nat n - 97 + 10)
  else if ((65 <=? n) && (n <=? 70))%nat then Some (Z.of_nat n - 65 + 10)
  else None.

Definition unreserved (c : ascii) : bool :=
  let n := nat_of_ascii c in
  ((65 <=? n) && (n <=? 90) || (97 <=? n) && (n <=? 122) || (48 <=? n) && (n <=? 57)
   || (n =? 45) || (n =? 95) || (n =? 46) || (n =? 126))%nat.

(** [url.QueryEscape(s)] *)
Fixpoint QueryEscape (s : string) : string :=
  match s with
  | EmptyString => EmptyString
  | String c s' =>
      if unreserved c then String c (QueryEscape s')
      else if Ascii.eqb c " "%char then String "+"%char (QueryEscape s')
      else String "%"%char
             (String (hexDigit (val_of c / 16)) (String (hexDigit (val_of c)) (QueryEscape s')))
  end.

(** [url.QueryUnescape(s)]; [None] stands for a non-nil error. *)
Fixpoint unescapeBytes (l : list ascii) : option (list ascii) :=
  match l with
  | [] => Some []
  | c :: rest =>
      if Ascii.eqb c "%"%char then
        match rest with
        | h :: l' :: rest' =>
            match unhex h, unhex l', unescapeBytes rest' with
            | Some x, Some y, Some out => Some (byte_of (x * 16 + y) :: out)
            | _, _, _ => None
            end
        | _ => None
        end
      else
        match unescapeBytes rest with
        | Some out => Some ((if Ascii.eqb c "+"%char then " "%char else c) :: out)
        | None => None
        end
  end.

Definition QueryUnescape (s : string) : option string :=
  option_map string_of_list_ascii (unescapeBytes (list_ascii_of_string s)).

End Go.

(* ================================================================== *)
(** ** Path helpers of the API ([internal/api/handlers/common.go]) *)
(* ================================================================== *)

Module Common.
Import Go.

(** common.go, [ExtractID] (lines 27-35) *)
Definition ExtractID (path pre : string) : string :=
  let path := TrimPrefix path pre in
  let path := TrimPrefix path "/" in
  let idx := Index path "/" in
  if negb (idx =? -1) then substring 0 (Z.to_nat idx) path else path.

(** common.go, [ExtractAction] (lines 38-46) *)
Definition ExtractAction (path pre : string) : string :=
  let path := TrimPrefix path pre in
  let path := TrimPrefix path "/" in
  match Split path "/" with
  | _ :: action :: _ => action
  | _ => ""
  end.

End Common.

(* ================================================================== *)
(** ** Data model ([internal/models]) *)
(* ================================================================== *)

Module Models.
Import Go.

(** [type FilterMode string] *)
Definition FilterMode := string.
Definition FilterModeStudy : FilterMode := "study".
Definition FilterModeNormal : FilterMode := "normal".

Record Device := mkDevice {
  dev_MAC : string;
  dev_Name : string;
  dev_FirstSeen : Time
}.

Record Child := mkChild {
  ID : string;
  Username : string;
  PasswordHash : string;
  Name : string;
  DailyQuotaMin : Z;
  UsedTodayMin : Z;
  ChildFilterMode : FilterMode;
  ScheduleID : string;
  Devices : list Device;
  LastResetDate : string;
  IsActive : bool;
  CreatedAt : Time;
  UpdatedAt : Time
}.

(** child.go, [RemainingMinutes] *)
Definition RemainingMinutes (c : Child) : Z :=
  let remaining := int_sub (DailyQuotaMin c) (UsedTodayMin c) in
  if remaining <? 0 then 0 else remaining.

(** child.go, [HasDevice] *)
Fixpoint hasDeviceIn (ds : list Device) (mac : string) : bool :=
  match ds with
  | [] => false
  | d :: ds' => if String.eqb (dev_MAC d) mac then true else hasDeviceIn ds' mac
  end.

Definition HasDevice (c : Child) (mac : string) : bool := hasDeviceIn (Devices c) mac.

Definition set_Devices (c : Child) (ds : list Device) : Child :=
  mkChild (ID c) (Username c) (PasswordHash c) (Name c) (DailyQuotaMin c)
    (UsedTodayMin c) (ChildFilterMode c) (ScheduleID c) ds (LastResetDate c)
    (IsActive c) (CreatedAt c) (UpdatedAt c).

(** child.go, [AddDevice]; [seen] is the clock reading of its [time.Now()]. *)
Definition AddDevice (c : Child) (mac name : string) (seen : Time) : Child :=
  if HasDevice c mac then c
  else set_Devices c (Devices c ++ [mkDevice mac name seen])%list.

Definition set_usage (c : Child) (used : Z) (upd : Time) : Child :=
  mkChild (ID c) (Username c) (PasswordHash c) (Name c) (DailyQuotaMin c)
    used (ChildFilterMode c) (ScheduleID c) (Devices c) (LastResetDate c)
    (IsActive c) (CreatedAt c) upd.

Definition reset_quota (c : Child) (dateStr : string) : Child :=
  mkChild (ID c) (Username c) (PasswordHash c) (Name c) (DailyQuotaMin c)
    0 (ChildFilterMode c) (ScheduleID c) (Devices c) dateStr
    (IsActive c) (CreatedAt c) (UpdatedAt c).

Record TimeBlock := mkTimeBlock {
  DayOfWeek : Z;
  StartTime : string;
  EndTime : string;
  BlockFilterMode : FilterMode
}.

Record Schedule := mkSchedule {
  sched_ID : string;
  sched_Name : string;
  TimeBlocks : list TimeBlock;
  IsDefault : bool;
  sched_CreatedAt : Time;
  sched_UpdatedAt : Time
}.

(** schedule.go, [IsAllowedNow]: the loop over the blocks, at the clock
    reading [now] of its [time.Now()]. *)
Fixpoint allowedIn (blocks : list TimeBlock) (dayOfWeek : Z) (currentTime : string) : bool :=
  match blocks with
  | [] => false
  | block :: rest =>
      if DayOfWeek block =? dayOfWeek then
        if str_leb (StartTime block) currentTime && str_leb currentTime (EndTime block)
        then true
        else allowedIn rest dayOfWeek currentTime
      else allowedIn rest dayOfWeek currentTime
  end.

Definition IsAllowedNow (s : Schedule) (now : Time) : bool :=
  let dayOfWeek := Weekday now in
  let currentTime := Format_HHMM now in
  allowedIn (TimeBlocks s) dayOfWeek currentTime.

(** schedule.go, [GetCurrentFilterMode]: the mode of the first block that
    admits the clock reading [now], normal when none does. *)
Fixpoint modeIn (blocks : list TimeBlock) (dayOfWeek : Z) (currentTime : string)
  : FilterMode :=
  match blocks with
  | [] => FilterModeNormal
  | block :: rest =>
      if DayOfWeek block =? dayOfWeek then
        if str_leb (StartTime block) currentTime && str_leb currentTime (EndTime block)
        then BlockFilterMode block
        else modeIn rest dayOfWeek currentTime
      else modeIn rest dayOfWeek currentTime
  end.

Definition GetCurrentFilterMode (s : Schedule) (now : Time) : FilterMode :=
  let dayOfWeek := Weekday now in
  let currentTime := Format_HHMM now in
  modeIn (TimeBlocks s) dayOfWeek currentTime.

Record Session := mkSession {
  sess_ID : string;
  ChildID : string;
  ChildName : string;
  MAC : string;
  IP : string;
  StartedAt : Time;
  LastTickAt : Time;
  sess_IsActive : bool;
  SessionToken : string
}.

Definition set_LastTickAt (s : Session) (t : Time) : Session :=
  mkSession (sess_ID s) (ChildID s) (ChildName s) (MAC s) (IP s) (StartedAt s)
    t (sess_IsActive s) (SessionToken s).

Definition set_IsActive (s : Session) (b : bool) : Session :=
  mkSession (sess_ID s) (ChildID s) (ChildName s) (MAC s) (IP s) (StartedAt s)
    (LastTickAt s) b (SessionToken s).


(** session.go, [DurationMinutes], at the clock reading [now] of its
    [time.Since]. *)
Definition DurationMinutes (s : Session) (now : Time) : Z :=
  MinutesInt (Sub now (StartedAt s)).

(** Assignments to single fields of a child, as the handlers make them. *)
Definition set_UsedTodayMin (c : Child) (used : Z) : Child :=
  mkChild (ID c) (Username c) (PasswordHash c) (Name c) (DailyQuotaMin c)
    used (ChildFilterMode c) (ScheduleID c) (Devices c) (LastResetDate c)
    (IsActive c) (CreatedAt c) (UpdatedAt c).

Definition set_DailyQuotaMin (c : Child) (quota : Z) : Child :=
  mkChild (ID c) (Username c) (PasswordHash c) (Name c) quota
    (UsedTodayMin c) (ChildFilterMode c) (ScheduleID c) (Devices c) (LastResetDate c)
    (IsActive c) (CreatedAt c) (UpdatedAt c).

Definition set_LastResetDate (c : Child) (dateStr : string) : Child :=
  mkChild (ID c) (Username c) (PasswordHash c) (Name c) (DailyQuotaMin c)
    (UsedTodayMin c) (ChildFilterMode c) (ScheduleID c) (Devices c) dateStr
    (IsActive c) (CreatedAt c) (UpdatedAt c).

Definition set_UpdatedAt (c : Child) (t : Time) : Child :=
  mkChild (ID c) (Username c) (PasswordHash c) (Name c) (DailyQuotaMin c)
    (UsedTodayMin c) (ChildFilterMode c) (ScheduleID c) (Devices c) (LastResetDate c)
    (IsActive c) (CreatedAt c) t.

(** user.go *)
Record User := mkUser {
  user_ID : string;
  user_Username : string;
  user_PasswordHash : string;
  DisplayName : string;
  Role : string;
  ForcePasswordChange : bool;
  user_CreatedAt : Time;
  user_UpdatedAt : Time
}.

End Models.

(* ================================================================== *)
(** ** The process state and its effects *)
(* ================================================================== *)

Module Sys.
Import Go Models.

(** Objects of the store are Go pointers: an address into a heap of
    records.  Two slots of a slice may hold the same address. *)
Definition ptr := nat.

Definition upd {A : Type} (h : ptr -> A) (p : ptr) (v : A) : ptr -> A :=
  fun q => if Nat.eqb q p then v else h q.

(** storage.go, [Storage]: the in-memory slices, and the two JSON files the
    modelled code rewrites. *)
Record Store := mkStore {
  childAt : ptr -> Child;
  sessionAt : ptr -> Session;
  admins : list User;
  children : list ptr;
  sessions : list ptr;
  schedules : list Schedule;
  children_json : list Child;
  sessions_json : list Session
}.

(** What the process does to the outside, most recent first. *)
Inductive Event :=
| NdsAuth (mac : string) (sessionMinutes uploadKbps downloadKbps : Z)
| NdsDeauth (macOrIP : string)
| Logged (line : string)
| Slept (milliseconds : Z).

(** What the outside answers: the clock, the exit status of the [ndsctl]
    binary, the outcome of file writes, the random source, and what the
    repository only calls or reads: bcrypt, HMAC, the ARP table, and the
    case tables of package [unicode] ([lower_rune]: the lower-case mapping
    of the runes above ASCII). *)
Record Env := mkEnv {
  now_at : nat -> Time;
  exec_fails : nat -> bool;
  write_fails : nat -> bool;
  rand_hex : nat -> string;
  bcrypt_matches : string -> string -> bool;
  hmac_token : string -> string -> bool -> Z -> Time -> string;
  arp_table : option string;
  lower_rune : Z -> Z
}.

Record World := mkWorld {
  store : Store;
  trace : list Event;
  step : nat;
  env : Env
}.

Definition M (A : Type) : Type := World -> A * World.

Definition ret {A : Type} (a : A) : M A := fun w => (a, w).

Definition bind {A B : Type} (m : M A) (k : A -> M B) : M B :=
  fun w => let (a, w') := m w in k a w'.

Definition run {A : Type} (m : M A) (w : World) : World := snd (m w).
Definition result {A : Type} (m : M A) (w : World) : A := fst (m w).

Declare Scope go_scope.
Delimit Scope go_scope with go.
Notation "x <- m ;; k" := (bind m (fun x => k))
  (at level 61, m at next level, right associativity) : go_scope.
Notation "m ;; k" := (bind m (fun _ => k))
  (at level 61, right associativity) : go_scope.
Open Scope go_scope.

(** A [for ... range] loop whose body may [continue]. *)
Fixpoint forRange {A : Type} (l : list A) (body : A -> M unit) : M unit :=
  match l with
  | [] => ret tt
  | a :: rest => body a ;; forRange rest body
  end.

Definition getStore : M Store := fun w => (store w, w).

Definition putStore (st : Store) : M unit :=
  fun w => (tt, mkWorld st (trace w) (step w) (env w)).

Definition emit (e : Event) : M unit :=
  fun w => (tt, mkWorld (store w) (e :: trace w) (step w) (env w)).

Definition ask {A : Type} (f : Env -> nat -> A) : M A :=
  fun w => (f (env w) (step w), mkWorld (store w) (trace w) (S (step w)) (env w)).

Definition getEnv : M Env := fun w => (env w, w).

(** [time.Now()], [time.Sleep], [log.Printf] *)
Definition time_Now : M Time := ask now_at.
Definition time_Sleep (ms : Z) : M unit := emit (Slept ms).
Definition log_Printf (line : string) : M unit := emit (Logged line).

(** Field updates through a pointer. *)
Definition readChild (p : ptr) : M Child := st <- getStore ;; ret (childAt st p).
Definition readSession (p : ptr) : M Session := st <- getStore ;; ret (sessionAt st p).

Definition writeChild (p : ptr) (c : Child) : M unit :=
  st <- getStore ;;
  putStore (mkStore (upd (childAt st) p c) (sessionAt st) (admins st) (children st)
              (sessions st) (schedules st) (children_json st) (sessions_json st)).

Definition writeSession (p : ptr) (s : Session) : M unit :=
  st <- getStore ;;
  putStore (mkStore (childAt st) (upd (sessionAt st) p s) (admins st) (children st)
              (sessions st) (schedules st) (children_json st) (sessions_json st)).

End Sys.

(* ================================================================== *)
(** ** The record store ([internal/storage/storage.go]) *)
(* ================================================================== *)

Module Storage.
Import Go Models Sys.

(** [saveFile]: the whole collection is written out, unless the write
    fails; the error (here [true]) goes back to the caller. *)
Definition saveFile_children : M bool :=
  failed <- ask write_fails ;;
  st <- getStore ;;
  (if failed then ret tt
   else putStore (mkStore (childAt st) (sessionAt st) (admins st) (children st)
                    (sessions st) (schedules st)
                    (map (childAt st) (children st)) (sessions_json st))) ;;
  ret failed.

Definition saveFile_sessions : M bool :=
  failed <- ask write_fails ;;
  st <- getStore ;;
  (if failed then ret tt
   else putStore (mkStore (childAt st) (sessionAt st) (admins st) (children st)
                    (sessions st) (schedules st)
                    (children_json st) (map (sessionAt st) (sessions st)))) ;;
  ret failed.

(** The search loops: the first slot whose object satisfies [test]. *)
Fixpoint firstWhere {A : Type} (obj : ptr -> A) (test : A -> bool) (slots : list ptr)
  : option ptr :=
  match slots with
  | [] => None
  | p :: rest => if test (obj p) then Some p else firstWhere obj test rest
  end.

(** The save loops: the first slot whose object satisfies [test] is
    overwritten with [p]; [None] when no slot matched ([found] stays false). *)
Fixpoint replaceFirst {A : Type} (obj : ptr -> A) (test : A -> bool) (p : ptr)
  (slots : list ptr) : option (list ptr) :=
  match slots with
  | [] => None
  | q :: rest =>
      if test (obj q) then Some (p :: rest)
      else match replaceFirst obj test p rest with
           | Some rest' => Some (q :: rest')
           | None => None
           end
  end.

Definition upsert {A : Type} (obj : ptr -> A) (test : A -> bool) (p : ptr)
  (slots : list ptr) : list ptr :=
  match replaceFirst obj test p slots with
  | Some slots' => slots'
  | None => (slots ++ [p])%list
  end.

(** [ListChildren]: a copy of the slice. *)
Definition ListChildren : M (list ptr) := st <- getStore ;; ret (children st).

(** [GetChild] *)
Definition GetChild (id : string) : M (option ptr) :=
  st <- getStore ;;
  ret (firstWhere (childAt st) (fun c => String.eqb (ID c) id) (children st)).

(** [GetChildByUsername] *)
Definition GetChildByUsername (username : string) : M (option ptr) :=
  st <- getStore ;;
  ret (firstWhere (childAt st) (fun c => String.eqb (Username c) username) (children st)).

(** [SaveChild] *)
Definition SaveChild (child : ptr) : M bool :=
  st <- getStore ;;
  let id := ID (childAt st child) in
  putStore (mkStore (childAt st) (sessionAt st) (admins st)
              (upsert (childAt st) (fun c => String.eqb (ID c) id) child (children st))
              (sessions st) (schedules st) (children_json st) (sessions_json st)) ;;
  saveFile_children.

(** [ListSessions]: the sessions whose [IsActive] is set, in slice order. *)
Definition activeSessions (st : Store) : list ptr :=
  filter (fun p => sess_IsActive (sessionAt st p)) (sessions st).

Definition ListSessions : M (list ptr) := st <- getStore ;; ret (activeSessions st).

(** [GetSession] *)
Definition GetSession (id : string) : M (option ptr) :=
  st <- getStore ;;
  ret (firstWhere (sessionAt st) (fun s => String.eqb (sess_ID s) id) (sessions st)).

(** [GetSessionByMAC] *)
Definition GetSessionByMAC (mac : string) : M (option ptr) :=
  st <- getStore ;;
  ret (firstWhere (sessionAt st)
         (fun s => String.eqb (MAC s) mac && sess_IsActive s) (sessions st)).

(** [SaveSession] *)
Definition SaveSession (session : ptr) : M bool :=
  st <- getStore ;;
  let id := sess_ID (sessionAt st session) in
  putStore (mkStore (childAt st) (sessionAt st) (admins st) (children st)
              (upsert (sessionAt st) (fun s => String.eqb (sess_ID s) id) session (sessions st))
              (schedules st) (children_json st) (sessions_json st)) ;;
  saveFile_sessions.

(** [GetSchedule] *)
Fixpoint findSchedule (id : string) (l : list Schedule) : option Schedule :=
  match l with
  | [] => None
  | sched :: rest => if String.eqb (sched_ID sched) id then Some sched else findSchedule id rest
  end.

Definition GetSchedule (id : string) : M (option Schedule) :=
  st <- getStore ;; ret (findSchedule id (schedules st)).

(** [GetAdminByUsername] *)
Fixpoint findAdmin (username : string) (l : list User) : option User :=
  match l with
  | [] => None
  | a :: rest => if String.eqb (user_Username a) username then Some a else findAdmin username rest
  end.

Definition GetAdminByUsername (username : string) : M (option User) :=
  st <- getStore ;; ret (findAdmin username (admins st)).

(** [ResetDailyQuotas]: every object of the slice is reset in place. *)
Fixpoint resetAll (dateStr : string) (slots : list ptr) (h : ptr -> Child) : ptr -> Child :=
  match slots with
  | [] => h
  | c :: rest => resetAll dateStr rest (upd h c (reset_quota (h c) dateStr))
  end.

Definition ResetDailyQuotas (dateStr : string) : M bool :=
  st <- getStore ;;
  putStore (mkStore (resetAll dateStr (children st) (childAt st)) (sessionAt st) (admins st)
              (children st) (sessions st) (schedules st)
              (children_json st) (sessions_json st)) ;;
  saveFile_children.

(** [ClearInactiveSessions] *)
Definition ClearInactiveSessions : M bool :=
  st <- getStore ;;
  putStore (mkStore (childAt st) (sessionAt st) (admins st) (children st)
              (activeSessions st) (schedules st) (children_json st) (sessions_json st)) ;;
  saveFile_sessions.

(** The delete loops: the first slot whose object satisfies [test] is cut
    out of the slice. *)
Fixpoint removeFirst {A : Type} (obj : ptr -> A) (test : A -> bool) (slots : list ptr)
  : list ptr :=
  match slots with
  | [] => []
  | q :: rest => if test (obj q) then rest else q :: removeFirst obj test rest
  end.

(** [GetChildByMAC] *)
Definition GetChildByMAC (mac : string) : M (option ptr) :=
  st <- getStore ;;
  ret (firstWhere (childAt st) (fun c => HasDevice c mac) (children st)).

(** [DeleteChild] *)
Definition DeleteChild (id : string) : M bool :=
  st <- getStore ;;
  putStore (mkStore (childAt st) (sessionAt st) (admins st)
              (removeFirst (childAt st) (fun c => String.eqb (ID c) id) (children st))
              (sessions st) (schedules st) (children_json st) (sessions_json st)) ;;
  saveFile_children.

(** A new object: an address no slot of the slice holds. *)
Definition freshPtr (slots : list ptr) : ptr := S (list_max slots).

End Storage.

(* ================================================================== *)
(** ** The controller client and the reconciliation loop
       ([internal/services]: ndsctl.go, ticker.go) *)
(* ================================================================== *)

Module Services.
Import Go Models Sys Storage.

(** [NDSCtl.Auth] and [NDSCtl.Deauth]: one run of the external binary each;
    the result is the error ([true]: the run failed). *)
Definition Auth (mac : string) (sessionMinutes uploadKbps downloadKbps : Z) : M bool :=
  emit (NdsAuth mac sessionMinutes uploadKbps downloadKbps) ;;
  ask exec_fails.

Definition Deauth (macOrIP : string) : M bool :=
  emit (NdsDeauth macOrIP) ;;
  ask exec_fails.

(** [GenerateID] *)
Definition GenerateID : M string := ask rand_hex.

(** ticker.go, [deauthSession] *)
Definition deauthSession (session : ptr) (reason : string) : M unit :=
  s <- readSession session ;;
  log_Printf ("Deauthenticating: " ++ reason) ;;
  err <- Deauth (MAC s) ;;
  (if err then log_Printf "ndsctl deauth error" else ret tt) ;;
  s <- readSession session ;;
  writeSession session (set_IsActive s false) ;;
  SaveSession session ;;
  ret tt.

(** ticker.go, [checkDailyReset] *)
Fixpoint anyStale (h : ptr -> Child) (todayStr : string) (slots : list ptr) : bool :=
  match slots with
  | [] => false
  | child :: rest =>
      if negb (String.eqb (LastResetDate (h child)) todayStr) then true
      else anyStale h todayStr rest
  end.

Definition checkDailyReset (now : Time) : M unit :=
  let todayStr := Format_date now in
  children <- ListChildren ;;
  st <- getStore ;;
  let needsReset := anyStale (childAt st) todayStr children in
  if needsReset then
    log_Printf "Resetting daily quotas" ;;
    ResetDailyQuotas todayStr ;;
    ret tt
  else ret tt.

(** ticker.go, [tick], lines 78-84: minutes since the last tick. *)
Definition minutesSince (now : Time) (s : Session) : Z :=
  if IsZero (LastTickAt s) then MinutesInt (Sub now (StartedAt s))
  else MinutesInt (Sub now (LastTickAt s)).

(** ticker.go, [tick], lines 86-94: the usage update. *)
Definition accrue (now : Time) (session child : ptr) (minutesToAdd : Z) : M unit :=
  if 0 <? minutesToAdd then
    c <- readChild child ;;
    writeChild child (set_usage c (int_add (UsedTodayMin c) minutesToAdd) now) ;;
    SaveChild child ;;
    s <- readSession session ;;
    writeSession session (set_LastTickAt s now) ;;
    SaveSession session ;;
    ret tt
  else ret tt.

(** ticker.go, [tick], lines 96-109: the quota check, then the schedule
    check. *)
Definition enforce (session child : ptr) : M unit :=
  c <- readChild child ;;
  if DailyQuotaMin c <=? UsedTodayMin c then deauthSession session "quota_exceeded"
  else if negb (String.eqb (ScheduleID c) "") then
    schedule <- GetSchedule (ScheduleID c) ;;
    match schedule with
    | Some sched =>
        clock <- time_Now ;;
        if negb (IsAllowedNow sched clock) then deauthSession session "schedule_ended"
        else ret tt
    | None => ret tt
    end
  else ret tt.

(** ticker.go, [tick]: the body of the loop over the sessions. *)
Definition tickSession (now : Time) (session : ptr) : M unit :=
  s <- readSession session ;;
  if negb (sess_IsActive s) then ret tt
  else
    found <- GetChild (ChildID s) ;;
    match found with
    | None => deauthSession session "child_deleted"
    | Some child =>
        accrue now session child (minutesSince now s) ;;
        enforce session child
    end.

(** ticker.go, [tick] *)
Definition tick : M unit :=
  now <- time_Now ;;
  checkDailyReset now ;;
  sessions <- ListSessions ;;
  forRange sessions (tickSession now).


(** auth.go, [CheckPassword]: bcrypt, from the environment. *)
Definition CheckPassword (password hash : string) : M bool :=
  e <- getEnv ;; ret (bcrypt_matches e password hash).

(** auth.go, [AuthenticateAdmin]; [inr] carries the error. *)
Definition AuthenticateAdmin (username password : string) : M (User + string) :=
  admin <- GetAdminByUsername username ;;
  match admin with
  | None => ret (inr "invalid credentials")
  | Some a =>
      ok <- CheckPassword password (user_PasswordHash a) ;;
      if negb ok then ret (inr "invalid credentials") else ret (inl a)
  end.

(** auth.go, [AuthenticateChild]; [inr] carries the error. *)
Definition AuthenticateChild (username password : string) : M (ptr + string) :=
  child <- GetChildByUsername username ;;
  match child with
  | None => ret (inr "user not found")
  | Some p =>
      c <- readChild p ;;
      ok <- CheckPassword password (PasswordHash c) ;;
      if negb ok then ret (inr "invalid credentials")
      else if negb (IsActive c) then ret (inr "account is disabled")
      else ret (inl p)
  end.

End Services.

(* ================================================================== *)
(** ** The sessions API ([internal/api/handlers/sessions.go]) *)
(* ================================================================== *)

Module SessionsApi.
Import Go Models Sys Storage Services.

(** sessions.go, [kick]: the administrator's disconnect, for a session the
    lookup by id has found. *)
Definition kick (session : ptr) : M unit :=
  s <- readSession session ;;
  Deauth (MAC s) ;;
  s <- readSession session ;;
  writeSession session (set_IsActive s false) ;;
  SaveSession session ;;
  ret tt.

(** sessions.go, [SessionResponse] *)
Record SessionResponse := mkSessionResponse {
  sr_ID : string;
  sr_ChildID : string;
  sr_ChildName : string;
  sr_MAC : string;
  sr_IP : string;
  sr_StartedAt : Time;
  sr_DurationMin : Z;
  sr_RemainingMin : Z;
  sr_IsActive : bool
}.

(** What the handlers of this file write. *)
Inductive SessionReply :=
| SessionError (status : Z) (message : string)
| SessionJSON (status : Z) (body : SessionResponse)
| SessionSuccess (status : Z).

(** sessions.go, [toSessionResponse] (lines 40-57) *)
Definition toSessionResponse (session : ptr) : M SessionResponse :=
  s <- readSession session ;;
  found <- GetChild (ChildID s) ;;
  remainingMin <-
    match found with
    | Some child => c <- readChild child ;; ret (RemainingMinutes c)
    | None => ret 0
    end ;;
  s <- readSession session ;;
  now <- time_Now ;;
  ret (mkSessionResponse (sess_ID s) (ChildID s) (ChildName s) (MAC s) (IP s) (StartedAt s)
         (DurationMinutes s now) remainingMin (sess_IsActive s)).

(** sessions.go, [extend] (lines 131-161); [minutes] is the decoded body,
    [None] when [ParseJSON] fails. *)
Definition extend (id : string) (minutes : option Z) : M SessionReply :=
  found <- GetSession id ;;
  match found with
  | None => ret (SessionError 404 "session not found")
  | Some session =>
      match minutes with
      | None => ret (SessionError 400 "invalid request body")
      | Some minutes =>
          if minutes <=? 0 then ret (SessionError 400 "minutes must be positive")
          else
            s <- readSession session ;;
            owner <- GetChild (ChildID s) ;;
            match owner with
            | None => ret (SessionError 404 "child not found")
            | Some child =>
                c <- readChild child ;;
                writeChild child (set_DailyQuotaMin c (int_add (DailyQuotaMin c) minutes)) ;;
                SaveChild child ;;
                body <- toSessionResponse session ;;
                ret (SessionJSON 200 body)
            end
      end
  end.

End SessionsApi.

(* ================================================================== *)
(** ** The children API ([internal/api/handlers/children.go]) *)
(* ================================================================== *)

Module ChildrenApi.
Import Go Models Sys Storage Services.

(** children.go, [ChildResponse] *)
Record ChildResponse := mkChildResponse {
  cr_ID : string;
  cr_Username : string;
  cr_Name : string;
  cr_DailyQuotaMin : Z;
  cr_UsedTodayMin : Z;
  cr_RemainingMin : Z;
  cr_FilterMode : string;
  cr_ScheduleID : string;
  cr_Devices : list Device;
  cr_IsActive : bool;
  cr_LastResetDate : string;
  cr_CreatedAt : Time;
  cr_UpdatedAt : Time
}.

(** children.go, [toChildResponse] (lines 55-71) *)
Definition toChildResponse (c : Child) : ChildResponse :=
  mkChildResponse (ID c) (Username c) (Name c) (DailyQuotaMin c) (UsedTodayMin c)
    (RemainingMinutes c) (ChildFilterMode c) (ScheduleID c) (Devices c) (IsActive c)
    (LastResetDate c) (CreatedAt c) (UpdatedAt c).

(** What the handlers of this file write. *)
Inductive ChildReply :=
| ChildError (status : Z) (message : string)
| ChildJSON (status : Z) (body : ChildResponse)
| ChildSuccess (status : Z).

(** The common end of the handlers: save, then answer with the child. *)
Definition saveAndAnswer (child : ptr) (failure : string) : M ChildReply :=
  err <- SaveChild child ;;
  if err then ret (ChildError 500 failure)
  else
    c <- readChild child ;;
    ret (ChildJSON 200 (toChildResponse c)).

(** children.go, [get] (lines 125-132) *)
Definition get (id : string) : M ChildReply :=
  found <- GetChild id ;;
  match found with
  | None => ret (ChildError 404 "child not found")
  | Some child =>
      c <- readChild child ;;
      ret (ChildJSON 200 (toChildResponse c))
  end.

(** children.go, [delete] (lines 244-257) *)
Definition delete (id : string) : M ChildReply :=
  found <- GetChild id ;;
  match found with
  | None => ret (ChildError 404 "child not found")
  | Some _ =>
      err <- DeleteChild id ;;
      if err then ret (ChildError 500 "failed to delete child")
      else ret (ChildSuccess 200)
  end.

(** children.go, [resetQuota] (lines 259-276) *)
Definition resetQuota (id : string) : M ChildReply :=
  found <- GetChild id ;;
  match found with
  | None => ret (ChildError 404 "child not found")
  | Some child =>
      c <- readChild child ;;
      writeChild child (set_UsedTodayMin c 0) ;;
      today <- time_Now ;;
      c <- readChild child ;;
      writeChild child (set_LastResetDate c (Format_date today)) ;;
      now <- time_Now ;;
      c <- readChild child ;;
      writeChild child (set_UpdatedAt c now) ;;
      saveAndAnswer child "failed to reset quota"
  end.

(** children.go, [adjustQuota], lines 298-308: the new usage. *)
Definition adjusted (c : Child) (minutes : Z) : Z :=
  let used := int_sub (UsedTodayMin c) minutes in
  let used := if used <? 0 then 0 else used in
  if int_add (DailyQuotaMin c) 480 <? used then int_add (DailyQuotaMin c) 480 else used.

(** children.go, [adjustQuota] (lines 283-318); [minutes] is the decoded
    body, [None] when [ParseJSON] fails. *)
Definition adjustQuota (id : string) (minutes : option Z) : M ChildReply :=
  found <- GetChild id ;;
  match found with
  | None => ret (ChildError 404 "child not found")
  | Some child =>
      match minutes with
      | None => ret (ChildError 400 "invalid request body")
      | Some minutes =>
          c <- readChild child ;;
          writeChild child (set_UsedTodayMin c (adjusted c minutes)) ;;
          now <- time_Now ;;
          c <- readChild child ;;
          writeChild child (set_UpdatedAt c now) ;;
          saveAndAnswer child "failed to adjust quota"
      end
  end.

(** children.go, [addDevice] (lines 326-353); [body] is the decoded MAC
    and name. *)
Definition addDevice (id : string) (body : option (string * string)) : M ChildReply :=
  found <- GetChild id ;;
  match found with
  | None => ret (ChildError 404 "child not found")
  | Some child =>
      match body with
      | None => ret (ChildError 400 "invalid request body")
      | Some (mac, name) =>
          if String.eqb mac "" then ret (ChildError 400 "mac is required")
          else
            c <- readChild child ;;
            (if HasDevice c mac then ret tt
             else seen <- time_Now ;; writeChild child (AddDevice c mac name seen)) ;;
            now <- time_Now ;;
            c <- readChild child ;;
            writeChild child (set_UpdatedAt c now) ;;
            saveAndAnswer child "failed to add device"
      end
  end.

(** children.go, [removeDevice], lines 369-375: the devices kept. *)
Fixpoint withoutDevice (ds : list Device) (mac : string) : list Device :=
  match ds with
  | [] => []
  | d :: rest =>
      if negb (String.eqb (dev_MAC d) mac) then d :: withoutDevice rest mac
      else withoutDevice rest mac
  end.

(** children.go, [removeDevice] (lines 355-384); [mac] is the query
    parameter. *)
Definition removeDevice (id : string) (mac : string) : M ChildReply :=
  found <- GetChild id ;;
  match found with
  | None => ret (ChildError 404 "child not found")
  | Some child =>
      if String.eqb mac "" then ret (ChildError 400 "mac query parameter is required")
      else
        c <- readChild child ;;
        writeChild child (set_Devices c (withoutDevice (Devices c) mac)) ;;
        now <- time_Now ;;
        c <- readChild child ;;
        writeChild child (set_UpdatedAt c now) ;;
        saveAndAnswer child "failed to remove device"
  end.

End ChildrenApi.

(* ================================================================== *)
(** ** HTTP requests and responses, as the handlers see them *)
(* ================================================================== *)

Module Http.
Import Go.

(** [AuthRequest] (both revisions of the handler declare the same struct). *)
Record AuthRequest := mkAuthRequest {
  req_Username : string;
  req_Password : string;
  req_HID : string;
  req_MAC : string;
  req_IP : string;
  req_AuthDir : string;
  req_OriginURL : string
}.

(** The parts of [*http.Request] the handlers read: the method, the
    Content-Type header, the [fas] query parameter ([""] when absent), the
    body as [ParseJSON] decodes it ([None]: a decoding error), the form
    values, and the host of [RemoteAddr]. *)
Record Request := mkRequest {
  Method : string;
  ContentType : string;
  query_fas : string;
  json_body : option AuthRequest;
  form_values : AuthRequest;
  RemoteHost : string
}.

(** What a handler writes: [Error(w, status, message)], [http.Redirect],
    [JSON(w, status, fields)], or the rendered success page. *)
Inductive Response :=
| RespError (status : Z) (message : string)
| RespRedirect (url : string) (status : Z)
| RespJSON (status : Z) (fields : list (string * string))
| RespSuccessPage (name : string) (remaining : Z).

Definition StatusOK : Z := 200.
Definition StatusFound : Z := 302.
Definition StatusBadRequest : Z := 400.
Definition StatusUnauthorized : Z := 401.
Definition StatusForbidden : Z := 403.
Definition StatusMethodNotAllowed : Z := 405.

(** [FASData] (both revisions). *)
Record FASData := mkFASData {
  HID : string;
  ClientIP : string;
  ClientMAC : string;
  GatewayName : string;
  GatewayHash : string;
  AuthDir : string;
  OriginURL : string
}.

Definition emptyFAS : FASData := mkFASData "" "" "" "" "" "" "".

(** The [switch key] of [parseFASData] (both revisions). *)
Definition assignField (fas : FASData) (key value : string) : FASData :=
  if String.eqb key "hid" then
    mkFASData value (ClientIP fas) (ClientMAC fas) (GatewayName fas) (GatewayHash fas) (AuthDir fas) (OriginURL fas)
  else if String.eqb key "clientip" then
    mkFASData (HID fas) value (ClientMAC fas) (GatewayName fas) (GatewayHash fas) (AuthDir fas) (OriginURL fas)
  else if String.eqb key "clientmac" then
    mkFASData (HID fas) (ClientIP fas) value (GatewayName fas) (GatewayHash fas) (AuthDir fas) (OriginURL fas)
  else if String.eqb key "gatewayname" then
    mkFASData (HID fas) (ClientIP fas) (ClientMAC fas) value (GatewayHash fas) (AuthDir fas) (OriginURL fas)
  else if String.eqb key "gatewayhash" then
    mkFASData (HID fas) (ClientIP fas) (ClientMAC fas) (GatewayName fas) value (AuthDir fas) (OriginURL fas)
  else if String.eqb key "authdir" then
    mkFASData (HID fas) (ClientIP fas) (ClientMAC fas) (GatewayName fas) (GatewayHash fas) value (OriginURL fas)
  else if String.eqb key "originurl" then
    mkFASData (HID fas) (ClientIP fas) (ClientMAC fas) (GatewayName fas) (GatewayHash fas) (AuthDir fas) value
  else fas.

(** The error redirect both revisions build with [fmt.Sprintf]. *)
Definition errorURL (req : AuthRequest) (message : string) : string :=
  "/portal?hid=" ++ QueryEscape (req_HID req) ++ "&mac=" ++ QueryEscape (req_MAC req)
  ++ "&ip=" ++ QueryEscape (req_IP req) ++ "&authdir=" ++ QueryEscape (req_AuthDir req)
  ++ "&originurl=" ++ QueryEscape (req_OriginURL req) ++ "&error=" ++ QueryEscape message.

End Http.

(* ================================================================== *)
(** ** The captive-portal handler, first revision ([src/unnamed/part_002]) *)
(* ================================================================== *)

Module Fas.
Import Go Models Sys Storage Services Http.

(** part_002, [parseFASData] (lines 85-114) *)
Fixpoint parsePairs (pairs : list string) (fas : FASData) : FASData :=
  match pairs with
  | [] => fas
  | kv :: rest =>
      match SplitN2 kv "=" with
      | [k; v] => parsePairs rest (assignField fas (TrimSpace k) (TrimSpace v))
      | _ => parsePairs rest fas
      end
  end.

Definition parseFASData (data : string) : FASData :=
  parsePairs (Split data ", ") emptyFAS.

Definition portalURL (fasData : FASData) : string :=
  "/portal?hid=" ++ QueryEscape (HID fasData) ++ "&mac=" ++ QueryEscape (ClientMAC fasData)
  ++ "&ip=" ++ QueryEscape (ClientIP fasData)
  ++ "&gatewayname=" ++ QueryEscape (GatewayName fasData)
  ++ "&authdir=" ++ QueryEscape (AuthDir fasData)
  ++ "&originurl=" ++ QueryEscape (OriginURL fasData).

(** part_002, [HandleFAS] (lines 53-82) *)
Definition HandleFAS (r : Request) : Response :=
  let fasParam := query_fas r in
  if String.eqb fasParam "" then RespError StatusBadRequest "missing fas parameter"
  else
    match StdEncoding_DecodeString fasParam with
    | None => RespError StatusBadRequest "invalid fas parameter"
    | Some decoded =>
        let fasData := parseFASData decoded in
        RespRedirect (portalURL fasData) StatusFound
    end.


(** The new object of [&models.Session{...}]: allocated, then filled. *)
Definition newSession (s : Session) : M ptr :=
  st <- getStore ;;
  let p := freshPtr (sessions st) in
  writeSession p s ;;
  ret p.

(** part_002, [HandleAuth], lines 235-239: device auto-discovery. *)
Definition discoverDevice (child : ptr) (mac name : string) : M unit :=
  c <- readChild child ;;
  if negb (HasDevice c mac) then
    seen <- time_Now ;;
    writeChild child (AddDevice c mac name seen) ;;
    SaveChild child ;;
    ret tt
  else ret tt.

(** part_002, [HandleAuth], lines 218-233: the schedule gate;
    [true] when the login is refused. *)
Definition scheduleForbids (child : ptr) : M bool :=
  c <- readChild child ;;
  if negb (String.eqb (ScheduleID c) "") then
    schedule <- GetSchedule (ScheduleID c) ;;
    match schedule with
    | Some sched => clock <- time_Now ;; ret (negb (IsAllowedNow sched clock))
    | None => ret false
    end
  else ret false.

(** part_002, [HandleAuth], lines 253-266: the authorize call, for the
    remaining minutes as the child's record has them now, and the answer. *)
Definition authorize (req : AuthRequest) (child : ptr) : M Response :=
  c <- readChild child ;;
  let remainingMin := RemainingMinutes c in
  err <- Auth (req_MAC req) remainingMin 0 0 ;;
  (if err then log_Printf "ndsctl auth error" else ret tt) ;;
  if negb (String.eqb (req_OriginURL req) "")
     && negb (String.eqb (req_OriginURL req) "null")
  then ret (RespRedirect (req_OriginURL req) StatusFound)
  else ret (RespSuccessPage (Name c) remainingMin).

(** part_002, [HandleAuth], lines 241-251: the session record. *)
Definition openSession (req : AuthRequest) (child : ptr) : M unit :=
  id <- GenerateID ;;
  started <- time_Now ;;
  c <- readChild child ;;
  session <- newSession (mkSession id (ID c) (Name c) (req_MAC req) (req_IP req)
                           started zeroTime true "") ;;
  SaveSession session ;;
  ret tt.

(** part_002, [HandleAuth], lines 241-266: the session record, then the
    authorize call.

    The handler runs in the goroutine of its request, and [child] is the
    object the store holds: the reconciliation loop, in a goroutine of its
    own, updates the same object ([child.UsedTodayMin += minutesToAdd],
    ticker.go line 88).  The handler holds no lock between its calls of the
    store, so other goroutines may run between any two of its statements.
    One such window matters to what the handler does: it has tested
    [RemainingMinutes()] before (line 205) and reads it again for the call
    (line 254).  [others] is what the other goroutines do in that window,
    after the session has been saved. *)
Definition grantAccessAmid (others : M unit) (req : AuthRequest) (child : ptr)
  : M Response :=
  openSession req child ;;
  others ;;
  authorize req child.

(** The same with no other goroutine at work. *)
Definition grantAccess (req : AuthRequest) (child : ptr) : M Response :=
  grantAccessAmid (ret tt) req child.

(** part_002, [HandleAuth] (lines 159-267) *)
Definition HandleAuthAmid (others : M unit) (r : Request) : M Response :=
  if negb (String.eqb (Method r) "POST") then
    ret (RespError StatusMethodNotAllowed "method not allowed")
  else
    match (if Contains (ContentType r) "application/json" then json_body r
           else Some (form_values r)) with
    | None => ret (RespError StatusBadRequest "invalid request")
    | Some req =>
        auth <- AuthenticateChild (req_Username req) (req_Password req) ;;
        match auth with
        | inr _ => ret (RespRedirect (errorURL req "Invalid username or password") StatusFound)
        | inl child =>
            c <- readChild child ;;
            if RemainingMinutes c <=? 0 then
              ret (RespRedirect (errorURL req "No time remaining for today") StatusFound)
            else
              forbidden <- scheduleForbids child ;;
              if forbidden then
                ret (RespRedirect (errorURL req "Internet access not allowed at this time")
                       StatusFound)
              else
                discoverDevice child (req_MAC req) "Auto-discovered device" ;;
                grantAccessAmid others req child
        end
    end.

(** The handler with no other goroutine at work while it runs. *)
Definition HandleAuth (r : Request) : M Response := HandleAuthAmid (ret tt) r.

End Fas.

(* ================================================================== *)
(** ** The captive-portal handler, later revision
       ([src/internal/api/middleware/auth.go], third unit, lines 666-1158) *)
(* ================================================================== *)

Module FasRevised.
Import Go Models Sys Storage Services Http.

(** The fields of [config.Config] the handler reads. *)
Record Config := mkConfig {
  GatewayIP : string;
  ServerPort : Z;
  JWTExpiryHours : Z
}.

(** [getMACFromIP] (lines 724-738): the first line of the ARP table whose
    first field is [ip] gives its fourth field. *)
Fixpoint arpLookup (lines : list string) (ip : string) : string :=
  match lines with
  | [] => ""
  | line :: rest =>
      match Fields line with
      | f0 :: _ :: _ :: f3 :: _ => if String.eqb f0 ip then f3 else arpLookup rest ip
      | _ => arpLookup rest ip
      end
  end.

Definition getMACFromIP (ip : string) : M string :=
  e <- getEnv ;;
  match arp_table e with
  | None => ret ""
  | Some data => ret (arpLookup (Split data (String (ascii_of_nat 10) "")) ip)
  end.

(** [normalizeMAC] (lines 1119-1129) *)
Definition normalizeMAC (caseTable : Z -> Z) (mac : string) : string :=
  let mac := ToLower caseTable
               (ReplaceAll (ReplaceAll (ReplaceAll mac ":" "") "-" "") "." "") in
  if (String.length mac =? 12)%nat then
    Join [substring 0 2 mac; substring 2 2 mac; substring 4 2 mac;
          substring 6 2 mac; substring 8 2 mac; substring 10 2 mac] ":"
  else mac.

(** [safeURLUnescape] (lines 858-863) *)
Definition safeURLUnescape (s : string) : string :=
  match QueryUnescape s with
  | Some unescaped => unescaped
  | None => s
  end.

Definition printable (c : ascii) : bool :=
  ((32 <=? nat_of_ascii c) && (nat_of_ascii c <=? 126))%nat.

(** [sanitizeHeaderValue] (lines 867-874) *)
Definition sanitizeHeaderValue (s : string) : string := filter_string printable s.

(** [parseFASData] (lines 877-918) *)
Fixpoint parsePairs (caseTable : Z -> Z) (pairs : list string) (fas : FASData) : FASData :=
  match pairs with
  | [] => fas
  | kv :: rest =>
      let kv := TrimSpace kv in
      if String.eqb kv "" then parsePairs caseTable rest fas
      else
        match SplitN2 kv "=" with
        | [k; v] =>
            let key := TrimSpace (ToLower caseTable k) in
            let value := TrimSpace v in
            if String.eqb value "" || String.eqb value "(null)"
            then parsePairs caseTable rest fas
            else parsePairs caseTable rest (assignField fas key value)
        | _ => parsePairs caseTable rest fas
        end
  end.

Definition parseFASData (caseTable : Z -> Z) (data : string) : FASData :=
  parsePairs caseTable (Split data ", ") emptyFAS.

(** [HandleFAS], lines 752-781: the four decoding attempts, in order. *)
Definition decodeFAS (fasParam : string) : option string :=
  match StdEncoding_DecodeString fasParam with
  | Some decodedBytes => Some decodedBytes
  | None =>
      let m := (String.length fasParam mod 4)%nat in
      let padded := if (m =? 0)%nat then fasParam else fasParam ++ Repeat "=" (4 - m) in
      match StdEncoding_DecodeString padded with
      | Some decodedBytes => Some decodedBytes
      | None =>
          match URLEncoding_DecodeString fasParam with
          | Some decodedBytes => Some decodedBytes
          | None => RawStdEncoding_DecodeString fasParam
          end
      end
  end.

(** [HandleFAS], lines 797-799: the loop that deletes ["(null)"]; every
    pass shortens the text, so [fuel] above its length is never used up. *)
Fixpoint stripNull (fuel : nat) (rawString : string) : string :=
  match fuel with
  | O => rawString
  | S k =>
      if Contains rawString "(null)"
      then stripNull k (ReplaceAll rawString "(null)" "")
      else rawString
  end.

(** [HandleFAS], lines 783-800: cleaning of the decoded text. *)
Definition cleanFAS (decoded : string) : string :=
  let rawString := filter_string printable decoded in
  let rawString := TrimRight rawString " ," in
  let rawString := stripNull (S (String.length rawString)) rawString in
  TrimRight rawString " ,".

(** [HandleFAS], lines 807-831: ARP fallback, MAC normalisation,
    percent-decoding and sanitising of the parsed fields. *)
Definition resolveFAS (r : Request) (fasData : FASData) : M FASData :=
  fasData <-
    (if String.eqb (ClientMAC fasData) "" then
       let clientIP := RemoteHost r in
       let ip := if String.eqb (ClientIP fasData) "" then clientIP else ClientIP fasData in
       mac <- getMACFromIP ip ;;
       log_Printf "FAS: Auto-discovered MAC via ARP" ;;
       ret (mkFASData (HID fasData) ip mac (GatewayName fasData) (GatewayHash fasData)
              (AuthDir fasData) (OriginURL fasData))
     else ret fasData) ;;
  e <- getEnv ;;
  let mac := normalizeMAC (lower_rune e) (ClientMAC fasData) in
  let gatewayName := safeURLUnescape (GatewayName fasData) in
  let originURL := safeURLUnescape (OriginURL fasData) in
  let authDir := safeURLUnescape (AuthDir fasData) in
  ret (mkFASData (sanitizeHeaderValue (HID fasData)) (sanitizeHeaderValue (ClientIP fasData))
         (sanitizeHeaderValue mac) (sanitizeHeaderValue gatewayName) (GatewayHash fasData)
         (sanitizeHeaderValue authDir) (sanitizeHeaderValue originURL)).

(** [HandleFAS], lines 836-849: [url.Values.Encode] lists the keys in
    sorted order. *)
Definition portalURL (cfg : Config) (fasData : FASData) : string :=
  "http://" ++ GatewayIP cfg ++ ":" ++ itoa (ServerPort cfg) ++ "/portal?"
  ++ "authdir=" ++ QueryEscape (AuthDir fasData)
  ++ "&gatewayname=" ++ QueryEscape (GatewayName fasData)
  ++ "&hid=" ++ QueryEscape (HID fasData)
  ++ "&ip=" ++ QueryEscape (ClientIP fasData)
  ++ "&mac=" ++ QueryEscape (ClientMAC fasData)
  ++ "&originurl=" ++ QueryEscape (OriginURL fasData).

(** The decoded, cleaned, parsed and resolved parameters of a [fas] value;
    [None] when the value is absent or defeats every decoder. *)
Definition fasParameters (r : Request) : M (option FASData) :=
  let fasParam := query_fas r in
  if String.eqb fasParam "" then
    log_Printf "FAS: No 'fas' param found. Redirecting to portal." ;;
    ret None
  else
    log_Printf "FAS: Raw fas param" ;;
    let fasParam := ReplaceAll fasParam " " "+" in
    match decodeFAS fasParam with
    | None =>
        log_Printf "FAS: All base64 decode attempts failed" ;;
        ret None
    | Some decodedBytes =>
        let rawString := cleanFAS decodedBytes in
        log_Printf "FAS Decoded Data (Cleaned)" ;;
        e <- getEnv ;;
        fasData <- resolveFAS r (parseFASData (lower_rune e) rawString) ;;
        log_Printf "FAS Parsed" ;;
        ret (Some fasData)
    end.

(** [HandleFAS] (lines 741-855) *)
Definition HandleFAS (cfg : Config) (r : Request) : M Response :=
  parameters <- fasParameters r ;;
  match parameters with
  | None => ret (RespRedirect "/portal" StatusFound)
  | Some fasData =>
      log_Printf "FAS Redirect URL" ;;
      ret (RespRedirect (portalURL cfg fasData) StatusFound)
  end.

(** [middleware.AuthMiddleware.GenerateToken]: the HMAC-signed token, from
    the environment; its error result is always nil. *)
Definition GenerateToken (userID username : string) (isAdmin : bool) (expiryHours : Z)
  : M string :=
  now <- time_Now ;;
  e <- getEnv ;;
  ret (hmac_token e userID username isAdmin expiryHours now).

(** [HandleAuth], lines 966-981: the MAC of the submission. *)
Definition resolveMAC (r : Request) (req : AuthRequest) : M string :=
  mac <-
    (if String.eqb (req_MAC req) "" then
       let clientIP := if String.eqb (req_IP req) "" then RemoteHost r else req_IP req in
       mac <- getMACFromIP clientIP ;;
       (if negb (String.eqb mac "") then log_Printf "Auth: Auto-discovered MAC via ARP"
        else ret tt) ;;
       ret mac
     else ret (req_MAC req)) ;;
  if negb (String.eqb mac "") then
    e <- getEnv ;; ret (normalizeMAC (lower_rune e) mac)
  else ret mac.

(** [HandleAuth], lines 986-1022: the administrator branch. *)
Definition adminLogin (cfg : Config) (isJSON : bool) (mac : string) (admin : User)
  : M Response :=
  token <- GenerateToken (user_ID admin) (user_Username admin) true (JWTExpiryHours cfg) ;;
  (if negb (String.eqb mac "") then
     err <- Deauth mac ;;
     (if err then log_Printf "Pre-deauth failed" else ret tt) ;;
     time_Sleep 100 ;;
     err <- Auth mac 0 0 0 ;;
     (if err then log_Printf "ndsctl auth failed for admin"
      else log_Printf "Admin authenticated with unlimited access")
   else log_Printf "Admin logged in without MAC (dashboard only)") ;;
  if isJSON then
    ret (RespJSON StatusOK
           [("type", "admin"); ("token", token);
            ("expires_in", itoa (JWTExpiryHours cfg * 3600));
            ("force_password_change", if ForcePasswordChange admin then "true" else "false")])
  else
    ret (RespRedirect ("/portal?auth_type=admin&token=" ++ QueryEscape token
                       ++ "&force_password_change="
                       ++ (if ForcePasswordChange admin then "true" else "false"))
           StatusFound).

(** [HandleAuth]: a refusal, as JSON or as a redirect to the portal. *)
Definition refuse (isJSON : bool) (req : AuthRequest) (status : Z) (message : string)
  : Response :=
  if isJSON then RespError status message
  else RespRedirect (errorURL req message) StatusFound.


(** [HandleAuth], lines 1070-1074: device auto-discovery. *)
Definition discoverDevice (child : ptr) (mac : string) : M unit :=
  c <- readChild child ;;
  if negb (String.eqb mac "") && negb (HasDevice c mac) then
    let deviceName := "Device " ++ itoa (Z.of_nat (List.length (Devices c)) + 1) in
    seen <- time_Now ;;
    writeChild child (AddDevice c mac deviceName seen) ;;
    SaveChild child ;;
    ret tt
  else ret tt.

(** [HandleAuth], lines 1087-1115: the authorize call, for the remaining
    minutes as the child's record has them now, and the answer. *)
Definition authorizeChild (cfg : Config) (isJSON : bool) (req : AuthRequest) (child : ptr)
  : M Response :=
  c <- readChild child ;;
  let remainingMin := RemainingMinutes c in
  (if negb (String.eqb (req_MAC req) "") then
     Deauth (req_MAC req) ;;
     time_Sleep 50 ;;
     err <- Auth (req_MAC req) remainingMin 0 0 ;;
     (if err then log_Printf "ndsctl auth failed for child"
      else log_Printf "Child authenticated")
   else ret tt) ;;
  if isJSON then
    ret (RespJSON StatusOK
           [("type", "child"); ("child_name", Name c);
            ("remaining_minutes", itoa remainingMin);
            ("redirect_url", req_OriginURL req)])
  else
    let redirectTarget :=
      if String.eqb (req_OriginURL req) "" || String.eqb (req_OriginURL req) "null"
      then "http://" ++ GatewayIP cfg ++ ":8080/portal?success=1"
      else req_OriginURL req in
    ret (RespRedirect (redirectTarget ++ "&child_name=" ++ QueryEscape (Name c)
                       ++ "&remaining=" ++ itoa remainingMin) StatusFound).

(** [HandleAuth], lines 1025-1115: the child branch.  As in the first
    revision the child is the object the store shares with the
    reconciliation loop, tested at line 1042 and read again at line 1087;
    [others] is what the other goroutines do in between, after the session
    (lines 1076-1085, the code of the first revision) has been saved. *)
Definition childLoginAmid (cfg : Config) (others : M unit) (isJSON : bool)
  (req : AuthRequest) : M Response :=
  auth <- AuthenticateChild (req_Username req) (req_Password req) ;;
  match auth with
  | inr _ =>
      log_Printf "Failed login attempt" ;;
      ret (refuse isJSON req StatusUnauthorized "Invalid username or password")
  | inl child =>
      log_Printf "Child attempting login" ;;
      c <- readChild child ;;
      if RemainingMinutes c <=? 0 then
        log_Printf "Child denied: no time remaining" ;;
        ret (refuse isJSON req StatusForbidden "No time remaining for today")
      else
        forbidden <- Fas.scheduleForbids child ;;
        if forbidden then
          ret (refuse isJSON req StatusForbidden "Internet access not allowed at this time")
        else
          discoverDevice child (req_MAC req) ;;
          Fas.openSession req child ;;
          others ;;
          authorizeChild cfg isJSON req child
  end.

(** [HandleAuth] (lines 932-1116) *)
Definition HandleAuthAmid (cfg : Config) (others : M unit) (r : Request) : M Response :=
  if negb (String.eqb (Method r) "POST") then
    if String.eqb (Method r) "GET" then ret (RespRedirect "/portal" StatusFound)
    else ret (RespError StatusMethodNotAllowed "method not allowed")
  else
    let isJSON := Contains (ContentType r) "application/json" in
    match (if isJSON then json_body r else Some (form_values r)) with
    | None => ret (RespError StatusBadRequest "invalid request")
    | Some req =>
        mac <- resolveMAC r req ;;
        let req := mkAuthRequest (req_Username req) (req_Password req) (req_HID req) mac
                     (req_IP req) (req_AuthDir req) (req_OriginURL req) in
        admin <- AuthenticateAdmin (req_Username req) (req_Password req) ;;
        match admin with
        | inl a => adminLogin cfg isJSON mac a
        | inr _ => childLoginAmid cfg others isJSON req
        end
    end.

(** The handler with no other goroutine at work while it runs. *)
Definition HandleAuth (cfg : Config) (r : Request) : M Response :=
  HandleAuthAmid cfg (ret tt) r.

End FasRevised.

(* ================================================================== *)
(** ** The status endpoint of the portal
       ([src/unnamed/part_002] lines 270-296; the later revision,
       [src/internal/api/middleware/auth.go] lines 1132-1157, is the same) *)
(* ================================================================== *)

Module PortalStatus.
Import Go Models Sys Storage Services Http.

(** The JSON object of the answer. *)
Record StatusBody := mkStatusBody {
  child_name : string;
  remaining_minutes : Z;
  used_today : Z;
  daily_quota : Z;
  session_start : Time
}.

Inductive StatusReply :=
| StatusError (status : Z) (message : string)
| StatusJSON (status : Z) (body : StatusBody).

(** [HandleStatus]; [mac] is the query parameter. *)
Definition HandleStatus (mac : string) : M StatusReply :=
  if String.eqb mac "" then ret (StatusError 400 "missing mac parameter")
  else
    found <- GetSessionByMAC mac ;;
    match found with
    | None => ret (StatusError 404 "no active session")
    | Some session =>
        s <- readSession session ;;
        if negb (sess_IsActive s) then ret (StatusError 404 "no active session")
        else
          owner <- GetChild (ChildID s) ;;
          match owner with
          | None => ret (StatusError 404 "child not found")
          | Some child =>
              c <- readChild child ;;
              s <- readSession session ;;
              ret (StatusJSON 200
                     (mkStatusBody (Name c) (RemainingMinutes c) (UsedTodayMin c)
                        (DailyQuotaMin c) (StartedAt s)))
          end
    end.

End PortalStatus.

(* ================================================================== *)
(** ** A household used in the examples below *)
(* ================================================================== *)

Module Household.
Import Go Models Sys Storage Services Http.

(** Monday 2026-01-05, 10:30 local time, [n] seconds after a base instant. *)
Definition base : Z := 1000000 * Minute.

Definition at_second (n : Z) : Time := mkTime (base + n * 1000000000) 2026 1 5 10 30 1.

(** An environment in which nothing fails: the clock advances one second
    per reading, ids are "id0", "id1", ..., a password matches the hash
    "hash:" followed by it; of the case tables it has the two entries that
    lead into ASCII (the Kelvin sign, U+212A, to [k]; the dotted capital I,
    U+0130, to [i]). *)
Definition calm : Env :=
  mkEnv (fun n => at_second (Z.of_nat n))
        (fun _ => false) (fun _ => false)
        (fun n => "id" ++ itoa (Z.of_nat n))
        (fun password hash => String.eqb hash ("hash:" ++ password))
        (fun userID _ _ _ _ => "token-" ++ userID)
        None
        (fun r => if r =? 8490 then 107 else if r =? 304 then 105 else r).


Definition kid (quota used : Z) : Child :=
  mkChild "c1" "kid" "hash:secret" "Kid" quota used FilterModeNormal "" []
    "2026-01-05" true zeroTime zeroTime.

Definition parent : User :=
  mkUser "a1" "admin" "hash:parenta123" "Administrator" "super" false zeroTime zeroTime.

Definition phone : string := "aa:bb:cc:dd:ee:ff".

Definition idle : Session :=
  mkSession "" "" "" "" "" zeroTime zeroTime false "".

(** A session of the kid on [mac], started at second [started], never
    ticked. *)
Definition online (id mac : string) (started : Z) : Session :=
  mkSession id "c1" "Kid" mac "10.0.0.5" (at_second started) zeroTime true "".

(** A session of the kid that began [ns] nanoseconds before the base
    instant, and has never been ticked. *)
Definition long_running (id mac : string) (ns : Z) : Session :=
  mkSession id "c1" "Kid" mac "10.0.0.5" (mkTime (base - ns) 2025 7 7 9 35 1) zeroTime true "".

(** One child with 120 minutes a day, nobody logged in. *)
Definition quiet_home (e : Env) : World :=
  mkWorld (mkStore (fun _ => kid 120 0) (fun _ => idle) [parent] [0%nat] [] [] [] [])
          [] 0 e.

(** The kid's login from the phone, as a form post. *)
Definition login (username password : string) : Request :=
  mkRequest "POST" "application/x-www-form-urlencoded" "" None
    (mkAuthRequest username password "" phone "10.0.0.5" "" "") "10.0.0.5".

(** One child with a quota of 10 minutes, and the sessions [table] (by
    address), all in the store. *)
Definition home_with (e : Env) (table : list Session) : World :=
  mkWorld (mkStore (fun _ => kid 10 0) (fun p => nth p table idle) [parent] [0%nat]
             (seq 0 (List.length table)) [] [] [])
          [] 0 e.

Definition tablet : string := "11:22:33:44:55:66".

(** The kid has used 9 of 10 minutes and is online on the tablet, since 90
    seconds before the base instant. *)
Definition nearly_spent : World :=
  mkWorld (mkStore (fun _ => kid 10 9) (fun p => nth p [online "s1" tablet (-90)] idle)
             [parent] [0%nat] [0%nat] [] [] [])
          [] 0 calm.

(** The gateway's configuration, with the defaults of [config.Load]. *)
Definition gateway : FasRevised.Config := FasRevised.mkConfig "192.168.1.1" 8080 24.

End Household.

(* ================================================================== *)
(** ** Notions used in the statements *)
(* ================================================================== *)

Import Go Models Sys Storage Services SessionsApi Http.

(** The order of the specification: the first differing byte decides, a
    proper prefix comes first. *)
Inductive lex_le : string -> string -> Prop :=
| lex_le_empty : forall b, lex_le EmptyString b
| lex_le_less : forall x y a b,
    (nat_of_ascii x < nat_of_ascii y)%nat -> lex_le (String x a) (String y b)
| lex_le_same : forall x a b, lex_le a b -> lex_le (String x a) (String x b).

#[local] Hint Constructors lex_le : core.

(** Strictly below: below and different. *)
Definition lex_lt (a b : string) : Prop := lex_le a b /\ a <> b.

(** The schedule of the specification's example: Monday, 09:00 to 17:00. *)
Definition mondayOffice : Schedule :=
  mkSchedule "s1" "office" [mkTimeBlock 1 "09:00" "17:00" FilterModeNormal] false
    zeroTime zeroTime.

(** The instant accrual counts from: the last tick, or the start of a
    session that has never been ticked. *)
Definition referenceInstant (s : Session) : Time :=
  if IsZero (LastTickAt s) then StartedAt s else LastTickAt s.

(** The child a session resolves to: what [GetChild(session.ChildID)] finds. *)
Definition owner (st : Store) (p : ptr) : option ptr :=
  firstWhere (childAt st) (fun c => String.eqb (ID c) (ChildID (sessionAt st p)))
    (children st).

(** The part of a child's record the quota depends on, with its identity. *)
Definition quotaView (c : Child) : string * string * Z * Z :=
  (ID c, Name c, DailyQuotaMin c, UsedTodayMin c).

(** The submission as the handler decodes it: the JSON body or the form. *)
Definition submitted (r : Request) : option AuthRequest :=
  if Contains (ContentType r) "application/json" then json_body r
  else Some (form_values r).

(** The active sessions the store holds for a MAC. *)
Definition activeFor (mac : string) (st : Store) : list ptr :=
  filter (fun p => String.eqb (MAC (sessionAt st p)) mac && sess_IsActive (sessionAt st p))
    (sessions st).

(** The payload of the specification's round-trip example. *)
Definition examplePayload : string :=
  "clientmac=AA:BB:CC:DD:EE:FF, clientip=10.0.0.5, originurl=http://example.com/(null)".

(** A GET of the entry endpoint with [fas] as its query parameter. *)
Definition entryRequest (fas : string) : Request :=
  mkRequest "GET" "" fas None (mkAuthRequest "" "" "" "" "" "" "") "10.0.0.5".

(** What the quota and schedule checks do: nothing, with the child under
    its quota, or the session goes inactive after a deauthorize call. *)
Definition enforce_post (session child : ptr) (w w' : World) : Prop :=
  let st := store w in
  let st' := store w' in
  schedules st' = schedules st
  /\ children st' = children st
  /\ childAt st' = childAt st
  /\ (forall q, In q (sessions st') -> q = session \/ In q (sessions st))
  /\ exists new, trace w' = (new ++ trace w)%list
     /\ (sessionAt st' = sessionAt st
         /\ UsedTodayMin (childAt st child) < DailyQuotaMin (childAt st child)
         \/ sessionAt st' = upd (sessionAt st) session
                              (set_IsActive (sessionAt st session) false)
            /\ In (NdsDeauth (MAC (sessionAt st session))) new).

(** What one pass of the loop body over [p] guarantees. *)
Definition step_post (p : ptr) (w w1 : World) : Prop :=
  let st := store w in
  let st1 := store w1 in
  children st1 = children st
  /\ (forall q, ID (childAt st1 q) = ID (childAt st q)
                /\ DailyQuotaMin (childAt st1 q) = DailyQuotaMin (childAt st q))
  /\ (forall c, (sess_IsActive (sessionAt st p) = true -> owner st p <> Some c) ->
                childAt st1 c = childAt st c)
  /\ (forall q, ChildID (sessionAt st1 q) = ChildID (sessionAt st q)
                /\ MAC (sessionAt st1 q) = MAC (sessionAt st q)
                /\ (sess_IsActive (sessionAt st1 q) = true ->
                    sess_IsActive (sessionAt st q) = true))
  /\ (forall q, q <> p -> sessionAt st1 q = sessionAt st q)
  /\ (forall q, In q (sessions st1) -> q = p \/ In q (sessions st))
  /\ (sess_IsActive (sessionAt st1 p) = true ->
      exists c, owner st p = Some c
                /\ UsedTodayMin (childAt st1 c) < DailyQuotaMin (childAt st1 c))
  /\ exists new, trace w1 = (new ++ trace w)%list
     /\ (sess_IsActive (sessionAt st p) = true ->
         sess_IsActive (sessionAt st1 p) = false ->
         In (NdsDeauth (MAC (sessionAt st p))) new).

(** What the loop over the sessions [l] guarantees, whatever [l] is. *)
Definition loop_post (l : list ptr) (w w' : World) : Prop :=
  let st := store w in
  let st' := store w' in
  children st' = children st
  /\ (forall q, ID (childAt st' q) = ID (childAt st q)
                /\ DailyQuotaMin (childAt st' q) = DailyQuotaMin (childAt st q))
  /\ (forall c, (forall p, In p l -> sess_IsActive (sessionAt st p) = true ->
                           owner st p <> Some c) ->
                childAt st' c = childAt st c)
  /\ (forall q, ChildID (sessionAt st' q) = ChildID (sessionAt st q)
                /\ MAC (sessionAt st' q) = MAC (sessionAt st q)
                /\ (sess_IsActive (sessionAt st' q) = true ->
                    sess_IsActive (sessionAt st q) = true))
  /\ (forall q, ~ In q l -> sessionAt st' q = sessionAt st q)
  /\ (forall q, In q (sessions st') -> In q l \/ In q (sessions st))
  /\ exists new, trace w' = (new ++ trace w)%list
     /\ forall p, In p l -> sess_IsActive (sessionAt st p) = true ->
                  sess_IsActive (sessionAt st' p) = false ->
                  In (NdsDeauth (MAC (sessionAt st p))) new.

(** The events of a trace other than log lines: what the process did to
    the controller, and its pauses. *)
Definition isAction (e : Event) : bool :=
  match e with
  | Logged _ => false
  | _ => true
  end.

Definition actions (l : list Event) : list Event := filter isAction l.

(** Every byte of a text satisfies [p]. *)
Fixpoint allBytes (p : ascii -> bool) (s : string) : bool :=
  match s with
  | EmptyString => true
  | String c s' => p c && allBytes p s'
  end.



(** The trace [t'] is [t] with further events in front (the most recent
    first): log lines, and exactly the actions [acts]. *)
Definition addsActions (acts : list Event) (t t' : list Event) : Prop :=
  exists new, t' = (new ++ t)%list /\ actions new = acts.


(** The separators [normalizeMAC] drops, and what is left of a MAC without
    them, in lower case. *)
Definition separator (c : ascii) : bool :=
  Ascii.eqb c ":"%char || Ascii.eqb c "-"%char || Ascii.eqb c "."%char.

Definition macDigits (mac : string) : string :=
  lowerBytes (filter_string (fun c => negb (separator c)) mac).

(** The bytes [url.QueryEscape] produces: unreserved ones, [+] and [%]. *)
Definition escapedByte (c : ascii) : bool :=
  unreserved c || Ascii.eqb c "+"%char || Ascii.eqb c "%"%char.

(** The visible ASCII bytes: no control byte, no space, nothing above 126. *)
Definition visible (c : ascii) : bool :=
  ((33 <=? nat_of_ascii c) && (nat_of_ascii c <=? 126))%nat.

(** The deauthorize calls for the sessions [revoked] (in the order they
    were made), as they stand in a trace: the most recent first. *)
Definition revocations (st : Store) (revoked : list ptr) : list Event :=
  rev (map (fun p => NdsDeauth (MAC (sessionAt st p))) revoked).

(** The payload of the handshake as openNDS writes it: [key=value] pairs
    separated by a comma and a space. *)
Definition payloadOf (pairs : list (string * string)) : string :=
  Join (map (fun kv => fst kv ++ "=" ++ snd kv) pairs) ", ".

(** Texts of visible ASCII bytes without a comma (values), and moreover
    without an equals sign (keys). *)
Definition plainText (s : string) : bool :=
  allBytes (fun c => visible c && negb (Ascii.eqb c ","%char)) s.

Definition plainKey (s : string) : bool :=
  allBytes (fun c => visible c && negb (Ascii.eqb c ","%char) && negb (Ascii.eqb c "="%char)) s.

(** The fields a list of pairs assigns, pair after pair: as the first
    revision takes them, and as the later one does (keys in lower case,
    empty and ["(null)"] values passed over). *)
Definition assigned (pairs : list (string * string)) : FASData :=
  fold_left (fun fas kv => assignField fas (fst kv) (snd kv)) pairs emptyFAS.

Definition assignedRevised (pairs : list (string * string)) : FASData :=
  fold_left
    (fun fas kv =>
       if String.eqb (snd kv) "" || String.eqb (snd kv) "(null)" then fas
       else assignField fas (lowerBytes (fst kv)) (snd kv))
    pairs emptyFAS.

(** A path segment: a text without a slash. *)
Definition segment (s : string) : bool :=
  allBytes (fun c => negb (Ascii.eqb c "/"%char)) s.

(** The usage after the accruals [l], added one after the other with Go's
    wrapping addition. *)
Definition accrued (used : Z) (l : list Z) : Z := fold_left int_add l used.

(** Whether session [p] resolves to child [c]. *)
Definition ownedBy (st : Store) (c p : ptr) : bool :=
  match owner st p with
  | Some c' => Nat.eqb c' c
  | None => false
  end.

(** The accruals of a tick at [now] for child [c]: for the sessions of [l]
    that resolve to [c], in order, the minutes since the reference instant
    as the loop measures them, where there are any. *)
Definition accruals (now : Time) (st : Store) (c : ptr) (l : list ptr) : list Z :=
  filter (fun m => 0 <? m)
    (map (fun p => minutesSince now (sessionAt st p)) (filter (ownedBy st c) l)).

(** The record of a child as a tick at [now] enters its loop with it: the
    stored one, or, when the reset date of some stored child is not the
    date of [now], the reset one for every stored child. *)
Definition recordAtStart (now : Time) (st : Store) (c : ptr) : Child :=
  if anyStale (childAt st) (Format_date now) (children st)
     && existsb (Nat.eqb c) (children st)
  then reset_quota (childAt st c) (Format_date now)
  else childAt st c.

Definition usageAtStart (now : Time) (st : Store) (c : ptr) : Z :=
  UsedTodayMin (recordAtStart now st c).

(* ================================================================== *)
(** * Properties *)
(* ================================================================== *)

(** ** Lexicographic order on byte strings *)

Lemma nat_of_ascii_inj x y : nat_of_ascii x = nat_of_ascii y -> x = y.
Proof.
  intro H. rewrite <- (ascii_nat_embedding x), <- (ascii_nat_embedding y).
  now rewrite H.
Qed.

Lemma str_leb_lex_le a b : str_leb a b = true <-> lex_le a b.
Proof.
  revert b. induction a as [|x a IH]; intros [|y b]; simpl.
  - split; auto.
  - split; auto.
  - split; [discriminate | intro H; inversion H].
  - destruct (Nat.ltb_spec (nat_of_ascii x) (nat_of_ascii y)) as [Hlt|Hge].
    + split; auto.
    + destruct (Nat.eqb_spec (nat_of_ascii x) (nat_of_ascii y)) as [Heq|Hne].
      * apply nat_of_ascii_inj in Heq. subst y. rewrite IH. split; auto.
        intro H. inversion H; subst; auto. lia.
      * split; [discriminate|]. intro H. inversion H; subst; [lia | congruence].
Qed.

Lemma lex_le_trans a b c : lex_le a b -> lex_le b c -> lex_le a c.
Proof.
  intro H. revert c. induction H; intros c Hbc; auto.
  - inversion Hbc; subst; auto. apply lex_le_less. lia.
  - inversion Hbc; subst; auto.
Qed.

Lemma lex_le_antisym a b : lex_le a b -> lex_le b a -> a = b.
Proof.
  intro H. induction H; intro Hba.
  - now inversion Hba.
  - inversion Hba; subst; lia.
  - inversion Hba; subst; [lia | f_equal; auto].
Qed.

Lemma lex_lt_not_ge a b : lex_lt a b -> ~ lex_le b a.
Proof. intros [Hle Hne] Hge. apply Hne. now apply lex_le_antisym. Qed.

Lemma allowedIn_iff blocks day cur :
  allowedIn blocks day cur = true <->
  exists b, In b blocks /\ DayOfWeek b = day
            /\ lex_le (StartTime b) cur /\ lex_le cur (EndTime b).
Proof.
  induction blocks as [|blk rest IH]; simpl.
  - split; [discriminate | intros (b & [] & _)].
  - destruct (Z.eqb_spec (DayOfWeek blk) day) as [Hd|Hd].
    + destruct (str_leb (StartTime blk) cur && str_leb cur (EndTime blk)) eqn:Hin.
      * split; auto. intros _. apply andb_true_iff in Hin as [H1 H2].
        exists blk. rewrite <- !str_leb_lex_le. auto.
      * rewrite IH. split.
        -- intros (b & Hb & H). exists b. auto.
        -- intros (b & [Hb|Hb] & Hday & H1 & H2).
           ++ subst b. apply str_leb_lex_le in H1, H2.
              rewrite H1, H2 in Hin. discriminate.
           ++ exists b. auto.
    + rewrite IH. split.
      * intros (b & Hb & H). exists b. auto.
      * intros (b & [Hb|Hb] & Hday & H). { subst b. contradiction. }
        exists b. auto.
Qed.

(** C6. [IsAllowedNow] holds exactly when some block of the schedule has
    the weekday of the instant and the instant's "HH:MM" text lies between
    the block's start and end in lexicographic order, both ends included:
    Monday 09:00-17:00 admits Monday 09:00 and 17:00 and rejects 08:59 and
    17:01; and a block whose end is lexicographically below its start
    matches no instant. *)
Theorem IsAllowedNow_lexicographic_window :
  forall (s : Schedule) (now : Time),
    (IsAllowedNow s now = true <->
     exists b, In b (TimeBlocks s) /\ DayOfWeek b = Weekday now
               /\ lex_le (StartTime b) (Format_HHMM now)
               /\ lex_le (Format_HHMM now) (EndTime b))
    /\ (forall i y m d,
          IsAllowedNow mondayOffice (mkTime i y m d 9 0 1) = true
          /\ IsAllowedNow mondayOffice (mkTime i y m d 17 0 1) = true
          /\ IsAllowedNow mondayOffice (mkTime i y m d 8 59 1) = false
          /\ IsAllowedNow mondayOffice (mkTime i y m d 17 1 1) = false)
    /\ ((forall b, In b (TimeBlocks s) -> lex_lt (EndTime b) (StartTime b)) ->
        IsAllowedNow s now = false).
Proof.
  intros s now. split; [|split].
  - unfold IsAllowedNow. apply allowedIn_iff.
  - intros. repeat split; reflexivity.
  - intro Hinv. destruct (IsAllowedNow s now) eqn:H; auto.
    unfold IsAllowedNow in H. apply allowedIn_iff in H as (b & Hb & _ & H1 & H2).
    exfalso. apply (lex_lt_not_ge _ _ (Hinv b Hb)). eapply lex_le_trans; eauto.
Qed.

(** ** Running the effect monad *)

Lemma bind_unfold {A B : Type} (m : M A) (k : A -> M B) (w : World) :
  bind m k w = k (fst (m w)) (snd (m w)).
Proof. unfold bind. now destruct (m w). Qed.

Lemma run_bind {A B : Type} (m : M A) (k : A -> M B) (w : World) :
  run (bind m k) w = run (k (result m w)) (run m w).
Proof. unfold run, result. now rewrite bind_unfold. Qed.

Lemma result_bind {A B : Type} (m : M A) (k : A -> M B) (w : World) :
  result (bind m k) w = result (k (result m w)) (run m w).
Proof. unfold run, result. now rewrite bind_unfold. Qed.

Lemma run_ret {A : Type} (a : A) w : run (ret a) w = w.
Proof. reflexivity. Qed.

Lemma result_ret {A : Type} (a : A) w : result (ret a) w = a.
Proof. reflexivity. Qed.

Lemma run_getStore w : run getStore w = w.
Proof. reflexivity. Qed.

Lemma result_getStore w : result getStore w = store w.
Proof. reflexivity. Qed.

Lemma run_readChild p w : run (readChild p) w = w.
Proof. reflexivity. Qed.

Lemma result_readChild p w : result (readChild p) w = childAt (store w) p.
Proof. reflexivity. Qed.

Lemma run_readSession p w : run (readSession p) w = w.
Proof. reflexivity. Qed.

Lemma result_readSession p w : result (readSession p) w = sessionAt (store w) p.
Proof. reflexivity. Qed.

Lemma run_GetChild id w : run (GetChild id) w = w.
Proof. reflexivity. Qed.

Lemma result_GetChild id w :
  result (GetChild id) w
  = firstWhere (childAt (store w)) (fun c => String.eqb (ID c) id) (children (store w)).
Proof. reflexivity. Qed.

Lemma run_GetSchedule id w : run (GetSchedule id) w = w.
Proof. reflexivity. Qed.

Lemma result_GetSchedule id w :
  result (GetSchedule id) w = findSchedule id (schedules (store w)).
Proof. reflexivity. Qed.

Lemma run_time_Now w :
  run time_Now w = mkWorld (store w) (trace w) (S (step w)) (env w).
Proof. reflexivity. Qed.

Lemma result_time_Now w : result time_Now w = now_at (env w) (step w).
Proof. reflexivity. Qed.

Lemma run_ask {A : Type} (f : Env -> nat -> A) w :
  run (ask f) w = mkWorld (store w) (trace w) (S (step w)) (env w).
Proof. reflexivity. Qed.

Lemma result_ask {A : Type} (f : Env -> nat -> A) w : result (ask f) w = f (env w) (step w).
Proof. reflexivity. Qed.

Lemma run_emit e w : run (emit e) w = mkWorld (store w) (e :: trace w) (step w) (env w).
Proof. reflexivity. Qed.

Lemma run_putStore st w : run (putStore st) w = mkWorld st (trace w) (step w) (env w).
Proof. reflexivity. Qed.

Lemma run_getEnv w : run getEnv w = w.
Proof. reflexivity. Qed.

Lemma result_getEnv w : result getEnv w = env w.
Proof. reflexivity. Qed.

Create Rewrite HintDb gorun.

#[local] Hint Rewrite @run_bind @result_bind @run_ret @result_ret run_getStore
  result_getStore run_readChild result_readChild run_readSession result_readSession
  run_GetChild result_GetChild run_GetSchedule result_GetSchedule run_time_Now
  result_time_Now @run_ask @result_ask run_emit run_putStore run_getEnv result_getEnv : gorun.

Ltac gorun := autorewrite with gorun.

(** ** The store *)

Lemma upd_same {A : Type} (h : ptr -> A) p v : upd h p v p = v.
Proof. unfold upd. now rewrite Nat.eqb_refl. Qed.

Lemma upd_other {A : Type} (h : ptr -> A) p q v : q <> p -> upd h p v q = h q.
Proof. unfold upd. intro H. apply Nat.eqb_neq in H. now rewrite H. Qed.

Lemma upsert_keeps_saved {A : Type} (obj : ptr -> A) test p slots :
  In p (upsert obj test p slots).
Proof.
  unfold upsert. destruct (replaceFirst obj test p slots) as [l|] eqn:H.
  - revert l H. induction slots as [|q rest IH]; simpl; intros l H; [discriminate|].
    destruct (test (obj q)).
    + injection H as <-. now left.
    + destruct (replaceFirst obj test p rest) as [r|]; [|discriminate].
      injection H as <-. right. now apply IH.
  - apply in_or_app. right. now left.
Qed.

Lemma upsert_incl {A : Type} (obj : ptr -> A) test p slots q :
  In q (upsert obj test p slots) -> q = p \/ In q slots.
Proof.
  unfold upsert. destruct (replaceFirst obj test p slots) as [l|] eqn:H.
  - revert l H. induction slots as [|x rest IH]; simpl; intros l H; [discriminate|].
    destruct (test (obj x)).
    + injection H as <-. intros [<-|Hq]; auto.
    + destruct (replaceFirst obj test p rest) as [r|]; [|discriminate].
      injection H as <-. intros [<-|Hq]; auto.
      destruct (IH r eq_refl Hq); auto.
  - intro Hq. apply in_app_or in Hq as [Hq|[<-|[]]]; auto.
Qed.

(** ** Sessions listed and sessions kept *)

Lemma deauthSession_store session reason w :
  let st := store w in
  let s := set_IsActive (sessionAt st session) false in
  let h := upd (sessionAt st) session s in
  sessionAt (store (run (deauthSession session reason) w)) = h
  /\ sessions (store (run (deauthSession session reason) w))
     = upsert h (fun x => String.eqb (sess_ID x) (sess_ID s)) session (sessions st)
  /\ childAt (store (run (deauthSession session reason) w)) = childAt st
  /\ children (store (run (deauthSession session reason) w)) = children st
  /\ schedules (store (run (deauthSession session reason) w)) = schedules st
  /\ exists new, trace (run (deauthSession session reason) w) = (new ++ trace w)%list
                 /\ In (NdsDeauth (MAC (sessionAt st session))) new.
Proof.
  unfold deauthSession, run, Deauth, log_Printf, emit, ask, readSession, writeSession,
    SaveSession, saveFile_sessions, getStore, putStore, bind, ret. simpl.
  destruct (exec_fails (env w) (step w)); simpl;
    rewrite upd_same; destruct (write_fails (env w) _); simpl;
    repeat split; auto;
    first [ exists [Logged "ndsctl deauth error"; NdsDeauth (MAC (sessionAt (store w) session));
                    Logged ("Deauthenticating: " ++ reason)]; simpl; now auto
          | exists [NdsDeauth (MAC (sessionAt (store w) session));
                    Logged ("Deauthenticating: " ++ reason)]; simpl; now auto ].
Qed.

(** C10. [ListSessions] returns exactly the stored sessions whose IsActive
    flag is set, in store order, and changes nothing.  A session the loop
    or an administrator marks inactive stays in the store and is no longer
    listed; [ClearInactiveSessions] keeps exactly the listed sessions. *)
Theorem ListSessions_exactly_the_active :
  forall (w : World),
    result ListSessions w
      = filter (fun p => sess_IsActive (sessionAt (store w) p)) (sessions (store w))
    /\ run ListSessions w = w
    /\ (forall p, In p (result ListSessions w) <->
                  In p (sessions (store w)) /\ sess_IsActive (sessionAt (store w) p) = true)
    /\ (forall session reason,
          let w' := run (deauthSession session reason) w in
          In session (sessions (store w')) /\ ~ In session (result ListSessions w'))
    /\ (forall session,
          let w' := run (kick session) w in
          In session (sessions (store w')) /\ ~ In session (result ListSessions w'))
    /\ (let w' := run ClearInactiveSessions w in
        sessions (store w') = result ListSessions w
        /\ sessionAt (store w') = sessionAt (store w)
        /\ forall p, In p (sessions (store w')) ->
                     sess_IsActive (sessionAt (store w') p) = true).
Proof.
  intro w. split; [reflexivity|]. split; [now destruct w|].
  split; [intro p; apply filter_In|].
  split; [|split].
  - intros session reason w'.
    destruct (deauthSession_store session reason w) as (Hh & Hl & _).
    subst w'. split.
    + rewrite Hl. apply upsert_keeps_saved.
    + intro Hin. apply filter_In in Hin as [_ Hact].
      rewrite Hh, upd_same in Hact. discriminate.
  - intros session w'. subst w'.
    unfold kick, run, Deauth, emit, ask, readSession, writeSession,
      SaveSession, saveFile_sessions, getStore, putStore, bind, ret,
      ListSessions, result, activeSessions. simpl.
    rewrite upd_same. destruct (write_fails (env w) _); simpl.
    + split; [apply upsert_keeps_saved|].
      intro Hin. apply filter_In in Hin as [_ Hact]. rewrite upd_same in Hact. discriminate.
    + split; [apply upsert_keeps_saved|].
      intro Hin. apply filter_In in Hin as [_ Hact]. rewrite upd_same in Hact. discriminate.
  - unfold ClearInactiveSessions, run, saveFile_sessions, ask, getStore, putStore, bind, ret,
      ListSessions, result, activeSessions. simpl.
    destruct (write_fails (env w) (step w)); simpl; repeat split; auto;
      intros p Hin; apply filter_In in Hin; tauto.
Qed.

(** ** The daily reset *)

Lemma reset_quota_idem c d : reset_quota (reset_quota c d) d = reset_quota c d.
Proof. reflexivity. Qed.

Lemma resetAll_spec d slots : forall h p,
  resetAll d slots h p = if in_dec Nat.eq_dec p slots then reset_quota (h p) d else h p.
Proof.
  induction slots as [|c rest IH]; intros h p; simpl; [reflexivity|].
  rewrite IH. destruct (Nat.eq_dec c p) as [->|Hne].
  - rewrite upd_same. now destruct (in_dec Nat.eq_dec p rest).
  - rewrite upd_other by congruence. now destruct (in_dec Nat.eq_dec p rest).
Qed.

Lemma anyStale_true h today slots :
  anyStale h today slots = true <->
  exists p, In p slots /\ LastResetDate (h p) <> today.
Proof.
  induction slots as [|c rest IH]; simpl.
  - split; [discriminate | intros (p & [] & _)].
  - destruct (String.eqb_spec (LastResetDate (h c)) today) as [He|Hne]; simpl.
    + rewrite IH. split.
      * intros (p & Hp & H). exists p. auto.
      * intros (p & [<-|Hp] & H); [contradiction|]. exists p. auto.
    + split; auto. intros _. exists c. auto.
Qed.

(** The check by itself, at any instant: if some stored child's
    last_reset_date differs from the instant's date text, every stored
    child gets used_today_minutes 0 and that date, nothing else of a child
    changes, and the collection is written to children.json (the file
    holds the reset records unless the write fails); if no child is stale
    the check leaves the world as it was. *)
Lemma checkDailyReset_world :
  forall (now : Time) (w : World),
    let today := Format_date now in
    let w' := run (checkDailyReset now) w in
    ((exists p, In p (children (store w))
                /\ LastResetDate (childAt (store w) p) <> today) ->
       children (store w') = children (store w)
       /\ (forall p, In p (children (store w')) ->
             UsedTodayMin (childAt (store w') p) = 0
             /\ LastResetDate (childAt (store w') p) = today
             /\ childAt (store w') p = reset_quota (childAt (store w) p) today)
       /\ (forall p, ~ In p (children (store w)) ->
             childAt (store w') p = childAt (store w) p)
       /\ (write_fails (env w) (step w) = false ->
             children_json (store w')
               = map (childAt (store w')) (children (store w'))))
    /\ ((forall p, In p (children (store w)) ->
                   LastResetDate (childAt (store w) p) = today) ->
        w' = w).
Proof.
  intros now w today w'. subst w'.
  unfold checkDailyReset, ListChildren, ResetDailyQuotas, saveFile_children, log_Printf,
    emit, run, result, ask, getStore, putStore, bind, ret. simpl. fold today.
  destruct (anyStale (childAt (store w)) today (children (store w))) eqn:Hstale.
  - split.
    + intros _.
      destruct (write_fails (env w) (step w)); simpl;
        (split; [reflexivity|]); (split; [|split]); try discriminate; auto;
        intros p Hp; rewrite resetAll_spec;
        destruct (in_dec Nat.eq_dec p (children (store w))); try contradiction; auto.
    + intro Hall. apply anyStale_true in Hstale as (p & Hp & Hne). elim Hne. auto.
  - split; [|intros _; now destruct w].
    intro Hex. apply anyStale_true in Hex. congruence.
Qed.

(** ** Accrual *)

Lemma firstWhere_Some {A : Type} (obj : ptr -> A) test slots p :
  firstWhere obj test slots = Some p -> In p slots /\ test (obj p) = true.
Proof.
  induction slots as [|q rest IH]; simpl; [discriminate|].
  destruct (test (obj q)) eqn:Hq.
  - intro H. injection H as <-. auto.
  - intro H. destruct (IH H). auto.
Qed.

Lemma firstWhere_ext {A : Type} (obj obj' : ptr -> A) test test' slots :
  (forall q, In q slots -> test' (obj' q) = test (obj q)) ->
  firstWhere obj' test' slots = firstWhere obj test slots.
Proof.
  induction slots as [|q rest IH]; simpl; intro H; [reflexivity|].
  rewrite H by auto. destruct (test (obj q)); auto.
Qed.

(** Saving the object a lookup has just returned puts it back into the
    slot it came from. *)
Lemma upsert_first {A : Type} (obj : ptr -> A) test slots p :
  firstWhere obj test slots = Some p -> upsert obj test p slots = slots.
Proof.
  unfold upsert. induction slots as [|q rest IH]; simpl; [discriminate|].
  destruct (test (obj q)) eqn:Hq.
  - intro H. now injection H as <-.
  - intro H. specialize (IH H).
    destruct (replaceFirst obj test p rest) as [r|] eqn:Hr.
    + now rewrite IH.
    + exfalso. clear IH. revert Hr. clear -H.
      induction rest as [|x rest IH]; simpl in *; [discriminate|].
      destruct (test (obj x)); [discriminate|].
      destruct (replaceFirst obj test p rest); [discriminate|]. auto.
Qed.

Lemma upsert_ext {A : Type} (obj obj' : ptr -> A) test test' p slots :
  (forall q, In q slots -> test' (obj' q) = test (obj q)) ->
  upsert obj' test' p slots = upsert obj test p slots.
Proof.
  intro H. unfold upsert.
  assert (E : replaceFirst obj' test' p slots = replaceFirst obj test p slots).
  { induction slots as [|q rest IH]; simpl; [reflexivity|].
    rewrite H by (simpl; auto). destruct (test (obj q)); auto.
    rewrite IH; auto. intros x Hx. apply H. simpl. auto. }
  now rewrite E.
Qed.

Lemma Sub_exact now ref :
  minInt <= instant now - instant ref <= maxInt ->
  Sub now ref = instant now - instant ref.
Proof.
  intro H. unfold Sub.
  destruct (Z.ltb_spec (instant now - instant ref) minInt); [lia|].
  destruct (Z.ltb_spec maxInt (instant now - instant ref)); [lia|]. reflexivity.
Qed.

(** *** Rounding to float64

    Rounding to the nearest integer stays within half a unit and respects
    integer bounds. *)
Lemma roundEven_bounds a b :
  0 < b -> 2 * (roundEven a b * b) <= 2 * a + b /\ 2 * a <= 2 * (roundEven a b * b) + b.
Proof.
  intro Hb. unfold roundEven.
  pose proof (Z.div_mod a b ltac:(lia)) as E.
  pose proof (Z.mod_pos_bound a b Hb) as R.
  destruct (Z.ltb_spec (2 * (a mod b)) b); [nia|].
  destruct (Z.ltb_spec b (2 * (a mod b))); [nia|].
  destruct (Z.even (a / b)); nia.
Qed.

Lemma roundEven_ge a b n : 0 < b -> n * b <= a -> n <= roundEven a b.
Proof.
  intros Hb H. assert (F : n <= a / b) by (apply Z.div_le_lower_bound; lia).
  unfold roundEven.
  destruct (2 * (a mod b) <? b); [lia|].
  destruct (b <? 2 * (a mod b)); [lia|].
  destruct (Z.even (a / b)); lia.
Qed.

Lemma roundEven_lt a b n : 0 < b -> 2 * a < (2 * n - 1) * b -> roundEven a b <= n - 1.
Proof.
  intros Hb H. unfold roundEven.
  pose proof (Z.div_mod a b ltac:(lia)) as E.
  pose proof (Z.mod_pos_bound a b Hb) as R.
  assert (F : a / b <= n - 1) by nia.
  destruct (Z.ltb_spec (2 * (a mod b)) b); [lia|].
  assert (a / b <= n - 2) by nia.
  destruct (b <? 2 * (a mod b)); [lia|].
  destruct (Z.even (a / b)); lia.
Qed.

(** The float64 nearest to a fraction does not depend on how the fraction
    is written. *)
Lemma roundEven_scale c a b : 0 < c -> 0 < b -> roundEven (c * a) (c * b) = roundEven a b.
Proof.
  intros Hc Hb. unfold roundEven.
  rewrite Z.div_mul_cancel_l by lia. rewrite Z.mul_mod_distr_l by lia.
  replace (2 * (c * (a mod b)) <? c * b) with (2 * (a mod b) <? b).
  2:{ destruct (Z.ltb_spec (2 * (a mod b)) b), (Z.ltb_spec (2 * (c * (a mod b))) (c * b));
        try reflexivity; nia. }
  replace (c * b <? 2 * (c * (a mod b))) with (b <? 2 * (a mod b)).
  2:{ destruct (Z.ltb_spec b (2 * (a mod b))), (Z.ltb_spec (c * b) (2 * (c * (a mod b))));
        try reflexivity; nia. }
  reflexivity.
Qed.

Lemma ceil_div_scale c p q : 0 < c -> 0 < p -> 0 < q ->
  (c * q + c * p - 1) / (c * p) = (q + p - 1) / p.
Proof.
  intros Hc Hp Hq.
  pose proof (Z.div_mod (q + p - 1) p ltac:(lia)) as E.
  pose proof (Z.mod_pos_bound (q + p - 1) p Hp) as R.
  set (n := (q + p - 1) / p) in *. set (r := (q + p - 1) mod p) in *.
  symmetry. apply Z.div_unique with (r := c * r + c - 1); [nia|nia].
Qed.

Lemma floorLog2_scale c p q : 0 < c -> 0 < p -> 0 < q ->
  floorLog2 (c * p) (c * q) = floorLog2 p q.
Proof.
  intros Hc Hp Hq. unfold floorLog2.
  replace (c * q <=? c * p) with (q <=? p).
  2:{ destruct (Z.leb_spec q p), (Z.leb_spec (c * q) (c * p)); try reflexivity; nia. }
  rewrite Z.div_mul_cancel_l by lia. now rewrite ceil_div_scale.
Qed.

Lemma nearest_scale c p q : 0 < c -> 0 < q -> nearest (c * p) (c * q) = nearest p q.
Proof.
  intros Hc Hq. unfold nearest.
  destruct (Z.eqb_spec p 0) as [->|Hp].
  - now rewrite Z.mul_0_r.
  - destruct (Z.eqb_spec (c * p) 0) as [E|_]; [nia|].
    rewrite Z.abs_mul, (Z.abs_eq c) by lia.
    rewrite floorLog2_scale by lia.
    rewrite Z.sgn_mul, (Z.sgn_pos c), Z.mul_1_l by lia.
    set (e := floorLog2 (Z.abs p) q - 52).
    replace (c * q * 2 ^ e) with (c * (q * 2 ^ e)) by ring.
    replace (c * Z.abs p * 2 ^ (- e)) with (c * (Z.abs p * 2 ^ (- e))) by ring.
    destruct (Z.leb_spec 0 e).
    + assert (0 < 2 ^ e) by (apply Z.pow_pos_nonneg; lia).
      rewrite roundEven_scale by nia. reflexivity.
    + rewrite roundEven_scale by lia. reflexivity.
Qed.

(** Integers below 2^52 are float64 values. *)
Lemma roundEven_one x : roundEven x 1 = x.
Proof. unfold roundEven. rewrite Z.div_1_r, Z.mod_1_r. reflexivity. Qed.

Lemma float64_of_int_exact n :
  0 <= n < 2 ^ 52 -> exists K, 0 < K /\ float64_of_int n = mkFloat (n * K) K.
Proof.
  intro H. unfold float64_of_int, nearest.
  destruct (Z.eqb_spec n 0) as [->|Hn]; [exists 1; split; [lia|reflexivity]|].
  unfold floorLog2. destruct (Z.leb_spec 1 (Z.abs n)); [|lia].
  rewrite Z.abs_eq, Z.div_1_r by lia.
  assert (L : Z.log2 n < 52) by (apply Z.log2_lt_pow2; lia).
  destruct (Z.leb_spec 0 (Z.log2 n - 52)); [lia|].
  exists (2 ^ (- (Z.log2 n - 52))). split; [apply Z.pow_pos_nonneg; lia|].
  rewrite roundEven_one, Z.sgn_pos by lia. f_equal. lia.
Qed.

Lemma log2_up_ge_1 x : 2 <= x -> 1 <= Z.log2_up x.
Proof. intro H. apply (Z.log2_up_le_mono 2 x) in H. exact H. Qed.

(** The quotient of the remaining nanoseconds by a minute, as a float64:
    below 1 by more than 2^-36. *)
Lemma fraction_of_a_minute nsec :
  0 < nsec < Minute ->
  exists m E, nearest nsec Minute = mkFloat m E
              /\ 2 ^ 53 <= E /\ 1 <= m /\ 2 ^ 36 * m < (2 ^ 36 - 1) * E.
Proof.
  intro H. unfold nearest.
  destruct (Z.eqb_spec nsec 0); [lia|].
  rewrite Z.abs_eq, Z.sgn_pos, !Z.mul_1_l by lia.
  unfold floorLog2. destruct (Z.leb_spec Minute nsec); [lia|].
  set (L := Z.log2_up ((Minute + nsec - 1) / nsec)).
  assert (HL : 1 <= L).
  { subst L. apply log2_up_ge_1. apply Z.div_le_lower_bound; unfold Minute in *; lia. }
  destruct (Z.leb_spec 0 (- L - 52)); [lia|].
  replace (- (- L - 52)) with (L + 52) by lia.
  set (E := 2 ^ (L + 52)).
  assert (HE : 2 ^ 53 <= E) by (subst E; apply Z.pow_le_mono_r; lia).
  exists (roundEven (nsec * E) Minute), E. split; [reflexivity|]. split; [assumption|].
  assert (HM : 0 < Minute) by reflexivity.
  split.
  - apply roundEven_ge; [assumption|]. unfold Minute in *. nia.
  - destruct (roundEven_bounds (nsec * E) Minute HM) as [Hup _].
    unfold Minute in *. nia.
Qed.

(** Rounding a sum of whole minutes and such a fraction, then truncating,
    gives the whole minutes back as long as they are below 2^18. *)
Lemma whole_minutes_kept min m E :
  0 <= min < 2 ^ 18 -> 2 ^ 53 <= E -> 1 <= m -> 2 ^ 36 * m < (2 ^ 36 - 1) * E ->
  int_of_float64 (nearest (min * E + m) E) = min.
Proof.
  intros Hmin HE Hm Hfrac. unfold nearest.
  destruct (Z.eqb_spec (min * E + m) 0); [nia|].
  rewrite Z.abs_eq, Z.sgn_pos, !Z.mul_1_l by nia.
  assert (Hlt : m < E) by nia.
  assert (G : exists e H, floorLog2 (min * E + m) E - 52 = e /\ e < 0
                          /\ 2 ^ (- e) = 2 ^ 35 * H /\ 1 <= H).
  { unfold floorLog2. destruct (Z.leb_spec E (min * E + m)) as [Hge|Hlow].
    - assert (Hq : (min * E + m) / E = min)
        by (symmetry; apply Z.div_unique with (r := m); lia).
      rewrite Hq. assert (1 <= min) by nia.
      assert (L : Z.log2 min < 18) by (apply Z.log2_lt_pow2; lia).
      pose proof (Z.log2_nonneg min).
      exists (Z.log2 min - 52), (2 ^ (17 - Z.log2 min)).
      split; [reflexivity|]. split; [lia|]. split.
      + rewrite <- Z.pow_add_r by lia. f_equal. lia.
      + apply (Z.pow_le_mono_r 2 0); lia.
    - assert (min = 0) by nia. subst min. rewrite Z.mul_0_l, Z.add_0_l in *.
      set (L := Z.log2_up ((E + m - 1) / m)).
      assert (HL : 1 <= L).
      { subst L. apply log2_up_ge_1. apply Z.div_le_lower_bound; lia. }
      exists (- L - 52), (2 ^ (L + 17)).
      split; [reflexivity|]. split; [lia|]. split.
      + rewrite <- Z.pow_add_r by lia. f_equal. lia.
      + apply (Z.pow_le_mono_r 2 0); lia. }
  destruct G as (e & H & -> & He & HG & HH).
  destruct (Z.leb_spec 0 e); [lia|]. rewrite HG.
  set (Gv := 2 ^ 35 * H). assert (HGv : 0 < Gv) by (subst Gv; lia).
  unfold int_of_float64. cbn [num den].
  assert (Epos : 0 < E) by lia.
  assert (Lo : min * Gv <= roundEven ((min * E + m) * Gv) E)
    by (apply roundEven_ge; [assumption|nia]).
  assert (Hi : roundEven ((min * E + m) * Gv) E <= (min + 1) * Gv - 1).
  { apply roundEven_lt; [assumption|]. subst Gv. nia. }
  rewrite Z.quot_div_nonneg by nia.
  symmetry. apply Z.div_unique with (r := roundEven ((min * E + m) * Gv) E - min * Gv); lia.
Qed.

(** Below 262144 minutes (2^18, about 182 days) the conversion through
    float64 gives the whole minutes of a duration. *)
Lemma MinutesInt_floor d : 0 <= d < 262144 * Minute -> MinutesInt d = d / Minute.
Proof.
  intro H. assert (HM : 0 < Minute) by reflexivity.
  unfold MinutesInt, Minutes. cbv zeta.
  rewrite Z.quot_div_nonneg, Z.rem_mod_nonneg by lia.
  pose proof (Z.mod_pos_bound d Minute HM) as Hr.
  assert (Hq : 0 <= d / Minute < 2 ^ 18).
  { split; [apply Z.div_pos; lia|]. apply Z.div_lt_upper_bound; [assumption|].
    change (2 ^ 18) with 262144. lia. }
  set (min := d / Minute) in *. set (nsec := d mod Minute) in *.
  destruct (float64_of_int_exact min) as (K & HK & ->); [lia|].
  destruct (float64_of_int_exact nsec) as (K1 & HK1 & ->); [unfold Minute in Hr; lia|].
  destruct (float64_of_int_exact (60 * 1000000000)) as (K2 & HK2 & ->); [split; [lia|reflexivity]|].
  unfold fdiv. cbn [num den].
  rewrite Z.sgn_pos, Z.mul_1_l, Z.abs_eq by lia.
  replace (nsec * K1 * K2) with (K1 * K2 * nsec) by ring.
  replace (K1 * (60 * 1000000000 * K2)) with (K1 * K2 * Minute) by (unfold Minute; ring).
  rewrite nearest_scale by nia.
  destruct (Z.eq_dec nsec 0) as [E0|Hn].
  - rewrite E0. change (nearest 0 Minute) with (mkFloat 0 1).
    unfold fadd. cbn [num den].
    replace (min * K * 1 + 0 * K) with (K * min) by ring.
    rewrite nearest_scale by lia.
    destruct (float64_of_int_exact min) as (K' & HK' & E'); [lia|].
    unfold float64_of_int in E'. rewrite E'. unfold int_of_float64. cbn [num den].
    rewrite Z.quot_div_nonneg by nia. apply Z.div_mul; lia.
  - destruct (fraction_of_a_minute nsec) as (m & E & -> & HE & Hm & Hfrac); [lia|].
    unfold fadd. cbn [num den].
    replace (min * K * E + m * K) with (K * (min * E + m)) by ring.
    rewrite nearest_scale by lia.
    now apply whole_minutes_kept.
Qed.

Lemma minutesSince_floor now s :
  0 <= instant now - instant (referenceInstant s) < 262144 * Minute ->
  minutesSince now s = (instant now - instant (referenceInstant s)) / Minute.
Proof.
  unfold minutesSince, referenceInstant. intro H.
  destruct (IsZero (LastTickAt s));
    (rewrite Sub_exact by (unfold minInt, maxInt, Minute in *; lia)); apply MinutesInt_floor; lia.
Qed.

(** What [accrue] does to the store. *)
Lemma accrue_store now session child m w :
  let st := store w in
  let st' := store (run (accrue now session child m) w) in
  firstWhere (childAt st) (fun c => String.eqb (ID c) (ID (childAt st child))) (children st)
    = Some child ->
  schedules st' = schedules st
  /\ children st' = children st
  /\ childAt st' = (if 0 <? m
                    then upd (childAt st) child
                           (set_usage (childAt st child)
                              (int_add (UsedTodayMin (childAt st child)) m) now)
                    else childAt st)
  /\ sessionAt st' = (if 0 <? m
                      then upd (sessionAt st) session
                             (set_LastTickAt (sessionAt st session) now)
                      else sessionAt st)
  /\ (forall q, In q (sessions st') -> q = session \/ In q (sessions st))
  /\ ((0 <? m) = false -> run (accrue now session child m) w = w)
  /\ trace (run (accrue now session child m) w) = trace w.
Proof.
  intros st st' Hfirst. subst st'.
  unfold accrue. destruct (0 <? m) eqn:Hm.
  - unfold run, SaveChild, SaveSession, saveFile_children, saveFile_sessions, ask,
      readChild, readSession, writeChild, writeSession, getStore, putStore, bind, ret.
    simpl. fold st. rewrite !upd_same. simpl.
    assert (Hch : upsert (upd (childAt st) child
                     (set_usage (childAt st child)
                        (int_add (UsedTodayMin (childAt st child)) m) now))
                    (fun c => String.eqb (ID c) (ID (childAt st child))) child (children st)
                  = children st).
    { rewrite upsert_ext with (obj := childAt st)
                              (test := fun c => String.eqb (ID c) (ID (childAt st child))).
      - now apply upsert_first.
      - intros q _. unfold upd. destruct (Nat.eqb q child) eqn:E; [|reflexivity].
        apply Nat.eqb_eq in E. now subst q. }
    destruct (write_fails (env w) (step w)); simpl;
      destruct (write_fails (env w) (S (step w))); simpl; rewrite ?Hch;
      repeat split; auto; try discriminate; intros q Hq; eapply upsert_incl; eauto.
  - unfold run, ret. simpl. repeat split; auto.
Qed.

Lemma enforce_store session child w :
  enforce_post session child w (run (enforce session child) w).
Proof.
  unfold enforce_post. unfold enforce. gorun.
  assert (D : forall reason w0, store w0 = store w -> trace w0 = trace w ->
                enforce_post session child w (run (deauthSession session reason) w0)).
  { intros reason w0 E Et. unfold enforce_post.
    destruct (deauthSession_store session reason w0) as (Hh & Hl & Hc & Hcs & Hs & new & Ht & Hin).
    rewrite E, ?Et in *. rewrite Hh, Hl, Hc, Hcs, Hs.
    repeat split; auto.
    - intros q Hq. eapply upsert_incl; eauto.
    - exists new. split; auto. }
  unfold enforce_post in D.
  destruct (Z.leb_spec (DailyQuotaMin (childAt (store w) child))
                       (UsedTodayMin (childAt (store w) child))) as [Hover|Hunder].
  - now apply D.
  - assert (N : forall w0, store w0 = store w -> trace w0 = trace w ->
                  schedules (store w0) = schedules (store w)
                  /\ children (store w0) = children (store w)
                  /\ childAt (store w0) = childAt (store w)
                  /\ (forall q, In q (sessions (store w0)) ->
                        q = session \/ In q (sessions (store w)))
                  /\ exists new, trace w0 = (new ++ trace w)%list
                     /\ (sessionAt (store w0) = sessionAt (store w)
                         /\ UsedTodayMin (childAt (store w) child)
                            < DailyQuotaMin (childAt (store w) child)
                         \/ sessionAt (store w0)
                            = upd (sessionAt (store w)) session
                                (set_IsActive (sessionAt (store w) session) false)
                            /\ In (NdsDeauth (MAC (sessionAt (store w) session))) new)).
    { intros w0 E Et. rewrite E, Et. repeat split; auto. exists []. auto. }
    destruct (negb (String.eqb (ScheduleID (childAt (store w) child)) "")).
    + gorun.
      destruct (findSchedule (ScheduleID (childAt (store w) child)) (schedules (store w)))
        as [sched|].
      * gorun. destruct (negb (IsAllowedNow sched (now_at (env w) (step w)))).
        -- now apply D.
        -- gorun. now apply N.
      * gorun. now apply N.
    + gorun. now apply N.
Qed.

Lemma tickSession_active now session child w :
  sess_IsActive (sessionAt (store w) session) = true ->
  result (GetChild (ChildID (sessionAt (store w) session))) w = Some child ->
  run (tickSession now session) w
  = run (enforce session child)
        (run (accrue now session child (minutesSince now (sessionAt (store w) session))) w).
Proof.
  intros Hact Hchild. unfold tickSession. gorun. rewrite Hact. simpl. gorun.
  rewrite result_GetChild in Hchild. rewrite Hchild. gorun. reflexivity.
Qed.

Lemma GetChild_own_id w id child :
  result (GetChild id) w = Some child ->
  firstWhere (childAt (store w))
    (fun c => String.eqb (ID c) (ID (childAt (store w) child))) (children (store w))
  = Some child.
Proof.
  rewrite result_GetChild. intro H.
  destruct (firstWhere_Some _ _ _ _ H) as [_ Hid]. apply String.eqb_eq in Hid.
  now rewrite Hid.
Qed.

(** One pass of the loop body over an active session whose child exists:
    the child's record and the session's time stamps afterwards. *)
Lemma tickSession_accrual now session child w :
  let st := store w in
  let s := sessionAt st session in
  let c := childAt st child in
  let m := minutesSince now s in
  let st' := store (run (tickSession now session) w) in
  sess_IsActive s = true ->
  result (GetChild (ChildID s)) w = Some child ->
  children st' = children st
  /\ childAt st' = (if 0 <? m then upd (childAt st) child
                                     (set_usage c (int_add (UsedTodayMin c) m) now)
                    else childAt st)
  /\ LastTickAt (sessionAt st' session) = (if 0 <? m then now else LastTickAt s)
  /\ StartedAt (sessionAt st' session) = StartedAt s
  /\ ChildID (sessionAt st' session) = ChildID s.
Proof.
  intros st s c m st' Hact Hchild. subst st'.
  rewrite (tickSession_active now session child w Hact Hchild). fold st s m.
  destruct (accrue_store now session child m w (GetChild_own_id _ _ _ Hchild))
    as (_ & Hcs & Hc & Hs & _ & _ & _).
  destruct (enforce_store session child (run (accrue now session child m) w))
    as (_ & Ecs & Ec & _ & new & _ & Es).
  cbv zeta in *. fold st in Hcs, Hc, Hs. rewrite Ecs, Ec, Hcs, Hc.
  split; [reflexivity|]. split; [reflexivity|].
  assert (T : forall s0, LastTickAt (set_IsActive s0 false) = LastTickAt s0
                         /\ StartedAt (set_IsActive s0 false) = StartedAt s0
                         /\ ChildID (set_IsActive s0 false) = ChildID s0) by (intro; auto).
  destruct Es as [(Es & _)|(Es & _)]; rewrite Es, ?upd_same, Hs;
    destruct (0 <? m); rewrite ?upd_same; fold s; auto.
Qed.

Lemma int_add_exact a b : minInt <= a + b <= maxInt -> int_add a b = a + b.
Proof.
  unfold int_add, wrap, minInt, maxInt. intro H.
  rewrite Z.mod_small; lia.
Qed.

(** ** The credential-submission handler (first revision) *)

Lemma AuthenticateChild_reads_only username password w :
  run (AuthenticateChild username password) w = w.
Proof.
  unfold AuthenticateChild, GetChildByUsername, CheckPassword, getEnv, readChild, getStore,
    run, bind, ret. simpl.
  destruct (firstWhere _ _ _); simpl; [|reflexivity].
  destruct (bcrypt_matches _ _ _); simpl; [|reflexivity].
  destruct (IsActive _); reflexivity.
Qed.

Lemma scheduleForbids_reads_only child w :
  store (run (Fas.scheduleForbids child) w) = store w
  /\ trace (run (Fas.scheduleForbids child) w) = trace w
  /\ env (run (Fas.scheduleForbids child) w) = env w.
Proof.
  unfold Fas.scheduleForbids, GetSchedule, time_Now, ask, readChild, getStore, run, bind, ret.
  simpl. destruct (negb _); simpl; auto.
  destruct (findSchedule _ _); simpl; auto.
Qed.

Lemma quotaView_remaining c c' :
  quotaView c' = quotaView c -> RemainingMinutes c' = RemainingMinutes c.
Proof.
  unfold quotaView, RemainingMinutes. intro H. injection H as _ _ Hq Hu.
  now rewrite Hq, Hu.
Qed.

Lemma AddDevice_quotaView c mac name seen :
  quotaView (AddDevice c mac name seen) = quotaView c.
Proof. unfold AddDevice. now destruct (HasDevice c mac). Qed.

Lemma discoverDevice_world child mac name w :
  let w' := run (Fas.discoverDevice child mac name) w in
  trace w' = trace w /\ env w' = env w
  /\ sessionAt (store w') = sessionAt (store w)
  /\ sessions (store w') = sessions (store w)
  /\ schedules (store w') = schedules (store w)
  /\ forall q, quotaView (childAt (store w') q) = quotaView (childAt (store w) q).
Proof.
  unfold Fas.discoverDevice, SaveChild, saveFile_children, time_Now, ask, readChild,
    writeChild, getStore, putStore, run, bind, ret. simpl.
  destruct (negb (HasDevice _ _)); simpl; [|auto 7].
  destruct (write_fails _ _); simpl; repeat split; auto;
    intro q; unfold upd; destruct (Nat.eqb q child) eqn:E; auto;
    apply Nat.eqb_eq in E; subst q; apply AddDevice_quotaView.
Qed.

(** What the new session record does to a world. *)
Lemma openSession_world req child w :
  let w' := run (Fas.openSession req child) w in
  let fresh := freshPtr (sessions (store w)) in
  let s := mkSession (rand_hex (env w) (step w)) (ID (childAt (store w) child))
             (Name (childAt (store w) child)) (req_MAC req) (req_IP req)
             (now_at (env w) (S (step w))) zeroTime true "" in
  childAt (store w') = childAt (store w)
  /\ children (store w') = children (store w)
  /\ schedules (store w') = schedules (store w)
  /\ sessionAt (store w') = upd (sessionAt (store w)) fresh s
  /\ sessions (store w')
     = upsert (upd (sessionAt (store w)) fresh s)
         (fun x => String.eqb (sess_ID x) (rand_hex (env w) (step w))) fresh
         (sessions (store w))
  /\ trace w' = trace w /\ env w' = env w.
Proof.
  unfold Fas.openSession, Fas.newSession, GenerateID, SaveSession, saveFile_sessions,
    time_Now, ask, readChild, readSession, writeSession, getStore, putStore,
    run, result, bind, ret.
  cbn [store trace step env childAt sessionAt sessions children schedules fst snd].
  rewrite !upd_same. cbn [sess_ID].
  destruct (write_fails (env w) (S (S (step w))));
    cbn [store trace step env childAt sessionAt sessions children schedules fst snd];
    repeat split; reflexivity.
Qed.

(** What the authorize call does to a world: the session length is the
    remaining time the child's record shows at that moment. *)
Lemma authorize_world req child w :
  let w' := run (Fas.authorize req child) w in
  store w' = store w /\ env w' = env w
  /\ (exists log,
        trace w' = (log ++ NdsAuth (req_MAC req) (RemainingMinutes (childAt (store w) child)) 0 0
                        :: trace w)%list
        /\ (log = [] \/ log = [Logged "ndsctl auth error"]))
  /\ result (Fas.authorize req child) w
     = (if negb (String.eqb (req_OriginURL req) "")
           && negb (String.eqb (req_OriginURL req) "null")
        then RespRedirect (req_OriginURL req) StatusFound
        else RespSuccessPage (Name (childAt (store w) child))
               (RemainingMinutes (childAt (store w) child))).
Proof.
  unfold Fas.authorize, Auth, log_Printf, emit, ask, readChild, getStore, run, result, bind, ret.
  cbn [store trace step env fst snd].
  destruct (exec_fails (env w) (step w)); cbn [store trace step env fst snd];
    destruct (negb (String.eqb (req_OriginURL req) "")
              && negb (String.eqb (req_OriginURL req) "null"));
    cbn [store trace step env fst snd]; repeat split;
    first [ exists []; split; [reflexivity | now left]
          | exists [Logged "ndsctl auth error"]; split; [reflexivity | now right] ].
Qed.


(** The two ways a submission ends: refused, with the store and the trace
    untouched and nobody else given the floor; or accepted: the session is
    saved (the world is then [w1]), the other goroutines act, and the
    authorize call carries the remaining minutes of the child as they are
    then. *)
Lemma HandleAuthAmid_outcome others r w :
  let w' := run (Fas.HandleAuthAmid others r) w in
  (trace w' = trace w /\ store w' = store w)
  \/ exists req child w1 n log,
       String.eqb (Method r) "POST" = true
       /\ submitted r = Some req
       /\ result (AuthenticateChild (req_Username req) (req_Password req)) w = inl child
       /\ 0 < RemainingMinutes (childAt (store w) child)
       /\ result (Fas.scheduleForbids child) w = false
       /\ (forall q, quotaView (childAt (store w1) q) = quotaView (childAt (store w) q))
       /\ schedules (store w1) = schedules (store w)
       /\ trace w1 = trace w /\ env w1 = env w
       /\ (let fresh := freshPtr (sessions (store w)) in
           let id := rand_hex (env w) n in
           let s := mkSession id (ID (childAt (store w) child)) (Name (childAt (store w) child))
                      (req_MAC req) (req_IP req) (now_at (env w) (S n)) zeroTime true "" in
           sessionAt (store w1) = upd (sessionAt (store w)) fresh s
           /\ sessions (store w1)
              = upsert (upd (sessionAt (store w)) fresh s)
                  (fun x => String.eqb (sess_ID x) id) fresh (sessions (store w)))
       /\ (let w2 := run others w1 in
           store w' = store w2 /\ env w' = env w2
           /\ trace w'
              = (log ++ NdsAuth (req_MAC req) (RemainingMinutes (childAt (store w2) child)) 0 0
                     :: trace w2)%list
           /\ (log = [] \/ log = [Logged "ndsctl auth error"])
           /\ result (Fas.HandleAuthAmid others r) w
              = (if negb (String.eqb (req_OriginURL req) "")
                    && negb (String.eqb (req_OriginURL req) "null")
                 then RespRedirect (req_OriginURL req) StatusFound
                 else RespSuccessPage (Name (childAt (store w2) child))
                        (RemainingMinutes (childAt (store w2) child)))).
Proof.
  intro w'. subst w'. unfold Fas.HandleAuthAmid.
  destruct (String.eqb (Method r) "POST") eqn:Hm; cbn [negb]; [|left; split; reflexivity].
  fold (submitted r). destruct (submitted r) as [req|] eqn:Hreq; [|left; split; reflexivity].
  rewrite run_bind, result_bind, AuthenticateChild_reads_only.
  destruct (result (AuthenticateChild (req_Username req) (req_Password req)) w)
    as [child|err] eqn:Hauth; [|left; split; reflexivity].
  rewrite run_bind, result_bind, run_readChild, result_readChild.
  destruct (Z.leb_spec (RemainingMinutes (childAt (store w) child)) 0) as [Hno|Hpos];
    [left; split; reflexivity|].
  rewrite run_bind, result_bind.
  destruct (scheduleForbids_reads_only child w) as (Hs2 & Ht2 & He2).
  set (w2 := run (Fas.scheduleForbids child) w) in *.
  destruct (result (Fas.scheduleForbids child) w) eqn:Hsched; [left; rewrite run_ret; auto|].
  rewrite run_bind, result_bind.
  destruct (discoverDevice_world child (req_MAC req) "Auto-discovered device" w2)
    as (Ht3 & He3 & Hsa3 & Hss3 & Hsc3 & Hq3).
  set (w3 := run (Fas.discoverDevice child (req_MAC req) "Auto-discovered device") w2) in *.
  assert (Hq : forall q, quotaView (childAt (store w3) q) = quotaView (childAt (store w) q))
    by (intro q; rewrite Hq3, Hs2; reflexivity).
  assert (Hid : ID (childAt (store w3) child) = ID (childAt (store w) child))
    by (specialize (Hq child); unfold quotaView in Hq; congruence).
  assert (Hname : Name (childAt (store w3) child) = Name (childAt (store w) child))
    by (specialize (Hq child); unfold quotaView in Hq; congruence).
  clearbody w2 w3.
  unfold Fas.grantAccessAmid. rewrite !run_bind, !result_bind.
  destruct (openSession_world req child w3) as (Oc & Ocs & Osc & Osa & Oss & Ot & Oe).
  set (w1 := run (Fas.openSession req child) w3) in *.
  destruct (authorize_world req child (run others w1)) as (As & Ae & (log & At & Alog) & Ar).
  cbv zeta in *.
  right. exists req, child, w1, (step w3), log.
  split; [reflexivity|]. split; [reflexivity|]. split; [exact Hauth|]. split; [assumption|].
  split; [exact Hsched|].
  split; [intro q; rewrite Oc; apply Hq|].
  split; [rewrite Osc, Hsc3, Hs2; reflexivity|].
  split; [rewrite Ot, Ht3, Ht2; reflexivity|].
  split; [rewrite Oe, He3, He2; reflexivity|].
  split.
  - rewrite Osa, Oss, Hid, Hname, Hsa3, Hss3, He3, He2, Hs2. split; reflexivity.
  - split; [exact As|]. split; [exact Ae|]. split; [exact At|]. split; [exact Alog|exact Ar].
Qed.

(** With no other goroutine at work: one authorize call for the remaining
    minutes of the child as they were when the submission came in. *)
Lemma HandleAuth_outcome r w :
  let w' := run (Fas.HandleAuth r) w in
  (trace w' = trace w /\ store w' = store w)
  \/ exists req child n started log,
       String.eqb (Method r) "POST" = true
       /\ submitted r = Some req
       /\ result (AuthenticateChild (req_Username req) (req_Password req)) w = inl child
       /\ 0 < RemainingMinutes (childAt (store w) child)
       /\ (forall q, quotaView (childAt (store w') q) = quotaView (childAt (store w) q))
       /\ trace w'
          = (log ++ NdsAuth (req_MAC req) (RemainingMinutes (childAt (store w) child)) 0 0
                 :: trace w)%list
       /\ (log = [] \/ log = [Logged "ndsctl auth error"])
       /\ let fresh := freshPtr (sessions (store w)) in
          let id := rand_hex (env w) n in
          let s := mkSession id (ID (childAt (store w) child)) (Name (childAt (store w) child))
                     (req_MAC req) (req_IP req) started zeroTime true "" in
          sessionAt (store w') = upd (sessionAt (store w)) fresh s
          /\ sessions (store w')
             = upsert (upd (sessionAt (store w)) fresh s)
                 (fun x => String.eqb (sess_ID x) id) fresh (sessions (store w)).
Proof.
  intro w'. subst w'. unfold Fas.HandleAuth.
  destruct (HandleAuthAmid_outcome (ret tt) r w)
    as [Hno|(req & child & w1 & n & log & Hm & Hreq & Hauth & Hpos & _ & Hq & _
             & Ht1 & _ & (Hsa & Hss) & Hs & _ & Ht & Hlog & _)]; [now left|].
  cbv zeta in *. rewrite run_ret in *.
  right. exists req, child, n, (now_at (env w) (S n)), log.
  rewrite Hs, Ht, Ht1, (quotaView_remaining _ _ (Hq child)). auto 10.
Qed.



(** With no other goroutine at work while the handler runs: whatever the
    submission, every authorize call the handler issues carries the
    submitted MAC, no bandwidth limits, and a session length that is the
    authenticated child's [RemainingMinutes()] (before and after the
    request alike) and strictly positive; a login whose
    [RemainingMinutes()] is 0 or less ends in the "no time remaining" error
    redirect with no call made and nothing changed. *)
Lemma uninterrupted_HandleAuth_authorizes_positive_remaining :
  forall (r : Request) (w : World),
    let w' := run (Fas.HandleAuth r) w in
    exists new : list Event,
      trace w' = (new ++ trace w)%list
      /\ (forall mac m u d,
            In (NdsAuth mac m u d) new ->
            exists req child,
              submitted r = Some req
              /\ result (AuthenticateChild (req_Username req) (req_Password req)) w
                 = inl child
              /\ mac = req_MAC req
              /\ m = RemainingMinutes (childAt (store w) child)
              /\ m = RemainingMinutes (childAt (store w') child)
              /\ 0 < m /\ u = 0 /\ d = 0)
      /\ (forall req child,
            String.eqb (Method r) "POST" = true ->
            submitted r = Some req ->
            result (AuthenticateChild (req_Username req) (req_Password req)) w = inl child ->
            RemainingMinutes (childAt (store w) child) <= 0 ->
            Fas.HandleAuth r w
            = (RespRedirect (errorURL req "No time remaining for today") StatusFound, w)).
Proof.
  intros r w w'. subst w'.
  assert (Hreject : forall req child,
            String.eqb (Method r) "POST" = true ->
            submitted r = Some req ->
            result (AuthenticateChild (req_Username req) (req_Password req)) w = inl child ->
            RemainingMinutes (childAt (store w) child) <= 0 ->
            Fas.HandleAuth r w
            = (RespRedirect (errorURL req "No time remaining for today") StatusFound, w)).
  { intros req child Hm Hreq Hauth Hno. unfold Fas.HandleAuth, Fas.HandleAuthAmid.
    rewrite Hm. simpl.
    fold (submitted r). rewrite Hreq. rewrite bind_unfold.
    fold (result (AuthenticateChild (req_Username req) (req_Password req)) w).
    fold (run (AuthenticateChild (req_Username req) (req_Password req)) w).
    rewrite Hauth, AuthenticateChild_reads_only, bind_unfold. simpl.
    destruct (Z.leb_spec (RemainingMinutes (childAt (store w) child)) 0); [reflexivity|lia]. }
  destruct (HandleAuth_outcome r w) as [(Ht & _)|Hok].
  - exists []. split; [assumption|]. split; [intros ? ? ? ? []|assumption].
  - destruct Hok as (req & child & n & started & log & _ & Hreq & Hauth & Hpos & Hq & Ht
                     & Hlog & _).
    exists (log ++ [NdsAuth (req_MAC req) (RemainingMinutes (childAt (store w) child)) 0 0])%list.
    split; [now rewrite <- app_assoc|]. split; [|assumption].
    intros mac m u d Hin. exists req, child.
    assert (E : NdsAuth mac m u d
                = NdsAuth (req_MAC req) (RemainingMinutes (childAt (store w) child)) 0 0).
    { apply in_app_or in Hin as [Hin|[Hin|[]]]; [|now symmetry].
      destruct Hlog as [-> | ->]; [destruct Hin|].
      destruct Hin as [Hin|[]]. discriminate. }
    injection E as -> -> -> ->.
    rewrite (quotaView_remaining _ _ (Hq child)). auto 10.
Qed.

(** C2, the claim against the code.  The kid has one of ten minutes left
    and is online on the tablet; the login from the phone passes the test
    of [RemainingMinutes()] and the session is saved.  Then the
    reconciliation loop has its turn: the tick counts the minute of the
    tablet's session, the child is at its quota, and the tick revokes both
    sessions, the new one included.  The handler goes on, reads
    [RemainingMinutes()] again and calls the controller with session
    length 0, which means no limit: the phone is authorized for good, and
    since its session is inactive no later tick revokes it.  The later
    revision of the handler does the same.  With the loop idle the call is
    for the one minute left.  The code means otherwise: the handler turns
    away a child with nothing left before it saves anything, [Auth]
    documents session length 0 as unlimited, and only the administrator's
    login asks for it.  (Traces list the most recent event first.) *)
Theorem login_during_a_tick_is_authorized_without_limit :
  RemainingMinutes (childAt (store Household.nearly_spent) 0%nat) = 1
  /\ actions (trace (run (Fas.HandleAuth (Household.login "kid" "secret"))
                       Household.nearly_spent))
     = [NdsAuth Household.phone 1 0 0]
  /\ actions (trace (run (Fas.HandleAuthAmid tick (Household.login "kid" "secret"))
                       Household.nearly_spent))
     = [NdsAuth Household.phone 0 0 0; NdsDeauth Household.phone; NdsDeauth Household.tablet]
  /\ result (Fas.HandleAuthAmid tick (Household.login "kid" "secret")) Household.nearly_spent
     = RespSuccessPage "Kid" 0
  /\ activeSessions
       (store (run (Fas.HandleAuthAmid tick (Household.login "kid" "secret"))
                 Household.nearly_spent))
     = []
  /\ actions (trace (run tick
                       (run (Fas.HandleAuthAmid tick (Household.login "kid" "secret"))
                          Household.nearly_spent)))
     = [NdsAuth Household.phone 0 0 0; NdsDeauth Household.phone; NdsDeauth Household.tablet]
  /\ actions (trace (run (FasRevised.HandleAuthAmid Household.gateway tick
                            (Household.login "kid" "secret"))
                       Household.nearly_spent))
     = [NdsAuth Household.phone 0 0 0; Slept 50; NdsDeauth Household.phone;
        NdsDeauth Household.phone; NdsDeauth Household.tablet].
Proof. vm_compute. repeat split. Qed.

(** ** Enforcement over a whole tick *)

Lemma upd_field {A B : Type} (f : A -> B) (h : ptr -> A) p v q :
  f v = f (h p) -> f (upd h p v q) = f (h q).
Proof.
  intro H. unfold upd. destruct (Nat.eqb q p) eqn:E; [|reflexivity].
  apply Nat.eqb_eq in E. now subst q.
Qed.

Lemma tickSession_step now p w : step_post p w (run (tickSession now p) w).
Proof.
  destruct (sess_IsActive (sessionAt (store w) p)) eqn:Hact.
  2:{ (* the session is skipped *)
    assert (E : run (tickSession now p) w = w)
      by (unfold tickSession; gorun; rewrite Hact; reflexivity).
    rewrite E. unfold step_post. repeat split; auto.
    - intro H. congruence.
    - exists []. split; auto. congruence. }
  destruct (owner (store w) p) as [child|] eqn:Hown.
  - (* the child exists: accrual, then the checks *)
    rewrite (tickSession_active now p child w Hact Hown).
    set (m := minutesSince now (sessionAt (store w) p)).
    destruct (accrue_store now p child m w (GetChild_own_id _ _ _ Hown))
      as (_ & Hcs & Hc & Hs & Hincl & _ & Ht).
    set (wa := run (accrue now p child m) w) in *.
    destruct (enforce_store p child wa) as (_ & Ecs & Ec & Eincl & new & Et & Es).
    set (w1 := run (enforce p child) wa) in *. cbv zeta in *.
    assert (Sa : forall q, ChildID (sessionAt (store wa) q) = ChildID (sessionAt (store w) q)
                           /\ MAC (sessionAt (store wa) q) = MAC (sessionAt (store w) q)
                           /\ sess_IsActive (sessionAt (store wa) q)
                              = sess_IsActive (sessionAt (store w) q)).
    { intro q. rewrite Hs. destruct (0 <? m); auto.
      repeat split; apply upd_field; reflexivity. }
    unfold step_post. rewrite Ecs, Ec, Hcs.
    split; [reflexivity|]. split.
    { intro q. rewrite Hc. destruct (0 <? m); auto.
      split; apply upd_field; reflexivity. }
    split.
    { intros c Hc'. rewrite Hc. destruct (0 <? m); auto.
      apply upd_other. intros ->. now apply Hc'. }
    split.
    { intro q. destruct (Sa q) as (S1 & S2 & S3). rewrite <- S1, <- S2, <- S3.
      destruct Es as [(Es & _)|(Es & _)]; rewrite Es; auto.
      repeat split; try (apply upd_field; reflexivity).
      unfold upd. destruct (Nat.eqb q p); auto. simpl. discriminate. }
    split.
    { intros q Hq. destruct Es as [(Es & _)|(Es & _)]; rewrite Es, ?(upd_other _ _ _ _ Hq), Hs;
        destruct (0 <? m); auto; now apply upd_other. }
    split.
    { intros q Hq. destruct (Eincl q Hq) as [->|Hq']; auto. }
    split.
    { intro Hact1. exists child. split; [exact Hown|].
      destruct Es as [(Es & Hlt)|(Es & _)]; [assumption|].
      rewrite Es, upd_same in Hact1. discriminate. }
    exists new. rewrite Et, Ht. split; [reflexivity|].
    intros _ Hoff. destruct Es as [(Es & _)|(Es & Hin)].
    + rewrite Es in Hoff. destruct (Sa p) as (_ & _ & S3). congruence.
    + destruct (Sa p) as (_ & S2 & _). now rewrite <- S2.
  - (* the child is gone: the session is revoked *)
    assert (E : run (tickSession now p) w = run (deauthSession p "child_deleted") w).
    { unfold tickSession. gorun. rewrite Hact. simpl. gorun. fold (owner (store w) p).
      now rewrite Hown. }
    rewrite E.
    destruct (deauthSession_store p "child_deleted" w) as (Hh & Hl & Hc & Hcs & _ & new & Ht & Hin).
    unfold step_post. rewrite Hh, Hl, Hc, Hcs.
    repeat split; auto; try (apply upd_field; reflexivity).
    + unfold upd. destruct (Nat.eqb q p); auto. simpl. discriminate.
    + intros q Hq. now apply upd_other.
    + intros q Hq. eapply upsert_incl; eauto.
    + rewrite upd_same. discriminate.
    + exists new. auto.
Qed.

Lemma owner_stable st st1 q :
  children st1 = children st ->
  (forall c, ID (childAt st1 c) = ID (childAt st c)) ->
  ChildID (sessionAt st1 q) = ChildID (sessionAt st q) ->
  owner st1 q = owner st q.
Proof.
  intros Hcs Hid Hq. unfold owner. rewrite Hcs, Hq.
  apply firstWhere_ext. intros c _. now rewrite Hid.
Qed.

Lemma owner_id st p c : owner st p = Some c -> ID (childAt st c) = ChildID (sessionAt st p).
Proof.
  intro H. destruct (firstWhere_Some _ _ _ _ H) as [_ E]. now apply String.eqb_eq in E.
Qed.

Lemma forRange_cons {A : Type} (a : A) l body w :
  run (forRange (a :: l) body) w = run (forRange l body) (run (body a) w).
Proof. simpl. now rewrite run_bind. Qed.

Lemma tick_loop_frame now l : forall w, loop_post l w (run (forRange l (tickSession now)) w).
Proof.
  induction l as [|p rest IH]; intro w.
  - simpl. rewrite run_ret. unfold loop_post.
    do 6 (split; [auto|]). exists []. split; [reflexivity|]. intros p [].
  - rewrite forRange_cons.
    destruct (tickSession_step now p w) as (Scs & Sid & Sc & Ss & Sother & Sincl & _ & new1 & St & Sd).
    set (w1 := run (tickSession now p) w) in *.
    destruct (IH w1) as (Lcs & Lid & Lc & Ls & Lother & Lincl & new2 & Lt & Ld).
    set (w' := run (forRange rest (tickSession now)) w1) in *. cbv zeta in *.
    assert (Hown : forall q, owner (store w1) q = owner (store w) q).
    { intro q. apply owner_stable; auto; [intro c; apply Sid | apply Ss]. }
    unfold loop_post. split; [congruence|]. split.
    { intro q. destruct (Sid q), (Lid q). split; congruence. }
    split.
    { intros c Hc. rewrite Lc.
      - apply Sc. intro Hact. apply Hc; simpl; auto.
      - intros q Hq Hact. rewrite Hown. apply Hc; simpl; auto. now apply Ss. }
    split.
    { intro q. destruct (Ss q) as (S1 & S2 & S3), (Ls q) as (L1 & L2 & L3).
      repeat split; try congruence. auto. }
    split.
    { intros q Hq. rewrite Lother, Sother; auto; simpl in Hq; intuition. }
    split.
    { intros q Hq. simpl. destruct (Lincl q Hq) as [H|H]; auto.
      destruct (Sincl q H) as [->|H']; auto. }
    exists (new2 ++ new1)%list. split; [rewrite Lt, St; now rewrite app_assoc|].
    intros q Hq Hact Hoff. apply in_or_app.
    destruct (sess_IsActive (sessionAt (store w1) q)) eqn:Hact1.
    + (* still active after the pass over [p]: revoked later, as a member of [rest] *)
      left. destruct (in_dec Nat.eq_dec q rest) as [Hin|Hnin].
      * destruct (Ss q) as (_ & S2 & _). rewrite <- S2. now apply Ld.
      * rewrite (Lother q Hnin) in Hoff. congruence.
    + right. destruct (Nat.eq_dec q p) as [->|Hne]; [now apply Sd|].
      rewrite (Sother q Hne) in Hact1. congruence.
Qed.


Lemma checkDailyReset_frame now w :
  let w' := run (checkDailyReset now) w in
  sessionAt (store w') = sessionAt (store w)
  /\ sessions (store w') = sessions (store w)
  /\ children (store w') = children (store w)
  /\ (forall c, ID (childAt (store w') c) = ID (childAt (store w) c))
  /\ exists new, trace w' = (new ++ trace w)%list
                 /\ forall mac, ~ In (NdsDeauth mac) new.
Proof.
  unfold checkDailyReset, ListChildren, ResetDailyQuotas, saveFile_children, log_Printf,
    emit, run, result, ask, getStore, putStore, bind, ret. simpl.
  destruct (anyStale _ _ _); simpl.
  - assert (Hid : forall c, ID (resetAll (Format_date now) (children (store w))
                                  (childAt (store w)) c) = ID (childAt (store w) c)).
    { intro c. rewrite resetAll_spec. now destruct (in_dec _ _ _). }
    destruct (write_fails _ _); simpl; repeat split; auto;
      exists [Logged "Resetting daily quotas"]; (split; [reflexivity|]);
      intros mac [H|[]]; discriminate.
  - repeat split; auto. exists []. split; auto.
Qed.


(** ** Accrual over a whole tick *)

Lemma tickSession_orphan now p w :
  sess_IsActive (sessionAt (store w) p) = true ->
  owner (store w) p = None ->
  run (tickSession now p) w = run (deauthSession p "child_deleted") w.
Proof.
  intros Hact Hown. unfold tickSession. gorun. rewrite Hact. simpl. gorun.
  fold (owner (store w) p). now rewrite Hown.
Qed.

Lemma set_usage_same c : set_usage c (UsedTodayMin c) (UpdatedAt c) = c.
Proof. now destruct c. Qed.

(** One pass of the loop body changes of a child at most the usage and the
    time of the update. *)
Lemma tickSession_untouched now p w q :
  exists used t,
    childAt (store (run (tickSession now p) w)) q = set_usage (childAt (store w) q) used t.
Proof.
  assert (Same : forall w', childAt (store w') q = childAt (store w) q ->
            exists used t, childAt (store w') q = set_usage (childAt (store w) q) used t).
  { intros w' E. exists (UsedTodayMin (childAt (store w) q)), (UpdatedAt (childAt (store w) q)).
    now rewrite set_usage_same. }
  destruct (sess_IsActive (sessionAt (store w) p)) eqn:Hact.
  2:{ apply Same. unfold tickSession. gorun. rewrite Hact. reflexivity. }
  destruct (owner (store w) p) as [child|] eqn:Hown.
  - destruct (tickSession_accrual now p child w Hact Hown) as (_ & Hc & _).
    cbv zeta in Hc. rewrite Hc.
    destruct (0 <? minutesSince now (sessionAt (store w) p)); [|now apply Same].
    unfold upd. destruct (Nat.eqb q child) eqn:E; [|now apply Same].
    apply Nat.eqb_eq in E. subst q. eauto.
  - rewrite (tickSession_orphan now p w Hact Hown).
    destruct (deauthSession_store p "child_deleted" w) as (_ & _ & Hc & _).
    apply Same. now rewrite Hc.
Qed.

Lemma tick_loop_untouched now l : forall w q,
  exists used t,
    childAt (store (run (forRange l (tickSession now)) w)) q
    = set_usage (childAt (store w) q) used t.
Proof.
  induction l as [|p rest IH]; intros w q.
  - simpl. rewrite run_ret. exists (UsedTodayMin (childAt (store w) q)), (UpdatedAt (childAt (store w) q)).
    now rewrite set_usage_same.
  - rewrite forRange_cons.
    destruct (IH (run (tickSession now p) w) q) as (u2 & t2 & E2).
    destruct (tickSession_untouched now p w q) as (u1 & t1 & E1).
    exists u2, t2. now rewrite E2, E1.
Qed.

Lemma accruals_cons now st c p rest :
  accruals now st c (p :: rest)
  = ((if ownedBy st c p && (0 <? minutesSince now (sessionAt st p))
      then [minutesSince now (sessionAt st p)] else []) ++ accruals now st c rest)%list.
Proof.
  unfold accruals. cbn [filter]. destruct (ownedBy st c p); cbn [andb map filter]; [|reflexivity].
  now destruct (0 <? minutesSince now (sessionAt st p)).
Qed.

Lemma accruals_ext now st st1 c l :
  (forall q, In q l -> sessionAt st1 q = sessionAt st q) ->
  (forall q, owner st1 q = owner st q) ->
  accruals now st1 c l = accruals now st c l.
Proof.
  intros Hs Ho. induction l as [|p rest IH]; [reflexivity|].
  rewrite !accruals_cons. unfold ownedBy. rewrite Ho, Hs by (simpl; auto).
  rewrite IH; [reflexivity|]. intros q Hq. apply Hs. simpl. auto.
Qed.

(** The loop over sessions at pairwise different addresses, all active:
    every child ends with the accruals of its sessions added to its usage,
    and every session with its time stamps as its own pass left them. *)
Lemma tick_loop_accrual now l : forall w,
  NoDup l ->
  (forall p, In p l -> sess_IsActive (sessionAt (store w) p) = true) ->
  let w' := run (forRange l (tickSession now)) w in
  (forall c, childAt (store w') c
             = match accruals now (store w) c l with
               | [] => childAt (store w) c
               | _ :: _ =>
                   set_usage (childAt (store w) c)
                     (accrued (UsedTodayMin (childAt (store w) c)) (accruals now (store w) c l))
                     now
               end)
  /\ (forall p, In p l ->
        StartedAt (sessionAt (store w') p) = StartedAt (sessionAt (store w) p)
        /\ LastTickAt (sessionAt (store w') p)
           = if match owner (store w) p with
                | Some _ => 0 <? minutesSince now (sessionAt (store w) p)
                | None => false
                end
             then now else LastTickAt (sessionAt (store w) p)).
Proof.
  induction l as [|p rest IH]; intros w Hnd Hact w'; subst w'.
  - simpl. rewrite run_ret. split; [reflexivity|intros p []].
  - rewrite forRange_cons.
    destruct (tickSession_step now p w) as (Scs & Sid & Sc & Ss & Sother & _).
    set (w1 := run (tickSession now p) w) in *. cbv zeta in *.
    inversion Hnd as [|? ? Hfresh Hnd']; subst.
    assert (Hne : forall q, In q rest -> q <> p) by (intros q Hq ->; contradiction).
    assert (Hact1 : forall q, In q rest -> sess_IsActive (sessionAt (store w1) q) = true).
    { intros q Hq. rewrite (Sother q (Hne q Hq)). apply Hact. simpl. auto. }
    destruct (IH w1 Hnd' Hact1) as (IHc & IHs). cbv zeta in *.
    assert (Hown : forall q, owner (store w1) q = owner (store w) q).
    { intro q. apply owner_stable; auto; [intro c; apply Sid | apply Ss]. }
    assert (Hacc : forall c, accruals now (store w1) c rest = accruals now (store w) c rest).
    { intro c. apply accruals_ext; auto. }
    assert (Hp : sess_IsActive (sessionAt (store w) p) = true) by (apply Hact; simpl; auto).
    destruct (tick_loop_frame now rest w1) as (_ & _ & _ & _ & Lother & _). cbv zeta in Lother.
    split.
    + intro c. rewrite IHc, Hacc, accruals_cons. unfold ownedBy.
      destruct (owner (store w) p) as [child|] eqn:Hown_p.
      * destruct (tickSession_accrual now p child w Hp Hown_p) as (_ & Hc & _).
        cbv zeta in Hc. fold w1 in Hc. rewrite Hc.
        set (m := minutesSince now (sessionAt (store w) p)).
        destruct (Nat.eqb_spec child c) as [->|Hcc]; cbn [andb].
        -- destruct (0 <? m); cbn [app]; [|reflexivity].
           rewrite upd_same.
           destruct (accruals now (store w) c rest) as [|z A]; reflexivity.
        -- cbn [app]. destruct (0 <? m); [|reflexivity].
           rewrite upd_other by congruence. reflexivity.
      * cbn [app]. rewrite (Sc c); [reflexivity|]. intros _. congruence.
    + intros q [<-|Hq].
      * rewrite (Lother p Hfresh).
        destruct (owner (store w) p) as [child|] eqn:Hown_p.
        -- destruct (tickSession_accrual now p child w Hp Hown_p) as (_ & _ & Hlast & Hstart & _).
           cbv zeta in Hlast, Hstart. fold w1 in Hlast, Hstart. auto.
        -- unfold w1. rewrite (tickSession_orphan now p w Hp Hown_p).
           destruct (deauthSession_store p "child_deleted" w) as (Hh & _).
           cbv zeta in Hh. rewrite Hh, upd_same. auto.
      * destruct (IHs q Hq) as (E1 & E2). rewrite E1, E2, Hown, (Sother q (Hne q Hq)). auto.
Qed.

(** The file children.json through a pass: the revocation and the checks
    leave it alone, and an accrual whose write succeeds brings it up to
    date. *)
Lemma deauthSession_file session reason w :
  env (run (deauthSession session reason) w) = env w
  /\ children_json (store (run (deauthSession session reason) w)) = children_json (store w).
Proof.
  unfold deauthSession, run, Deauth, log_Printf, emit, ask, readSession, writeSession,
    SaveSession, saveFile_sessions, getStore, putStore, bind, ret. simpl.
  destruct (exec_fails (env w) (step w)); simpl;
    destruct (write_fails (env w) _); simpl; auto.
Qed.

Lemma enforce_file session child w :
  env (run (enforce session child) w) = env w
  /\ children_json (store (run (enforce session child) w)) = children_json (store w).
Proof.
  unfold enforce. gorun.
  assert (D : forall reason w0, env w0 = env w -> store w0 = store w ->
                env (run (deauthSession session reason) w0) = env w
                /\ children_json (store (run (deauthSession session reason) w0))
                   = children_json (store w)).
  { intros reason w0 E Es. destruct (deauthSession_file session reason w0) as (H1 & H2).
    now rewrite H1, H2, E, Es. }
  destruct (DailyQuotaMin _ <=? UsedTodayMin _); [now apply D|].
  destruct (negb (String.eqb (ScheduleID (childAt (store w) child)) "")); gorun; [|auto].
  destruct (findSchedule _ _) as [sched|]; gorun; [|auto].
  destruct (negb (IsAllowedNow sched _)); gorun; [now apply D|auto].
Qed.

Lemma accrue_file now session child m w :
  let w' := run (accrue now session child m) w in
  env w' = env w
  /\ ((0 <? m) = true -> write_fails (env w) (step w) = false ->
      children_json (store w') = map (childAt (store w')) (children (store w'))).
Proof.
  unfold accrue. destruct (0 <? m).
  - unfold run, SaveChild, SaveSession, saveFile_children, saveFile_sessions, ask,
      readChild, readSession, writeChild, writeSession, getStore, putStore, bind, ret.
    simpl. split.
    + destruct (write_fails (env w) (step w)); simpl;
        destruct (write_fails (env w) (S (step w))); reflexivity.
    + intros _ ->. simpl. destruct (write_fails (env w) (S (step w))); reflexivity.
  - split; [reflexivity|discriminate].
Qed.

Lemma tickSession_file now p w :
  (forall n, write_fails (env w) n = false) ->
  children_json (store w) = map (childAt (store w)) (children (store w)) ->
  let w' := run (tickSession now p) w in
  env w' = env w
  /\ children_json (store w') = map (childAt (store w')) (children (store w')).
Proof.
  intros Hw Hj w'. subst w'.
  destruct (sess_IsActive (sessionAt (store w) p)) eqn:Hact.
  2:{ assert (E : run (tickSession now p) w = w)
        by (unfold tickSession; gorun; rewrite Hact; reflexivity).
      rewrite E. auto. }
  destruct (owner (store w) p) as [child|] eqn:Hown.
  - rewrite (tickSession_active now p child w Hact Hown).
    set (m := minutesSince now (sessionAt (store w) p)).
    destruct (accrue_store now p child m w (GetChild_own_id _ _ _ Hown))
      as (_ & _ & _ & _ & _ & Hsame & _).
    destruct (accrue_file now p child m w) as (Ae & Aj).
    set (wa := run (accrue now p child m) w) in *.
    destruct (enforce_store p child wa) as (_ & Ecs & Ec & _).
    destruct (enforce_file p child wa) as (Ee & Ej).
    cbv zeta in *. rewrite Ee, Ej, Ecs, Ec. split; [assumption|].
    destruct (0 <? m) eqn:Hm.
    + apply Aj; auto.
    + rewrite (Hsame eq_refl). assumption.
  - rewrite (tickSession_orphan now p w Hact Hown).
    destruct (deauthSession_store p "child_deleted" w) as (_ & _ & Hc & Hcs & _).
    destruct (deauthSession_file p "child_deleted" w) as (He & Hjs).
    cbv zeta in *. now rewrite He, Hjs, Hc, Hcs.
Qed.

Lemma tick_loop_file now l : forall w,
  (forall n, write_fails (env w) n = false) ->
  children_json (store w) = map (childAt (store w)) (children (store w)) ->
  let w' := run (forRange l (tickSession now)) w in
  children_json (store w') = map (childAt (store w')) (children (store w')).
Proof.
  induction l as [|p rest IH]; intros w Hw Hj w'; subst w'.
  - simpl. now rewrite run_ret.
  - rewrite forRange_cons.
    destruct (tickSession_file now p w Hw Hj) as (He & Hj1).
    apply IH; [|assumption]. intro n. cbv zeta in He. rewrite He. apply Hw.
Qed.

(** A tick is the daily check at the instant of its clock reading, then
    the loop over the sessions that were active when it began. *)
Lemma tick_unfold w :
  let now := now_at (env w) (step w) in
  let w0 := mkWorld (store w) (trace w) (S (step w)) (env w) in
  run tick w = run (forRange (activeSessions (store w)) (tickSession now))
                   (run (checkDailyReset now) w0).
Proof.
  intros now w0. unfold tick. gorun. fold now w0.
  unfold ListSessions. gorun.
  destruct (checkDailyReset_frame now w0) as (Rsa & Rss & _). cbv zeta in *.
  unfold activeSessions at 1. now rewrite Rsa, Rss.
Qed.

Lemma existsb_eqb_In p l : existsb (Nat.eqb p) l = true <-> In p l.
Proof.
  rewrite existsb_exists. split.
  - intros (x & Hx & E). apply Nat.eqb_eq in E. now subst x.
  - intro H. exists p. split; [assumption|apply Nat.eqb_refl].
Qed.

(** The children after the daily check. *)
Lemma checkDailyReset_children now w p :
  childAt (store (run (checkDailyReset now) w)) p = recordAtStart now (store w) p.
Proof.
  unfold checkDailyReset, ListChildren, ResetDailyQuotas, saveFile_children, log_Printf,
    emit, run, result, ask, getStore, putStore, bind, ret, recordAtStart. simpl.
  destruct (anyStale _ _ _); cbn [andb]; [|reflexivity].
  destruct (write_fails (env w) (step w)); simpl; rewrite resetAll_spec;
    destruct (in_dec Nat.eq_dec p (children (store w))) as [Hin|Hnin];
    destruct (existsb (Nat.eqb p) (children (store w))) eqn:Ex; try reflexivity;
    try (apply existsb_eqb_In in Ex; contradiction);
    apply existsb_eqb_In in Hin; congruence.
Qed.


Lemma checkDailyReset_file now w :
  env (run (checkDailyReset now) w) = env w
  /\ (anyStale (childAt (store w)) (Format_date now) (children (store w)) = true ->
      write_fails (env w) (step w) = false ->
      children_json (store (run (checkDailyReset now) w))
      = map (childAt (store (run (checkDailyReset now) w)))
            (children (store (run (checkDailyReset now) w)))).
Proof.
  unfold checkDailyReset, ListChildren, ResetDailyQuotas, saveFile_children, log_Printf,
    emit, run, result, ask, getStore, putStore, bind, ret. simpl.
  destruct (anyStale _ _ _); simpl.
  - split; [now destruct (write_fails (env w) (step w))|].
    intros _ ->. reflexivity.
  - split; [reflexivity|discriminate].
Qed.

Lemma filter_only {A : Type} (f : A -> bool) x l :
  NoDup l -> In x l -> f x = true -> (forall q, In q l -> f q = true -> q = x) ->
  filter f l = [x].
Proof.
  induction l as [|a rest IH]; intros Hnd Hin Hx Honly; [destruct Hin|].
  inversion Hnd as [|? ? Hfresh Hnd']; subst. cbn [filter].
  assert (Hrest : forall q, In q rest -> f q = true -> q = x)
    by (intros q Hq; apply Honly; simpl; auto).
  destruct Hin as [->|Hin].
  - rewrite Hx. f_equal.
    assert (E : forall q, In q rest -> f q = false).
    { intros q Hq. destruct (f q) eqn:Fq; [|reflexivity].
      rewrite (Hrest q Hq Fq) in Hq. contradiction. }
    clear -E. induction rest as [|b rest IH]; [reflexivity|]. cbn [filter].
    rewrite E by (simpl; auto). apply IH. intros q Hq. apply E. simpl. auto.
  - destruct (f a) eqn:Fa.
    + assert (a = x) by (apply Honly; simpl; auto). subst a. contradiction.
    + now apply IH.
Qed.

(** What a tick makes of the children and of the time stamps of the
    sessions it processes. *)
Lemma tick_world w :
  let now := now_at (env w) (step w) in
  let st := store w in
  let l := activeSessions st in
  let w' := run tick w in
  children (store w') = children st
  /\ (forall c, exists used t,
        childAt (store w') c = set_usage (recordAtStart now st c) used t)
  /\ (forall c, (forall q, In q l -> owner st q <> Some c) ->
        childAt (store w') c = recordAtStart now st c)
  /\ (NoDup l ->
      (forall c, UsedTodayMin (childAt (store w') c)
                 = accrued (usageAtStart now st c) (accruals now st c l))
      /\ (forall p, In p l ->
            StartedAt (sessionAt (store w') p) = StartedAt (sessionAt st p)
            /\ LastTickAt (sessionAt (store w') p)
               = if match owner st p with
                    | Some _ => 0 <? minutesSince now (sessionAt st p)
                    | None => false
                    end
                 then now else LastTickAt (sessionAt st p)))
  /\ (anyStale (childAt st) (Format_date now) (children st) = true ->
      (forall n, write_fails (env w) n = false) ->
      children_json (store w') = map (childAt (store w')) (children (store w'))).
Proof.
  intros now st l w'. subst w'. rewrite tick_unfold. cbv zeta.
  set (w0 := mkWorld (store w) (trace w) (S (step w)) (env w)). fold now st l.
  destruct (checkDailyReset_frame now w0) as (Rsa & Rss & Rcs & Rid & _).
  destruct (checkDailyReset_file now w0) as (Re & Rj).
  pose proof (checkDailyReset_children now w0) as Rc.
  set (wr := run (checkDailyReset now) w0) in *. cbv zeta in *.
  change (store w0) with st in *. change (env w0) with (env w) in *.
  change (step w0) with (S (step w)) in *.
  assert (Hown : forall q, owner (store wr) q = owner st q).
  { intro q. apply owner_stable; auto. now rewrite Rsa. }
  assert (Hacc : forall c, accruals now (store wr) c l = accruals now st c l).
  { intro c. apply accruals_ext; auto. intros q _. now rewrite Rsa. }
  assert (Hact : forall p, In p l -> sess_IsActive (sessionAt (store wr) p) = true).
  { intros p Hp. rewrite Rsa. apply filter_In in Hp. tauto. }
  destruct (tick_loop_frame now l wr) as (Lcs & _ & Lc & _). cbv zeta in *.
  split; [rewrite Lcs, Rcs; reflexivity|]. split; [|split; [|split]].
  - intro c. destruct (tick_loop_untouched now l wr c) as (u & t & E).
    exists u, t. now rewrite E, Rc.
  - intros c Hc. rewrite Lc, Rc; [reflexivity|].
    intros p Hp _. rewrite Hown. now apply Hc.
  - intro Hnd. destruct (tick_loop_accrual now l wr Hnd Hact) as (Ac & As). cbv zeta in *.
    split.
    + intro c. rewrite Ac, Hacc, Rc. unfold usageAtStart.
      destruct (accruals now st c l); reflexivity.
    + intros p Hp. destruct (As p Hp) as (E1 & E2). now rewrite E1, E2, Hown, Rsa.
  - intros Hstale Hw. apply tick_loop_file.
    + intro n. rewrite Re. apply Hw.
    + apply Rj; auto.
Qed.


(** C3 (amended). A tick reads the clock once; let [now] be that reading.
    For a session that is active when the tick begins (the active sessions
    being at pairwise different addresses), whose child exists, and whose
    elapsed time since its reference instant (last_tick_at, or started_at
    when last_tick_at is the zero value) is not negative and below 262144
    minutes: the minutes the tick counts for it are the whole-minute floor
    of that time; after the tick the usage of every child is the usage the
    tick began with (0 after the daily reset) with the counts of its
    sessions added, so for a child with this session only it is that usage
    when the floor is 0 and that usage plus the floor otherwise; with floor
    0 the session's last_tick_at and reference instant stay, so a later
    tick counts the whole minutes since the same instant; with floor at
    least 1 last_tick_at becomes [now]. *)
Theorem tick_accrues_elapsed_whole_minutes :
  forall (w : World) (session child : ptr),
    let now := now_at (env w) (step w) in
    let st := store w in
    let s := sessionAt st session in
    let elapsed := instant now - instant (referenceInstant s) in
    let minutes := elapsed / Minute in
    let start := usageAtStart now st child in
    let w' := run tick w in
    NoDup (activeSessions st) ->
    In session (activeSessions st) ->
    owner st session = Some child ->
    0 <= elapsed < 262144 * Minute ->
    minutesSince now s = minutes
    /\ accruals now st child [session] = (if minutes =? 0 then [] else [minutes])
    /\ (forall c, UsedTodayMin (childAt (store w') c)
                  = accrued (usageAtStart now st c) (accruals now st c (activeSessions st)))
    /\ ((forall q, In q (activeSessions st) -> owner st q = Some child -> q = session) ->
        UsedTodayMin (childAt (store w') child)
        = (if minutes =? 0 then start else int_add start minutes)
        /\ (minInt <= start + minutes <= maxInt ->
            UsedTodayMin (childAt (store w') child) = start + minutes))
    /\ (minutes = 0 ->
        LastTickAt (sessionAt (store w') session) = LastTickAt s
        /\ referenceInstant (sessionAt (store w') session) = referenceInstant s
        /\ forall later : Time,
             0 <= instant later - instant (referenceInstant s) < 262144 * Minute ->
             minutesSince later (sessionAt (store w') session)
             = (instant later - instant (referenceInstant s)) / Minute)
    /\ (1 <= minutes -> LastTickAt (sessionAt (store w') session) = now).
Proof.
  intros w session child now st s elapsed minutes start w' Hnd Hin Hown Hrange.
  destruct (tick_world w) as (_ & _ & _ & Hacc & _). cbv zeta in Hacc.
  fold now st w' in Hacc. destruct (Hacc Hnd) as (Hu & Ht).
  assert (Hm : minutesSince now s = minutes) by (apply minutesSince_floor; exact Hrange).
  assert (Hnn : 0 <= minutes) by (apply Z.div_pos; [lia | reflexivity]).
  assert (Hone : accruals now st child [session] = if minutes =? 0 then [] else [minutes]).
  { rewrite accruals_cons. unfold ownedBy. rewrite Hown, Nat.eqb_refl. cbn [andb].
    fold s. rewrite Hm.
    destruct (Z.eqb_spec minutes 0), (Z.ltb_spec 0 minutes); try lia; reflexivity. }
  destruct (Ht session Hin) as (Hstart & Hlast). rewrite Hown in Hlast.
  fold s in Hstart, Hlast. rewrite Hm in Hlast.
  split; [exact Hm|]. split; [exact Hone|]. split; [exact Hu|].
  split; [|split].
  - intro Honly.
    assert (E : accruals now st child (activeSessions st) = accruals now st child [session]).
    { unfold accruals. f_equal. f_equal.
      assert (Hs : ownedBy st child session = true)
        by (unfold ownedBy; rewrite Hown; apply Nat.eqb_refl).
      rewrite (filter_only (ownedBy st child) session (activeSessions st) Hnd Hin Hs).
      - cbn [filter]. now rewrite Hs.
      - intros q Hq Hb. apply Honly; [assumption|]. unfold ownedBy in Hb.
        destruct (owner st q) as [c|]; [|discriminate]. apply Nat.eqb_eq in Hb. now subst c. }
    rewrite Hu, E, Hone. fold start.
    destruct (Z.eqb_spec minutes 0) as [E0|E0]; cbn [accrued fold_left].
    + split; [reflexivity|]. intros _. lia.
    + split; [reflexivity|]. apply int_add_exact.
  - intro H0. rewrite H0 in Hlast. cbn in Hlast.
    assert (Href : referenceInstant (sessionAt (store w') session) = referenceInstant s)
      by (unfold referenceInstant; now rewrite Hlast, Hstart).
    split; [assumption|]. split; [assumption|].
    intros later Hl. rewrite minutesSince_floor; rewrite Href; [reflexivity|assumption].
  - intro H1. destruct (Z.ltb_spec 0 minutes); [assumption|lia].
Qed.

(** C4. A tick reads the clock and makes the daily check before its loop
    over the sessions.  If the last_reset_date of some stored child
    differs from the date text of that reading, then after the tick every
    stored child has that date, its record is the reset one but for the
    usage and the update time, which only the accrual of this tick sets
    (a child that owns no active session has used_today_minutes exactly 0,
    one that does has the minutes this tick counted, added to 0), no other
    record changes, and children.json holds the stored children as they
    are (when the writes succeed).  If no stored child is stale, no reset
    date changes and a usage changes only by the accrual of the tick. *)
Theorem tick_begins_with_the_global_daily_reset :
  forall (w : World),
    let now := now_at (env w) (step w) in
    let today := Format_date now in
    let st := store w in
    let w' := run tick w in
    children (store w') = children st
    /\ ((exists p, In p (children st) /\ LastResetDate (childAt st p) <> today) ->
        (forall p, In p (children st) ->
           LastResetDate (childAt (store w') p) = today
           /\ childAt (store w') p
              = set_usage (reset_quota (childAt st p) today)
                  (UsedTodayMin (childAt (store w') p)) (UpdatedAt (childAt (store w') p))
           /\ ((forall q, In q (activeSessions st) -> owner st q <> Some p) ->
               UsedTodayMin (childAt (store w') p) = 0
               /\ childAt (store w') p = reset_quota (childAt st p) today)
           /\ (NoDup (activeSessions st) ->
               UsedTodayMin (childAt (store w') p)
               = accrued 0 (accruals now st p (activeSessions st))))
        /\ (forall p, ~ In p (children st) -> childAt (store w') p = childAt st p)
        /\ ((forall n, write_fails (env w) n = false) ->
            children_json (store w') = map (childAt (store w')) (children (store w'))))
    /\ ((forall p, In p (children st) -> LastResetDate (childAt st p) = today) ->
        (forall p, LastResetDate (childAt (store w') p) = LastResetDate (childAt st p))
        /\ (forall p, (forall q, In q (activeSessions st) -> owner st q <> Some p) ->
                      childAt (store w') p = childAt st p)
        /\ (NoDup (activeSessions st) ->
            forall p, UsedTodayMin (childAt (store w') p)
                      = accrued (UsedTodayMin (childAt st p))
                          (accruals now st p (activeSessions st)))).
Proof.
  intros w now today st w'.
  destruct (tick_world w) as (Hcs & Hun & Hidle & Hacc & Hfile). cbv zeta in *.
  fold now st w' in Hcs, Hun, Hidle, Hacc, Hfile. fold today in Hfile.
  assert (Hmember : forall p l, In p l -> existsb (Nat.eqb p) l = true)
    by (intros p l; apply existsb_eqb_In).
  split; [exact Hcs|]. split.
  - intro Hex. apply anyStale_true in Hex.
    assert (Hrec : forall p, In p (children st) ->
                     recordAtStart now st p = reset_quota (childAt st p) today).
    { intros p Hp. unfold recordAtStart. fold today. now rewrite Hex, (Hmember p _ Hp). }
    split; [|split].
    + intros p Hp. destruct (Hun p) as (u & t & E). rewrite (Hrec p Hp) in E.
      split; [now rewrite E|]. split; [now rewrite E|]. split.
      * intro Hno. rewrite (Hidle p Hno), (Hrec p Hp). split; reflexivity.
      * intro Hnd. destruct (Hacc Hnd) as (Hu & _). rewrite Hu. unfold usageAtStart.
        now rewrite (Hrec p Hp).
    + intros p Hp. rewrite Hidle.
      * unfold recordAtStart.
        destruct (existsb (Nat.eqb p) (children st)) eqn:Ex;
          [apply existsb_eqb_In in Ex; contradiction|].
        now rewrite andb_false_r.
      * intros q _ Hq. apply firstWhere_Some in Hq. tauto.
    + intro Hw. now apply Hfile.
  - intro Hall.
    assert (Hfresh : anyStale (childAt st) today (children st) = false).
    { destruct (anyStale (childAt st) today (children st)) eqn:Hs; [|reflexivity].
      apply anyStale_true in Hs as (p & Hp & Hne). elim Hne. auto. }
    assert (Hrec : forall p, recordAtStart now st p = childAt st p)
      by (intro p; unfold recordAtStart; fold today; now rewrite Hfresh).
    split; [|split].
    + intro p. destruct (Hun p) as (u & t & E). now rewrite E, Hrec.
    + intros p Hno. now rewrite (Hidle p Hno), Hrec.
    + intros Hnd p. destruct (Hacc Hnd) as (Hu & _). rewrite Hu. unfold usageAtStart.
      now rewrite Hrec.
Qed.

(** ** Sessions per MAC *)

Lemma freshPtr_fresh slots : ~ In (freshPtr slots) slots.
Proof.
  unfold freshPtr. intro H.
  assert (Hle : (S (list_max slots) <= list_max slots)%nat).
  { pose proof (proj1 (list_max_le slots (list_max slots)) (Nat.le_refl _)) as Hall.
    rewrite Forall_forall in Hall. now apply Hall. }
  lia.
Qed.





(** ** Examples for the reconciliation loop *)

(** C3, the claim refuted: the session began 15728699999999999 ns before
    the tick reads the clock, one nanosecond short of 262145 minutes.  The
    whole-minute floor of that time is 262144, but [int(d.Minutes())]
    rounds the float64 up and the tick adds 262145 minutes. *)
Lemma tick_overcounts_a_long_elapsed_time :
  In 0%nat (activeSessions
              (store (Household.home_with Household.calm
                        [Household.long_running "s1" Household.phone 15728699999999999])))
  /\ owner (store (Household.home_with Household.calm
                     [Household.long_running "s1" Household.phone 15728699999999999]))
       0%nat = Some 0%nat
  /\ instant (now_at Household.calm 0)
     - instant (referenceInstant
                  (Household.long_running "s1" Household.phone 15728699999999999))
     = 15728699999999999
  /\ 15728699999999999 / Minute = 262144
  /\ UsedTodayMin
       (childAt (store (Household.home_with Household.calm
                          [Household.long_running "s1" Household.phone 15728699999999999]))
          0%nat) = 0
  /\ UsedTodayMin
       (childAt
          (store (run tick
                    (Household.home_with Household.calm
                       [Household.long_running "s1" Household.phone 15728699999999999])))
          0%nat) = 262145.
Proof. vm_compute. repeat split. now left. Qed.

(** C3 (amended), at an instance: a session started 90 seconds before the
    tick reads the clock accrues one minute. *)
Lemma tick_accrues_witness :
  UsedTodayMin
    (childAt
       (store (run tick (Household.home_with Household.calm
                           [Household.online "s1" Household.phone (-90)])))
       0%nat)
  = 1.
Proof.
  destruct (tick_accrues_elapsed_whole_minutes
              (Household.home_with Household.calm
                 [Household.online "s1" Household.phone (-90)])
              0%nat 0%nat)
    as (_ & _ & _ & Honly & _).
  - vm_compute. repeat constructor. intros [].
  - vm_compute. now left.
  - reflexivity.
  - vm_compute. split; [discriminate|reflexivity].
  - destruct Honly as (_ & Hexact).
    + intros q Hq _. vm_compute in Hq. destruct Hq as [<-|[]]. reflexivity.
    + rewrite Hexact.
      * reflexivity.
      * vm_compute. split; discriminate.
Defined.



(** ** The entry endpoint and the administrator path, first revision *)

(** The first revision of the handler decodes and parses only: the
    encoded payload of the specification's example decodes to itself, the
    parsed MAC keeps its upper-case letters and the origin URL keeps the
    literal "(null)"; both go into the redirect. *)
Lemma first_revision_keeps_mac_case_and_null_artifact :
  StdEncoding_DecodeString (StdEncoding_EncodeToString examplePayload) = Some examplePayload
  /\ Fas.parseFASData examplePayload
     = mkFASData "" "10.0.0.5" "AA:BB:CC:DD:EE:FF" "" "" "" "http://example.com/(null)"
  /\ Fas.HandleFAS (entryRequest (StdEncoding_EncodeToString examplePayload))
     = RespRedirect
         ("/portal?hid=&mac=AA%3ABB%3ACC%3ADD%3AEE%3AFF&ip=10.0.0.5&gatewayname=&authdir="
          ++ "&originurl=http%3A%2F%2Fexample.com%2F%28null%29")
         StatusFound.
Proof. vm_compute. repeat split. Qed.

(** The first revision guards its entry endpoint: a request without the
    [fas] parameter, and one whose parameter is not standard padded base64
    (here an unpadded text the later revision accepts), are both answered
    with HTTP 400. *)
Lemma first_revision_answers_400 :
  (forall method contentType body form host,
     Fas.HandleFAS (mkRequest method contentType "" body form host)
     = RespError StatusBadRequest "missing fas parameter")
  /\ (forall r, query_fas r <> "" -> StdEncoding_DecodeString (query_fas r) = None ->
                Fas.HandleFAS r = RespError StatusBadRequest "invalid fas parameter")
  /\ Fas.HandleFAS (entryRequest "aGlkPTEyMw") = RespError StatusBadRequest "invalid fas parameter"
  /\ RawStdEncoding_DecodeString "aGlkPTEyMw" = Some "hid=123".
Proof.
  split; [reflexivity|]. split; [|split; reflexivity].
  intros r Hne Hdec. unfold Fas.HandleFAS.
  destruct (String.eqb_spec (query_fas r) ""); [contradiction|]. now rewrite Hdec.
Qed.

(** The first revision knows children only: the administrator's
    credentials are tried against the children, the login is refused with
    the invalid-credentials redirect, no token is issued and the
    controller client is not called. *)
Lemma first_revision_has_no_administrator_login :
  result (AuthenticateAdmin "admin" "parenta123") (Household.quiet_home Household.calm)
    = inl Household.parent
  /\ result (Fas.HandleAuth (Household.login "admin" "parenta123"))
       (Household.quiet_home Household.calm)
     = RespRedirect (errorURL (form_values (Household.login "admin" "parenta123"))
                       "Invalid username or password") StatusFound
  /\ trace (run (Fas.HandleAuth (Household.login "admin" "parenta123"))
              (Household.quiet_home Household.calm)) = [].
Proof. vm_compute. repeat split. Qed.

(** ** The entry endpoint, later revision *)

Lemma allBytes_filter keep s : allBytes keep (filter_string keep s) = true.
Proof.
  induction s as [|c s IH]; simpl; [reflexivity|].
  destruct (keep c) eqn:E; simpl; [now rewrite E|assumption].
Qed.

Lemma getMACFromIP_reads_only ip w : run (FasRevised.getMACFromIP ip) w = w.
Proof.
  unfold FasRevised.getMACFromIP, getEnv, run, bind, ret. simpl.
  now destruct (arp_table (env w)).
Qed.

(** Resolving the parameters writes log lines only, and every field it
    returns for the redirect has gone through [sanitizeHeaderValue]. *)
Lemma resolveFAS_world r f w :
  let w' := run (FasRevised.resolveFAS r f) w in
  let f' := result (FasRevised.resolveFAS r f) w in
  store w' = store w /\ env w' = env w /\ step w' = step w
  /\ (exists log, trace w' = (log ++ trace w)%list /\ actions log = [])
  /\ (exists mac, ClientMAC f' = FasRevised.sanitizeHeaderValue
                                   (FasRevised.normalizeMAC (lower_rune (env w)) mac)
                  /\ (ClientMAC f <> "" -> mac = ClientMAC f))
  /\ HID f' = FasRevised.sanitizeHeaderValue (HID f)
  /\ (exists ip, ClientIP f' = FasRevised.sanitizeHeaderValue ip
                 /\ (ClientMAC f <> "" -> ip = ClientIP f))
  /\ GatewayName f' = FasRevised.sanitizeHeaderValue (FasRevised.safeURLUnescape (GatewayName f))
  /\ AuthDir f' = FasRevised.sanitizeHeaderValue (FasRevised.safeURLUnescape (AuthDir f))
  /\ OriginURL f' = FasRevised.sanitizeHeaderValue (FasRevised.safeURLUnescape (OriginURL f)).
Proof.
  unfold FasRevised.resolveFAS, FasRevised.getMACFromIP, log_Printf, emit, getEnv, run, result,
    bind, ret.
  destruct (String.eqb_spec (ClientMAC f) "") as [E|E]; simpl.
  - destruct (arp_table (env w)); simpl;
      (repeat split; auto;
       [ exists [Logged "FAS: Auto-discovered MAC via ARP"]; now split
       | eexists; split; [reflexivity | intro; contradiction]
       | eexists; split; [reflexivity | intro; contradiction] ]).
  - repeat split; auto; [exists []; now split | eexists; split; eauto | eexists; split; eauto].
Qed.

(** C7. The round trip of the specification's example through the later
    revision of the handler (the payload base64-encoded, then decoded,
    cleaned, parsed and resolved) gives the lower-case MAC, the client
    address and the origin URL without the null artifact, in every world;
    and for every request, each field the handler puts into the redirect
    consists of printable ASCII bytes only. *)
Theorem revised_entry_cleans_and_normalises :
  (forall w,
     result (FasRevised.fasParameters (entryRequest (StdEncoding_EncodeToString examplePayload))) w
     = Some (mkFASData "" "10.0.0.5" "aa:bb:cc:dd:ee:ff" "" "" "" "http://example.com/"))
  /\ (forall r w,
        match result (FasRevised.fasParameters r) w with
        | Some f =>
            allBytes FasRevised.printable (HID f) = true
            /\ allBytes FasRevised.printable (ClientIP f) = true
            /\ allBytes FasRevised.printable (ClientMAC f) = true
            /\ allBytes FasRevised.printable (GatewayName f) = true
            /\ allBytes FasRevised.printable (AuthDir f) = true
            /\ allBytes FasRevised.printable (OriginURL f) = true
        | None => True
        end).
Proof.
  split.
  - intro w. vm_compute. reflexivity.
  - intros r w. unfold FasRevised.fasParameters.
    destruct (String.eqb (query_fas r) ""); [gorun; exact I|].
    destruct (FasRevised.decodeFAS _) as [decoded|]; gorun; [|exact I].
    match goal with
    | |- context [result (FasRevised.resolveFAS r ?f) ?w0] =>
        destruct (resolveFAS_world r f w0)
          as (_ & _ & _ & _ & (mac & Hm & _) & Hh & (ip & Hi & _) & Hg & Ha & Ho)
    end.
    cbv zeta in *. rewrite Hm, Hh, Hi, Hg, Ha, Ho.
    unfold FasRevised.sanitizeHeaderValue. repeat split; apply allBytes_filter.
Qed.





(** ** The credential-submission handler, later revision *)

Lemma addsActions_refl t : addsActions [] t t.
Proof. exists []. now split. Qed.

Lemma addsActions_log acts t t' line :
  addsActions acts t t' -> addsActions acts t (Logged line :: t').
Proof. intros (new & -> & Ha). exists (Logged line :: new). now split. Qed.

Lemma addsActions_act a acts t t' :
  isAction a = true -> addsActions acts t t' -> addsActions (a :: acts) t (a :: t').
Proof.
  intros Hact (new & -> & Ha). exists (a :: new). split; [reflexivity|].
  unfold actions in *. simpl. now rewrite Hact, Ha.
Qed.

Lemma addsActions_trans a1 a2 t t' t'' :
  addsActions a1 t t' -> addsActions a2 t' t'' -> addsActions (a2 ++ a1) t t''.
Proof.
  intros (n1 & -> & H1) (n2 & -> & H2). exists (n2 ++ n1)%list. split.
  - now rewrite app_assoc.
  - unfold actions in *. now rewrite filter_app, H1, H2.
Qed.

Ltac traced :=
  repeat first [ apply addsActions_refl
               | apply addsActions_log
               | apply addsActions_act; [reflexivity|] ].














(** The later revision at an instance: the kid, with one of ten minutes
    left and a session on the tablet, logs in from the phone while the
    reconciliation loop is idle. *)
Lemma revised_child_login_example :
  actions (trace (run (FasRevised.HandleAuth Household.gateway (Household.login "kid" "secret"))
                    Household.nearly_spent))
  = [NdsAuth Household.phone 1 0 0; Slept 50; NdsDeauth Household.phone].
Proof. vm_compute. reflexivity. Qed.

(* ================================================================== *)
(** * Further properties of the code *)
(* ================================================================== *)

(** ** Cleaning of the decoded payload *)

Lemma replaceScan_shorter old s : forall skip,
  (String.length (replaceScan old "" s skip) <= String.length s)%nat.
Proof.
  induction s as [|c s IH]; intro skip; cbn [replaceScan String.length]; [lia|].
  destruct skip as [|k].
  - destruct (prefix old (String c s)); cbn [append String.length].
    + specialize (IH (String.length old - 1)%nat). lia.
    + specialize (IH 0%nat). lia.
  - specialize (IH k). lia.
Qed.

Lemma ReplaceAll_strictly_shorter old s :
  old <> "" -> Contains s old = true ->
  (String.length (ReplaceAll s old "") < String.length s)%nat.
Proof.
  intros Hold. unfold ReplaceAll.
  induction s as [|c s IH]; cbn [replaceScan Contains String.length].
  - destruct old; [contradiction|discriminate].
  - intro H. destruct (prefix old (String c s)) eqn:Hp.
    + cbn [append]. pose proof (replaceScan_shorter old s (String.length old - 1)). lia.
    + cbn [orb] in H. cbn [String.length]. apply IH in H. lia.
Qed.

Lemma stripNull_clean fuel : forall s,
  (String.length s < fuel)%nat ->
  Contains (FasRevised.stripNull fuel s) "(null)" = false.
Proof.
  induction fuel as [|k IH]; intros s Hlen; [lia|].
  cbn [FasRevised.stripNull].
  destruct (Contains s "(null)") eqn:Hc; [|assumption].
  apply IH.
  pose proof (ReplaceAll_strictly_shorter "(null)" s ltac:(discriminate) Hc). lia.
Qed.

Lemma prefix_nil s : prefix "" s = true.
Proof. now destruct s. Qed.

Lemma prefix_app pat a t : prefix pat a = true -> prefix pat (a ++ t) = true.
Proof.
  revert a. induction pat as [|x pat IH]; intros a H; [apply prefix_nil|].
  destruct a as [|y a]; [discriminate|]. simpl in *.
  destruct (ascii_dec x y); [auto|discriminate].
Qed.

Lemma Contains_app pat a t :
  pat <> "" -> Contains a pat = true -> Contains (a ++ t) pat = true.
Proof.
  intro Hp. induction a as [|c a IH]; cbn [Contains append].
  - destruct pat; [contradiction|discriminate].
  - intro H. apply orb_true_iff in H as [H|H]; apply orb_true_iff.
    + left. exact (prefix_app pat (String c a) t H).
    + right. auto.
Qed.

Lemma TrimRight_is_prefix s cutset : exists t, s = TrimRight s cutset ++ t.
Proof.
  induction s as [|c s (t & IH)]; [now exists ""|].
  cbn [TrimRight]. destruct (TrimRight s cutset) as [|d r] eqn:E.
  - destruct (inCutset cutset c).
    + now exists (String c s).
    + exists s. reflexivity.
  - exists t. simpl. now rewrite IH at 1.
Qed.

Lemma TrimRight_keeps_clean s cutset pat :
  pat <> "" -> Contains s pat = false -> Contains (TrimRight s cutset) pat = false.
Proof.
  intros Hp Hc. destruct (Contains (TrimRight s cutset) pat) eqn:E; [|reflexivity].
  destruct (TrimRight_is_prefix s cutset) as (t & Ht).
  rewrite Ht in Hc. rewrite (Contains_app _ _ t Hp E) in Hc. discriminate.
Qed.

Lemma TrimRight_idem s cutset : TrimRight (TrimRight s cutset) cutset = TrimRight s cutset.
Proof.
  induction s as [|c s IH]; [reflexivity|].
  cbn [TrimRight]. destruct (TrimRight s cutset) as [|d r] eqn:E.
  - destruct (inCutset cutset c) eqn:Hc; [reflexivity|].
    cbn [TrimRight]. now rewrite Hc.
  - cbn [TrimRight] in *. now rewrite IH.
Qed.

Lemma allBytes_app p a t : allBytes p (a ++ t) = true -> allBytes p a = true.
Proof.
  induction a as [|c a IH]; [reflexivity|]. cbn [append allBytes].
  intro H. apply andb_true_iff in H as [Hc H]. rewrite Hc. auto.
Qed.

Lemma allBytes_TrimRight p s cutset :
  allBytes p s = true -> allBytes p (TrimRight s cutset) = true.
Proof.
  intro H. destruct (TrimRight_is_prefix s cutset) as (t & Ht).
  rewrite Ht in H. now apply allBytes_app in H.
Qed.

Lemma allBytes_replaceScan p old s : forall skip,
  allBytes p s = true -> allBytes p (replaceScan old "" s skip) = true.
Proof.
  induction s as [|c s IH]; intros skip H; [reflexivity|].
  cbn [allBytes] in H. apply andb_true_iff in H as [Hc H].
  cbn [replaceScan]. destruct skip as [|k]; [|auto].
  destruct (prefix old (String c s)); cbn [append allBytes]; [auto|].
  rewrite Hc. cbn [andb]. auto.
Qed.

Lemma allBytes_stripNull p fuel : forall s,
  allBytes p s = true -> allBytes p (FasRevised.stripNull fuel s) = true.
Proof.
  induction fuel as [|k IH]; intros s H; [assumption|].
  cbn [FasRevised.stripNull]. destruct (Contains s "(null)"); [|assumption].
  apply IH. now apply allBytes_replaceScan.
Qed.

(** The text the later revision parses never contains the artifact
    ["(null)"], consists of printable ASCII bytes only, and does not end in
    a space or a comma, whatever was decoded: the deleting loop runs until
    no occurrence is left (also those that a deletion brings together, as
    in ["(nu(null)ll)"]). *)
Theorem cleanFAS_leaves_no_null_artifact :
  forall decoded : string,
    Contains (FasRevised.cleanFAS decoded) "(null)" = false
    /\ allBytes FasRevised.printable (FasRevised.cleanFAS decoded) = true
    /\ TrimRight (FasRevised.cleanFAS decoded) " ," = FasRevised.cleanFAS decoded.
Proof.
  intro decoded. unfold FasRevised.cleanFAS. cbv zeta. repeat split.
  - apply TrimRight_keeps_clean; [discriminate|]. apply stripNull_clean. lia.
  - apply allBytes_TrimRight, allBytes_stripNull, allBytes_TrimRight, allBytes_filter.
  - apply TrimRight_idem.
Qed.

(** ** Normalisation of MAC addresses *)

Lemma ReplaceAll_byte s c :
  ReplaceAll s (String c "") "" = filter_string (fun x => negb (Ascii.eqb x c)) s.
Proof.
  unfold ReplaceAll. induction s as [|x s IH]; [reflexivity|].
  cbn [replaceScan filter_string prefix]. rewrite prefix_nil.
  destruct (ascii_dec c x) as [->|Hne].
  - rewrite Ascii.eqb_refl. cbn [negb append String.length Nat.sub]. exact IH.
  - destruct (Ascii.eqb_spec x c) as [->|_]; [contradiction|].
    cbn [negb]. now rewrite IH.
Qed.

Lemma filter_string_twice f g s :
  filter_string f (filter_string g s) = filter_string (fun x => g x && f x) s.
Proof.
  induction s as [|x s IH]; [reflexivity|]. cbn [filter_string].
  destruct (g x); cbn [andb filter_string]; [|assumption].
  destruct (f x); now rewrite IH.
Qed.

Lemma filter_string_ext f g s :
  (forall x, f x = g x) -> filter_string f s = filter_string g s.
Proof.
  intro H. induction s as [|x s IH]; [reflexivity|]. cbn [filter_string].
  now rewrite H, IH.
Qed.

Lemma filter_string_app f a b :
  filter_string f (a ++ b) = filter_string f a ++ filter_string f b.
Proof.
  induction a as [|x a IH]; [reflexivity|]. cbn [append filter_string].
  destruct (f x); cbn [append]; now rewrite IH.
Qed.

Lemma lowerBytes_app a b : lowerBytes (a ++ b) = lowerBytes a ++ lowerBytes b.
Proof. induction a as [|x a IH]; [reflexivity|]. cbn [append lowerBytes]. now rewrite IH. Qed.

Lemma lowerBytes_length s : String.length (lowerBytes s) = String.length s.
Proof.
  induction s as [|x s IH]; [reflexivity|]. cbn [lowerBytes String.length]. now rewrite IH.
Qed.

Lemma lower_ascii_idem c : lower_ascii (lower_ascii c) = lower_ascii c.
Proof. destruct c as [[] [] [] [] [] [] [] []]; reflexivity. Qed.

Lemma separator_lower c : separator (lower_ascii c) = separator c.
Proof. destruct c as [[] [] [] [] [] [] [] []]; reflexivity. Qed.

Lemma lowerBytes_filter_separator s :
  filter_string (fun c => negb (separator c)) (lowerBytes s)
  = lowerBytes (filter_string (fun c => negb (separator c)) s).
Proof.
  induction s as [|x s IH]; [reflexivity|]. cbn [lowerBytes filter_string].
  rewrite separator_lower. destruct (separator x); cbn [negb lowerBytes]; now rewrite IH.
Qed.

Lemma lowerBytes_idem s : lowerBytes (lowerBytes s) = lowerBytes s.
Proof.
  induction s as [|x s IH]; [reflexivity|]. cbn [lowerBytes]. now rewrite lower_ascii_idem, IH.
Qed.

(** On a text of ASCII bytes [strings.ToLower] is the byte loop, whatever
    the case tables hold. *)
Lemma ToLower_ascii caseTable s : isASCII s = true -> ToLower caseTable s = lowerBytes s.
Proof. intro H. unfold ToLower. now rewrite H. Qed.

Lemma isASCII_app a b : isASCII (a ++ b) = isASCII a && isASCII b.
Proof.
  induction a as [|x a IH]; [reflexivity|]. cbn [append isASCII].
  now rewrite IH, andb_assoc.
Qed.

Lemma isASCII_filter f s : isASCII s = true -> isASCII (filter_string f s) = true.
Proof.
  induction s as [|x s IH]; [reflexivity|]. cbn [isASCII filter_string].
  intro H. apply andb_true_iff in H as [Hx Hs].
  destruct (f x); cbn [isASCII]; [rewrite Hx|]; auto.
Qed.

Lemma lower_ascii_below c : (byteVal (lower_ascii c) <? 128) = (byteVal c <? 128).
Proof. destruct c as [[] [] [] [] [] [] [] []]; reflexivity. Qed.

Lemma isASCII_lowerBytes s : isASCII (lowerBytes s) = isASCII s.
Proof.
  induction s as [|x s IH]; [reflexivity|]. cbn [isASCII lowerBytes].
  now rewrite lower_ascii_below, IH.
Qed.

Lemma isASCII_macDigits mac : isASCII mac = true -> isASCII (macDigits mac) = true.
Proof. intro H. unfold macDigits. rewrite isASCII_lowerBytes. now apply isASCII_filter. Qed.

(** The three [ReplaceAll] calls and [ToLower] of [normalizeMAC], for an
    address of ASCII bytes. *)
Lemma normalizeMAC_digits caseTable mac :
  isASCII mac = true ->
  ToLower caseTable (ReplaceAll (ReplaceAll (ReplaceAll mac ":" "") "-" "") "." "")
  = macDigits mac.
Proof.
  intro H. rewrite !ReplaceAll_byte, !filter_string_twice.
  rewrite ToLower_ascii by now apply isASCII_filter.
  unfold macDigits. f_equal.
  apply filter_string_ext. intro x. unfold separator.
  destruct (Ascii.eqb x ":"), (Ascii.eqb x "-"), (Ascii.eqb x "."); reflexivity.
Qed.

Lemma macDigits_idem mac : macDigits (macDigits mac) = macDigits mac.
Proof.
  unfold macDigits. rewrite lowerBytes_filter_separator, lowerBytes_idem, filter_string_twice.
  f_equal. apply filter_string_ext. intro x. now destruct (separator x).
Qed.

Lemma macDigits_app a b : macDigits (a ++ b) = macDigits a ++ macDigits b.
Proof. unfold macDigits. now rewrite filter_string_app, lowerBytes_app. Qed.

Lemma twelve_bytes m :
  String.length m = 12%nat ->
  Join [substring 0 2 m; substring 2 2 m; substring 4 2 m;
        substring 6 2 m; substring 8 2 m; substring 10 2 m] ":"
  = substring 0 2 m ++ ":" ++ substring 2 2 m ++ ":" ++ substring 4 2 m ++ ":"
    ++ substring 6 2 m ++ ":" ++ substring 8 2 m ++ ":" ++ substring 10 2 m
  /\ substring 0 2 m ++ substring 2 2 m ++ substring 4 2 m
     ++ substring 6 2 m ++ substring 8 2 m ++ substring 10 2 m = m
  /\ String.length
       (Join [substring 0 2 m; substring 2 2 m; substring 4 2 m;
              substring 6 2 m; substring 8 2 m; substring 10 2 m] ":") = 17%nat.
Proof.
  intro H.
  do 12 (destruct m as [|? m]; [discriminate|]).
  destruct m; [|discriminate]. repeat split.
Qed.

Lemma normalizeMAC_digits_kept caseTable mac :
  isASCII mac = true ->
  macDigits (FasRevised.normalizeMAC caseTable mac) = macDigits mac.
Proof.
  intro Ha. unfold FasRevised.normalizeMAC. rewrite normalizeMAC_digits by exact Ha. cbv zeta.
  destruct (Nat.eqb_spec (String.length (macDigits mac)) 12) as [H|H].
  - destruct (twelve_bytes _ H) as (-> & Hcat & _).
    rewrite !macDigits_app.
    change (macDigits ":") with "". cbn [append].
    rewrite <- !macDigits_app, Hcat. apply macDigits_idem.
  - apply macDigits_idem.
Qed.

Lemma isASCII_normalizeMAC caseTable mac :
  isASCII mac = true -> isASCII (FasRevised.normalizeMAC caseTable mac) = true.
Proof.
  intro Ha. pose proof (isASCII_macDigits mac Ha) as Hd.
  unfold FasRevised.normalizeMAC. rewrite normalizeMAC_digits by exact Ha. cbv zeta.
  destruct (Nat.eqb_spec (String.length (macDigits mac)) 12) as [H|H]; [|exact Hd].
  destruct (twelve_bytes _ H) as (-> & Hcat & _).
  rewrite <- Hcat in Hd. rewrite !isASCII_app in *.
  change (isASCII ":") with true.
  destruct (isASCII (substring 0 2 (macDigits mac))), (isASCII (substring 2 2 (macDigits mac))),
    (isASCII (substring 4 2 (macDigits mac))), (isASCII (substring 6 2 (macDigits mac))),
    (isASCII (substring 8 2 (macDigits mac))), (isASCII (substring 10 2 (macDigits mac)));
    try discriminate; reflexivity.
Qed.

(** For an address of ASCII bytes, whatever the case tables hold:
    [normalizeMAC] depends only on the bytes of the address other than the
    separators [:], [-] and [.], read without letter case; it keeps them;
    when there are twelve of them the result is the 17-byte colon form,
    otherwise it is those bytes alone; and normalising twice is
    normalising once.  An address with other bytes goes through the case
    tables of package [unicode]: with the Kelvin sign (U+212A, lowered to
    [k]) in front of eleven ASCII digits the result is a colon form that
    begins with [k]. *)
Theorem normalizeMAC_is_canonical :
  (forall caseTable mac,
     isASCII mac = true ->
     FasRevised.normalizeMAC caseTable (FasRevised.normalizeMAC caseTable mac)
     = FasRevised.normalizeMAC caseTable mac)
  /\ (forall caseTable mac mac',
        isASCII mac = true -> isASCII mac' = true ->
        macDigits mac = macDigits mac' ->
        FasRevised.normalizeMAC caseTable mac = FasRevised.normalizeMAC caseTable mac')
  /\ (forall caseTable mac,
        isASCII mac = true ->
        macDigits (FasRevised.normalizeMAC caseTable mac) = macDigits mac)
  /\ (forall caseTable mac,
        isASCII mac = true ->
        String.length (macDigits mac) = 12%nat ->
        String.length (FasRevised.normalizeMAC caseTable mac) = 17%nat)
  /\ (forall caseTable mac,
        isASCII mac = true ->
        String.length (macDigits mac) <> 12%nat ->
        FasRevised.normalizeMAC caseTable mac = macDigits mac)
  /\ (forall caseTable,
        FasRevised.normalizeMAC caseTable "AA-BB-CC-DD-EE-FF" = "aa:bb:cc:dd:ee:ff"
        /\ FasRevised.normalizeMAC caseTable "aabb.ccdd.eeff" = "aa:bb:cc:dd:ee:ff")
  /\ (forall caseTable,
        caseTable 8490 = 107 ->
        FasRevised.normalizeMAC caseTable
          (String (ascii_of_nat 226) (String (ascii_of_nat 132) (String (ascii_of_nat 170)
             "0123456789a")))
        = "k0:12:34:56:78:9a").
Proof.
  assert (Hsame : forall caseTable mac mac',
            isASCII mac = true -> isASCII mac' = true ->
            macDigits mac = macDigits mac' ->
            FasRevised.normalizeMAC caseTable mac = FasRevised.normalizeMAC caseTable mac').
  { intros t mac mac' Ha Ha' H. unfold FasRevised.normalizeMAC.
    now rewrite !normalizeMAC_digits, H by assumption. }
  split; [|split; [exact Hsame|split; [exact normalizeMAC_digits_kept|split; [|split; [|split]]]]].
  - intros t mac Ha. apply Hsame; [now apply isASCII_normalizeMAC|assumption|].
    now apply normalizeMAC_digits_kept.
  - intros t mac Ha H. unfold FasRevised.normalizeMAC. rewrite normalizeMAC_digits by exact Ha.
    cbv zeta. rewrite H. cbn [Nat.eqb]. now destruct (twelve_bytes _ H) as (_ & _ & ->).
  - intros t mac Ha H. unfold FasRevised.normalizeMAC. rewrite normalizeMAC_digits by exact Ha.
    cbv zeta. now destruct (Nat.eqb_spec (String.length (macDigits mac)) 12).
  - intro t. split; reflexivity.
  - intros t Ht.
    assert (E1 : unicode_ToLower t 8490 = 107) by exact Ht.
    assert (E : ToLower t (String (ascii_of_nat 226) (String (ascii_of_nat 132)
                             (String (ascii_of_nat 170) "0123456789a")))
                = "k0123456789a").
    { unfold ToLower.
      change (mapRunes (unicode_ToLower t)
                (String (ascii_of_nat 226) (String (ascii_of_nat 132)
                   (String (ascii_of_nat 170) "0123456789a"))) 0)
        with ((if unicode_ToLower t 8490 <? 0 then ""
               else encodeRune (unicode_ToLower t 8490))
              ++ mapRunes (unicode_ToLower t) "0123456789a" 0).
      rewrite E1. reflexivity. }
    unfold FasRevised.normalizeMAC.
    change (ReplaceAll (ReplaceAll (ReplaceAll
              (String (ascii_of_nat 226) (String (ascii_of_nat 132)
                 (String (ascii_of_nat 170) "0123456789a"))) ":" "") "-" "") "." "")
      with (String (ascii_of_nat 226) (String (ascii_of_nat 132)
              (String (ascii_of_nat 170) "0123456789a"))).
    rewrite E. reflexivity.
Qed.

(** Two addresses written differently, normalised to the same. *)
Lemma normalizeMAC_witness :
  FasRevised.normalizeMAC (lower_rune Household.calm) "AA-BB-CC-DD-EE-FF"
  = FasRevised.normalizeMAC (lower_rune Household.calm) "aabb.ccdd.eeff".
Proof.
  apply (proj1 (proj2 normalizeMAC_is_canonical)); reflexivity.
Defined.

(** ** Escaping of the redirect parameters *)

Lemma allBytes_append p a b :
  allBytes p a = true -> allBytes p b = true -> allBytes p (a ++ b) = true.
Proof.
  intros Ha Hb. induction a as [|c a IH]; [assumption|].
  cbn [append allBytes] in *. apply andb_true_iff in Ha as [Hc Ha]. rewrite Hc. auto.
Qed.

Lemma allBytes_weaken (p q : ascii -> bool) s :
  (forall c, p c = true -> q c = true) -> allBytes p s = true -> allBytes q s = true.
Proof.
  intro H. induction s as [|c s IH]; [reflexivity|]. cbn [allBytes].
  intro Hs. apply andb_true_iff in Hs as [Hc Hs]. rewrite (H c Hc). auto.
Qed.

Lemma escapedByte_visible c : escapedByte c = true -> visible c = true.
Proof. destruct c as [[] [] [] [] [] [] [] []]; vm_compute; auto. Qed.

Lemma hexDigit_escaped v : escapedByte (hexDigit v) = true.
Proof.
  unfold hexDigit. assert (H : 0 <= v mod 16 < 16) by (apply Z.mod_pos_bound; lia).
  assert (E : exists n, (n < 16)%nat /\ Z.to_nat (v mod 16) = n)
    by (exists (Z.to_nat (v mod 16)); split; [lia|reflexivity]).
  destruct E as (n & Hn & ->).
  do 16 (destruct n as [|n]; [reflexivity|]). lia.
Qed.

Lemma QueryEscape_escaped s : allBytes escapedByte (QueryEscape s) = true.
Proof.
  induction s as [|c s IH]; [reflexivity|]. cbn [QueryEscape].
  destruct (unreserved c) eqn:Hu.
  - cbn [allBytes]. unfold escapedByte at 1. now rewrite Hu.
  - destruct (Ascii.eqb c " "); cbn [allBytes]; [exact IH|].
    now rewrite !hexDigit_escaped, IH.
Qed.

Lemma escape_byte_inverse c :
  unreserved c = false -> Ascii.eqb c " " = false ->
  unhex (hexDigit (val_of c / 16)) = Some (val_of c / 16)
  /\ unhex (hexDigit (val_of c)) = Some (val_of c mod 16)
  /\ byte_of (val_of c / 16 * 16 + val_of c mod 16) = c.
Proof. destruct c as [[] [] [] [] [] [] [] []]; vm_compute; intros; auto; discriminate. Qed.

Lemma unreserved_plain c :
  unreserved c = true -> Ascii.eqb c "%" = false /\ Ascii.eqb c "+" = false.
Proof. destruct c as [[] [] [] [] [] [] [] []]; vm_compute; intros; auto; discriminate. Qed.

Lemma QueryEscape_inverse s :
  unescapeBytes (list_ascii_of_string (QueryEscape s)) = Some (list_ascii_of_string s).
Proof.
  induction s as [|c s IH]; [reflexivity|]. cbn [QueryEscape].
  destruct (unreserved c) eqn:Hu.
  - destruct (unreserved_plain c Hu) as [Hp Hq].
    cbn [list_ascii_of_string unescapeBytes]. now rewrite Hp, IH, Hq.
  - destruct (Ascii.eqb_spec c " ") as [->|Hsp].
    + cbn [list_ascii_of_string unescapeBytes]. rewrite IH. reflexivity.
    + assert (Hs : Ascii.eqb c " " = false) by (now apply Ascii.eqb_neq).
      destruct (escape_byte_inverse c Hu Hs) as (Hh & Hl & Hb).
      cbn [list_ascii_of_string unescapeBytes]. rewrite Ascii.eqb_refl, Hh, Hl, IH.
      now rewrite Hb.
Qed.

(** What [url.QueryEscape] gives holds only unreserved bytes, [+] and [%],
    and [url.QueryUnescape] (hence [safeURLUnescape]) gives the text back.
    So the redirects the handlers build from the decoded payload or the
    submitted form consist of visible ASCII bytes only, whatever bytes the
    payload holds: no space, no line break, also in the first revision,
    which does not sanitise the fields. *)
Theorem redirect_parameters_are_escaped :
  (forall s, allBytes escapedByte (QueryEscape s) = true)
  /\ (forall s, QueryUnescape (QueryEscape s) = Some s)
  /\ (forall s, FasRevised.safeURLUnescape (QueryEscape s) = s)
  /\ (forall fasData, allBytes visible (Fas.portalURL fasData) = true)
  /\ (forall req message, allBytes visible (errorURL req message) = true)
  /\ (forall r, match Fas.HandleFAS r with
                | RespRedirect url _ => allBytes visible url = true
                | _ => True
                end).
Proof.
  assert (Hesc : forall s, allBytes visible (QueryEscape s) = true).
  { intro s. apply allBytes_weaken with (p := escapedByte);
      [exact escapedByte_visible | apply QueryEscape_escaped]. }
  assert (Hinv : forall s, QueryUnescape (QueryEscape s) = Some s).
  { intro s. unfold QueryUnescape. rewrite QueryEscape_inverse. cbn [option_map].
    now rewrite string_of_list_ascii_of_string. }
  assert (Hportal : forall fasData, allBytes visible (Fas.portalURL fasData) = true).
  { intro f. unfold Fas.portalURL.
    repeat (apply allBytes_append; [first [apply Hesc | reflexivity]|]). apply Hesc. }
  split; [exact QueryEscape_escaped|]. split; [exact Hinv|].
  split; [intro s; unfold FasRevised.safeURLUnescape; now rewrite Hinv|].
  split; [exact Hportal|]. split.
  - intros req message. unfold errorURL.
    repeat (apply allBytes_append; [first [apply Hesc | reflexivity]|]). apply Hesc.
  - intro r. unfold Fas.HandleFAS. destruct (String.eqb (query_fas r) ""); [exact I|].
    destruct (StdEncoding_DecodeString (query_fas r)); [apply Hportal|exact I].
Qed.

(** ** The data model *)

(** [RemainingMinutes()] is never negative.  As long as quota minus usage
    fits Go's [int] it is that difference cut off at 0, and then the test
    of the login ([RemainingMinutes() <= 0]) and the test of the tick
    ([UsedTodayMin >= DailyQuotaMin]) agree, so a child the tick would
    revoke is refused at login and the other way round.  When the
    subtraction wraps around they part: with the largest quota and a usage
    of -1 nothing remains although the usage is below the quota. *)
Theorem RemainingMinutes_agrees_with_the_quota_test :
  (forall c, 0 <= RemainingMinutes c)
  /\ (forall c,
        minInt <= DailyQuotaMin c - UsedTodayMin c <= maxInt ->
        RemainingMinutes c = Z.max 0 (DailyQuotaMin c - UsedTodayMin c)
        /\ (RemainingMinutes c <=? 0) = (DailyQuotaMin c <=? UsedTodayMin c))
  /\ (RemainingMinutes (Household.kid maxInt (-1)) = 0
      /\ UsedTodayMin (Household.kid maxInt (-1)) < DailyQuotaMin (Household.kid maxInt (-1))).
Proof.
  assert (Hexact : forall c, minInt <= DailyQuotaMin c - UsedTodayMin c <= maxInt ->
                     RemainingMinutes c = Z.max 0 (DailyQuotaMin c - UsedTodayMin c)).
  { intros c H. unfold RemainingMinutes, int_sub, wrap. unfold minInt, maxInt in H.
    rewrite Z.mod_small by lia.
    replace (DailyQuotaMin c - UsedTodayMin c + 2 ^ 63 - 2 ^ 63)
      with (DailyQuotaMin c - UsedTodayMin c) by lia.
    destruct (Z.ltb_spec (DailyQuotaMin c - UsedTodayMin c) 0); lia. }
  split; [|split].
  - intro c. unfold RemainingMinutes.
    destruct (Z.ltb_spec (int_sub (DailyQuotaMin c) (UsedTodayMin c)) 0); lia.
  - intros c H. split; [now apply Hexact|]. rewrite (Hexact c H).
    destruct (Z.leb_spec (Z.max 0 (DailyQuotaMin c - UsedTodayMin c)) 0);
      destruct (Z.leb_spec (DailyQuotaMin c) (UsedTodayMin c)); lia.
  - split; reflexivity.
Qed.

Lemma hasDeviceIn_app ds ds' mac :
  hasDeviceIn (ds ++ ds') mac = hasDeviceIn ds mac || hasDeviceIn ds' mac.
Proof.
  induction ds as [|d ds IH]; [reflexivity|]. cbn [app hasDeviceIn].
  destruct (String.eqb (dev_MAC d) mac); [reflexivity|exact IH].
Qed.

Lemma hasDeviceIn_In ds mac : hasDeviceIn ds mac = true <-> In mac (map dev_MAC ds).
Proof.
  induction ds as [|d ds IH]; cbn [hasDeviceIn map In]; [split; [discriminate|tauto]|].
  destruct (String.eqb_spec (dev_MAC d) mac) as [E|E]; [tauto|].
  rewrite IH. split; [auto|]. intros [H|H]; [contradiction|assumption].
Qed.

Lemma withoutDevice_forgets ds mac : hasDeviceIn (ChildrenApi.withoutDevice ds mac) mac = false.
Proof.
  induction ds as [|d ds IH]; [reflexivity|]. cbn [ChildrenApi.withoutDevice].
  destruct (String.eqb (dev_MAC d) mac) eqn:E; cbn [negb hasDeviceIn]; [assumption|].
  now rewrite E.
Qed.

Lemma withoutDevice_keeps ds mac other :
  other <> mac ->
  hasDeviceIn (ChildrenApi.withoutDevice ds mac) other = hasDeviceIn ds other.
Proof.
  intro Hne. induction ds as [|d ds IH]; [reflexivity|]. cbn [ChildrenApi.withoutDevice].
  destruct (String.eqb_spec (dev_MAC d) mac) as [E|E]; cbn [negb hasDeviceIn].
  - destruct (String.eqb_spec (dev_MAC d) other) as [E'|_]; [congruence|assumption].
  - now rewrite IH.
Qed.

Lemma withoutDevice_absent ds mac :
  hasDeviceIn ds mac = false -> ChildrenApi.withoutDevice ds mac = ds.
Proof.
  induction ds as [|d ds IH]; [reflexivity|]. cbn [hasDeviceIn ChildrenApi.withoutDevice].
  destruct (String.eqb (dev_MAC d) mac); [discriminate|]. cbn [negb]. intro H. now rewrite IH.
Qed.

Lemma withoutDevice_app ds ds' mac :
  ChildrenApi.withoutDevice (ds ++ ds') mac
  = (ChildrenApi.withoutDevice ds mac ++ ChildrenApi.withoutDevice ds' mac)%list.
Proof.
  induction ds as [|d ds IH]; [reflexivity|]. cbn [app ChildrenApi.withoutDevice].
  destruct (negb (String.eqb (dev_MAC d) mac)); cbn [app]; now rewrite IH.
Qed.

(** The device list of a child under [AddDevice] and under the removal
    loop of the children API: an added MAC is found afterwards, adding it
    again changes nothing, no other MAC appears or disappears, and a list
    without repeated MACs stays so; removal forgets the MAC (every entry
    of it) and nothing else; removing a MAC that was added to a child who
    did not have it gives the old list back. *)
Theorem device_list_is_a_set_of_MACs :
  forall c mac name seen,
    HasDevice (AddDevice c mac name seen) mac = true
    /\ (forall name' seen',
          AddDevice (AddDevice c mac name seen) mac name' seen' = AddDevice c mac name seen)
    /\ (forall other, other <> mac ->
          HasDevice (AddDevice c mac name seen) other = HasDevice c other)
    /\ (NoDup (map dev_MAC (Devices c)) ->
        NoDup (map dev_MAC (Devices (AddDevice c mac name seen))))
    /\ hasDeviceIn (ChildrenApi.withoutDevice (Devices c) mac) mac = false
    /\ (forall other, other <> mac ->
          hasDeviceIn (ChildrenApi.withoutDevice (Devices c) mac) other = HasDevice c other)
    /\ (HasDevice c mac = false ->
        ChildrenApi.withoutDevice (Devices (AddDevice c mac name seen)) mac = Devices c).
Proof.
  intros c mac name seen.
  assert (Hhas : HasDevice (AddDevice c mac name seen) mac = true).
  { unfold AddDevice. destruct (HasDevice c mac) eqn:H; [assumption|].
    unfold HasDevice, set_Devices. cbn [Devices]. rewrite hasDeviceIn_app.
    cbn [hasDeviceIn dev_MAC]. rewrite String.eqb_refl. apply orb_true_r. }
  split; [exact Hhas|]. split; [|split; [|split; [|split; [|split]]]].
  - intros name' seen'. unfold AddDevice at 1. now rewrite Hhas.
  - intros other Hne. unfold AddDevice. destruct (HasDevice c mac); [reflexivity|].
    unfold HasDevice, set_Devices. cbn [Devices]. rewrite hasDeviceIn_app.
    cbn [hasDeviceIn dev_MAC].
    destruct (String.eqb_spec mac other) as [E|_]; [congruence|]. apply orb_false_r.
  - intro Hnd. unfold AddDevice. destruct (HasDevice c mac) eqn:H; [assumption|].
    unfold set_Devices. cbn [Devices]. rewrite map_app. cbn [map dev_MAC].
    apply NoDup_app; [assumption | repeat constructor; auto |].
    intros a Ha [<-|[]]. apply hasDeviceIn_In in Ha. unfold HasDevice in H. congruence.
  - apply withoutDevice_forgets.
  - intros other Hne. now apply withoutDevice_keeps.
  - intro H. unfold AddDevice. rewrite H. unfold set_Devices. cbn [Devices].
    rewrite withoutDevice_app. cbn [ChildrenApi.withoutDevice dev_MAC].
    rewrite String.eqb_refl. cbn [negb]. rewrite app_nil_r.
    now apply withoutDevice_absent.
Qed.

(** ** The record store *)

Lemma firstWhere_upsert {A : Type} (obj : ptr -> A) test p slots :
  test (obj p) = true -> firstWhere obj test (upsert obj test p slots) = Some p.
Proof.
  intro Hp. unfold upsert. induction slots as [|q rest IH]; cbn [replaceFirst].
  - cbn. now rewrite Hp.
  - destruct (test (obj q)) eqn:Hq.
    + cbn [firstWhere]. now rewrite Hp.
    + destruct (replaceFirst obj test p rest) as [r|].
      * cbn [firstWhere]. now rewrite Hq.
      * cbn [app firstWhere]. now rewrite Hq.
Qed.

Lemma firstWhere_upsert_other {A : Type} (obj : ptr -> A) test test' p slots :
  test' (obj p) = false ->
  (forall q, test (obj q) = true -> test' (obj q) = false) ->
  firstWhere obj test' (upsert obj test p slots) = firstWhere obj test' slots.
Proof.
  intros Hp Hdis. unfold upsert. induction slots as [|q rest IH]; cbn [replaceFirst].
  - cbn. now rewrite Hp.
  - destruct (test (obj q)) eqn:Hq.
    + cbn [firstWhere]. now rewrite Hp, (Hdis q Hq).
    + destruct (replaceFirst obj test p rest) as [r|].
      * cbn [firstWhere]. destruct (test' (obj q)); [reflexivity|exact IH].
      * cbn [app firstWhere]. destruct (test' (obj q)); [reflexivity|exact IH].
Qed.

Lemma upsert_length {A : Type} (obj : ptr -> A) test p slots :
  List.length (upsert obj test p slots)
  = match firstWhere obj test slots with
    | Some _ => List.length slots
    | None => S (List.length slots)
    end.
Proof.
  unfold upsert. induction slots as [|q rest IH]; [reflexivity|].
  cbn [replaceFirst firstWhere]. destruct (test (obj q)); [reflexivity|].
  destruct (replaceFirst obj test p rest) as [r|]; destruct (firstWhere obj test rest);
    cbn [List.length app] in *; lia.
Qed.

Lemma SaveSession_slots p w :
  let st := store w in
  let st' := store (run (SaveSession p) w) in
  sessionAt st' = sessionAt st
  /\ sessions st' = upsert (sessionAt st)
                      (fun s => String.eqb (sess_ID s) (sess_ID (sessionAt st p))) p (sessions st)
  /\ childAt st' = childAt st /\ children st' = children st.
Proof.
  unfold SaveSession, saveFile_sessions, ask, getStore, putStore, run, bind, ret. simpl.
  destruct (write_fails (env w) (step w)); simpl; auto.
Qed.

Lemma SaveChild_slots p w :
  let st := store w in
  let st' := store (run (SaveChild p) w) in
  childAt st' = childAt st
  /\ children st' = upsert (childAt st)
                      (fun c => String.eqb (ID c) (ID (childAt st p))) p (children st)
  /\ sessionAt st' = sessionAt st /\ sessions st' = sessions st.
Proof.
  unfold SaveChild, saveFile_children, ask, getStore, putStore, run, bind, ret. simpl.
  destruct (write_fails (env w) (step w)); simpl; auto.
Qed.

Lemma result_GetSession id w :
  result (GetSession id) w
  = firstWhere (sessionAt (store w)) (fun s => String.eqb (sess_ID s) id) (sessions (store w)).
Proof. reflexivity. Qed.

(** A record that has been saved is the one its id finds afterwards, for
    sessions and for children alike and also when the write of the JSON
    file fails; lookups by any other id give what they gave before; and
    the slice grows by one slot exactly when the id was not stored yet. *)
Theorem saved_record_is_found_by_its_id :
  (forall p w,
     let id := sess_ID (sessionAt (store w) p) in
     let w' := run (SaveSession p) w in
     result (GetSession id) w' = Some p
     /\ (forall other, other <> id -> result (GetSession other) w' = result (GetSession other) w)
     /\ List.length (sessions (store w'))
        = match result (GetSession id) w with
          | Some _ => List.length (sessions (store w))
          | None => S (List.length (sessions (store w)))
          end)
  /\ (forall p w,
        let id := ID (childAt (store w) p) in
        let w' := run (SaveChild p) w in
        result (GetChild id) w' = Some p
        /\ (forall other, other <> id -> result (GetChild other) w' = result (GetChild other) w)
        /\ List.length (children (store w'))
           = match result (GetChild id) w with
             | Some _ => List.length (children (store w))
             | None => S (List.length (children (store w)))
             end).
Proof.
  split; intros p w id w'; subst w'.
  - destruct (SaveSession_slots p w) as (Hh & Hl & _). cbv zeta in *. fold id in Hl.
    rewrite !result_GetSession, Hh, Hl. split; [|split].
    + apply (firstWhere_upsert (sessionAt (store w))
               (fun s => String.eqb (sess_ID s) id)). apply String.eqb_refl.
    + intros other Hne. rewrite !result_GetSession, Hh, Hl.
      apply (firstWhere_upsert_other (sessionAt (store w))
               (fun s => String.eqb (sess_ID s) id) (fun s => String.eqb (sess_ID s) other)).
      * now apply String.eqb_neq.
      * intros q Hq. apply String.eqb_eq in Hq. apply String.eqb_neq. congruence.
    + apply upsert_length.
  - destruct (SaveChild_slots p w) as (Hh & Hl & _). cbv zeta in *. fold id in Hl.
    rewrite !result_GetChild, Hh, Hl. split; [|split].
    + apply (firstWhere_upsert (childAt (store w))
               (fun c => String.eqb (ID c) id)). apply String.eqb_refl.
    + intros other Hne. rewrite !result_GetChild, Hh, Hl.
      apply (firstWhere_upsert_other (childAt (store w))
               (fun c => String.eqb (ID c) id) (fun c => String.eqb (ID c) other)).
      * now apply String.eqb_neq.
      * intros q Hq. apply String.eqb_eq in Hq. apply String.eqb_neq. congruence.
    + apply upsert_length.
Qed.

Lemma firstWhere_head {A : Type} (obj : ptr -> A) test slots :
  firstWhere obj test slots = hd_error (filter (fun p => test (obj p)) slots).
Proof.
  induction slots as [|q rest IH]; [reflexivity|]. cbn [firstWhere filter].
  destruct (test (obj q)); [reflexivity|exact IH].
Qed.

Lemma result_GetSessionByMAC mac w :
  result (GetSessionByMAC mac) w = hd_error (activeFor mac (store w)).
Proof.
  unfold activeFor. rewrite <- (firstWhere_head (sessionAt (store w))
                                  (fun s => String.eqb (MAC s) mac && sess_IsActive s)).
  reflexivity.
Qed.

(** ** The status endpoint *)

Lemma HandleStatus_answer mac w :
  run (PortalStatus.HandleStatus mac) w = w
  /\ (mac <> "" ->
      result (PortalStatus.HandleStatus mac) w
      = match hd_error (activeFor mac (store w)) with
        | None => PortalStatus.StatusError 404 "no active session"
        | Some p =>
            match owner (store w) p with
            | None => PortalStatus.StatusError 404 "child not found"
            | Some c =>
                PortalStatus.StatusJSON 200
                  (PortalStatus.mkStatusBody
                     (Name (childAt (store w) c))
                     (RemainingMinutes (childAt (store w) c))
                     (UsedTodayMin (childAt (store w) c))
                     (DailyQuotaMin (childAt (store w) c))
                     (StartedAt (sessionAt (store w) p)))
            end
        end).
Proof.
  assert (Hact : forall p, hd_error (activeFor mac (store w)) = Some p ->
                   sess_IsActive (sessionAt (store w) p) = true).
  { intros p H. rewrite <- result_GetSessionByMAC in H.
    apply firstWhere_Some in H as [_ H]. now apply andb_true_iff in H as [_ H]. }
  pose proof (result_GetSessionByMAC mac w) as Hhead.
  unfold PortalStatus.HandleStatus, GetSessionByMAC, GetChild, readChild, readSession, getStore,
    run, result, bind, ret in *. cbn [fst snd] in *.
  split.
  - destruct (String.eqb mac ""); [reflexivity|]. rewrite Hhead.
    destruct (hd_error (activeFor mac (store w))) as [p|] eqn:E; [|reflexivity].
    cbn [fst snd]. rewrite (Hact p eq_refl). cbn [negb fst snd].
    destruct (firstWhere (childAt (store w)) _ _); reflexivity.
  - intro Hne. destruct (String.eqb_spec mac ""); [contradiction|]. rewrite Hhead.
    destruct (hd_error (activeFor mac (store w))) as [p|] eqn:E; [|reflexivity].
    cbn [fst snd]. rewrite (Hact p eq_refl). cbn [negb fst snd]. unfold owner.
    destruct (firstWhere (childAt (store w)) _ _); reflexivity.
Qed.

(** The status endpoint reads only.  For a MAC it looks at the earliest
    stored session of that MAC that is active ([GetSessionByMAC] returns
    the head of the active sessions of the MAC) and at the first stored
    child with that session's child id: without such a session the answer
    is 404, without such a child it is 404 as well, otherwise it is 200
    with that child's name, remaining minutes, usage and quota and that
    session's start. *)
Theorem HandleStatus_reports_the_first_active_session :
  forall mac w,
    run (PortalStatus.HandleStatus mac) w = w
    /\ result (GetSessionByMAC mac) w = hd_error (activeFor mac (store w))
    /\ result (PortalStatus.HandleStatus "") w
       = PortalStatus.StatusError 400 "missing mac parameter"
    /\ (mac <> "" ->
        result (PortalStatus.HandleStatus mac) w
        = match hd_error (activeFor mac (store w)) with
          | None => PortalStatus.StatusError 404 "no active session"
          | Some p =>
              match owner (store w) p with
              | None => PortalStatus.StatusError 404 "child not found"
              | Some c =>
                  PortalStatus.StatusJSON 200
                    (PortalStatus.mkStatusBody
                       (Name (childAt (store w) c))
                       (RemainingMinutes (childAt (store w) c))
                       (UsedTodayMin (childAt (store w) c))
                       (DailyQuotaMin (childAt (store w) c))
                       (StartedAt (sessionAt (store w) p)))
              end
          end).
Proof.
  intros mac w. destruct (HandleStatus_answer mac w) as (Hrun & Hres).
  split; [exact Hrun|]. split; [apply result_GetSessionByMAC|]. split; [reflexivity|exact Hres].
Qed.

Lemma firstWhere_removeFirst_other {A : Type} (obj : ptr -> A) test test' slots :
  (forall q, test (obj q) = true -> test' (obj q) = false) ->
  firstWhere obj test' (removeFirst obj test slots) = firstWhere obj test' slots.
Proof.
  intro Hdis. induction slots as [|q rest IH]; [reflexivity|]. cbn [removeFirst firstWhere].
  destruct (test (obj q)) eqn:Hq.
  - now rewrite (Hdis q Hq).
  - cbn [firstWhere]. destruct (test' (obj q)); [reflexivity|exact IH].
Qed.

Lemma firstWhere_None {A : Type} (obj : ptr -> A) test slots :
  firstWhere obj test slots = None <-> forall q, In q slots -> test (obj q) = false.
Proof.
  induction slots as [|q rest IH]; cbn [firstWhere In]; [split; [intros _ ? []|reflexivity]|].
  destruct (test (obj q)) eqn:Hq.
  - split; [discriminate|]. intro H. rewrite (H q (or_introl eq_refl)) in Hq. discriminate.
  - rewrite IH. split; [intros H x [<-|Hx]; auto|auto].
Qed.

Lemma removeFirst_unique {A : Type} (obj : ptr -> A) (key : A -> string) id slots :
  NoDup (map (fun p => key (obj p)) slots) ->
  firstWhere obj (fun a => String.eqb (key a) id)
    (removeFirst obj (fun a => String.eqb (key a) id) slots) = None.
Proof.
  induction slots as [|q rest IH]; [reflexivity|]. cbn [map removeFirst].
  intro Hnd. inversion Hnd as [|? ? Hq Hrest]; subst.
  destruct (String.eqb_spec (key (obj q)) id) as [E|E].
  - apply firstWhere_None. intros x Hx. apply String.eqb_neq. intro Ex.
    apply Hq. apply in_map_iff. exists x. split; [congruence|assumption].
  - cbn [firstWhere]. destruct (String.eqb_spec (key (obj q)) id); [contradiction|]. auto.
Qed.

Lemma removeFirst_absent {A : Type} (obj : ptr -> A) test slots :
  firstWhere obj test slots = None -> removeFirst obj test slots = slots.
Proof.
  induction slots as [|q rest IH]; [reflexivity|]. cbn [firstWhere removeFirst].
  destruct (test (obj q)); [discriminate|]. intro H. now rewrite IH.
Qed.

Lemma removeFirst_length {A : Type} (obj : ptr -> A) test slots p :
  firstWhere obj test slots = Some p ->
  S (List.length (removeFirst obj test slots)) = List.length slots.
Proof.
  induction slots as [|q rest IH]; [discriminate|]. cbn [firstWhere removeFirst].
  destruct (test (obj q)); [reflexivity|]. intro H. cbn [List.length]. now rewrite IH.
Qed.

Lemma DeleteChild_slots id w :
  let st := store w in
  let st' := store (run (DeleteChild id) w) in
  childAt st' = childAt st
  /\ children st' = removeFirst (childAt st) (fun c => String.eqb (ID c) id) (children st)
  /\ sessionAt st' = sessionAt st /\ sessions st' = sessions st
  /\ trace (run (DeleteChild id) w) = trace w.
Proof.
  unfold DeleteChild, saveFile_children, ask, getStore, putStore, run, bind, ret. simpl.
  destruct (write_fails (env w) (step w)); simpl; auto 6.
Qed.

(** [DeleteChild] cuts the first stored child with the id out of the slice
    and touches nothing else: no record changes, lookups by other ids give
    what they gave, an id that is not stored leaves the slice as it was,
    and the child's sessions stay stored and active (the controller is not
    called).  When the stored ids are pairwise different the id is not
    found afterwards; with a repeated id the later child takes its place. *)
Theorem DeleteChild_cuts_out_the_first_match :
  forall id w,
    let w' := run (DeleteChild id) w in
    childAt (store w') = childAt (store w)
    /\ sessionAt (store w') = sessionAt (store w)
    /\ sessions (store w') = sessions (store w)
    /\ trace w' = trace w
    /\ (forall other, other <> id -> result (GetChild other) w' = result (GetChild other) w)
    /\ (result (GetChild id) w = None -> children (store w') = children (store w))
    /\ (forall p, result (GetChild id) w = Some p ->
                  S (List.length (children (store w'))) = List.length (children (store w)))
    /\ (NoDup (map (fun p => ID (childAt (store w) p)) (children (store w))) ->
        result (GetChild id) w' = None).
Proof.
  intros id w w'. subst w'.
  destruct (DeleteChild_slots id w) as (Hh & Hl & Hsa & Hss & Ht). cbv zeta in *.
  rewrite !result_GetChild, Hh, Hl, Hsa, Hss, Ht.
  repeat split.
  - intros other Hne. rewrite !result_GetChild, Hh, Hl.
    apply firstWhere_removeFirst_other. intros q Hq. apply String.eqb_eq in Hq.
    apply String.eqb_neq. congruence.
  - apply removeFirst_absent.
  - intros p. apply removeFirst_length.
  - intro Hnd. now apply (removeFirst_unique (childAt (store w)) ID).
Qed.

(** ** Schedules *)

(** The filter mode of a schedule at an instant is that of the first block
    (in stored order) that admits the instant, so with overlapping blocks
    the earlier one wins; an instant no block admits ([IsAllowedNow] false)
    gets the normal mode. *)
Theorem GetCurrentFilterMode_is_the_first_admitting_block :
  forall s now,
    (IsAllowedNow s now = false -> GetCurrentFilterMode s now = FilterModeNormal)
    /\ (IsAllowedNow s now = true ->
        exists before block after,
          TimeBlocks s = (before ++ block :: after)%list
          /\ allowedIn before (Weekday now) (Format_HHMM now) = false
          /\ DayOfWeek block = Weekday now
          /\ lex_le (StartTime block) (Format_HHMM now)
          /\ lex_le (Format_HHMM now) (EndTime block)
          /\ GetCurrentFilterMode s now = BlockFilterMode block).
Proof.
  intros s now. unfold IsAllowedNow, GetCurrentFilterMode. cbv zeta.
  generalize (Weekday now) (Format_HHMM now). intros day cur.
  induction (TimeBlocks s) as [|b rest [IHf IHt]]; cbn [allowedIn modeIn].
  - split; [reflexivity|discriminate].
  - destruct (Z.eqb_spec (DayOfWeek b) day) as [Hd|Hd];
      [destruct (str_leb (StartTime b) cur && str_leb cur (EndTime b)) eqn:Hw|].
    + split; [discriminate|]. intros _. exists [], b, rest.
      apply andb_true_iff in Hw as [H1 H2]. apply str_leb_lex_le in H1, H2.
      repeat split; auto.
    + split; [exact IHf|]. intro H.
      destruct (IHt H) as (before & block & after & E & Hb & H1 & H2 & H3 & H4).
      exists (b :: before), block, after. repeat split; auto; [now rewrite E|].
      cbn [allowedIn]. destruct (Z.eqb_spec (DayOfWeek b) day); [|contradiction].
      now rewrite Hw.
    + split; [exact IHf|]. intro H.
      destruct (IHt H) as (before & block & after & E & Hb & H1 & H2 & H3 & H4).
      exists (b :: before), block, after. repeat split; auto; [now rewrite E|].
      cbn [allowedIn]. now destruct (Z.eqb_spec (DayOfWeek b) day).
Qed.

(** ** What a tick tells the controller *)

Lemma deauthSession_actions session reason w :
  let w' := run (deauthSession session reason) w in
  addsActions [NdsDeauth (MAC (sessionAt (store w) session))] (trace w) (trace w')
  /\ sess_IsActive (sessionAt (store w') session) = false.
Proof.
  split.
  - unfold deauthSession, run, Deauth, log_Printf, emit, ask, readSession, writeSession,
      SaveSession, saveFile_sessions, getStore, putStore, bind, ret. simpl.
    destruct (exec_fails (env w) (step w)); simpl;
      destruct (write_fails (env w) _); simpl; traced.
  - destruct (deauthSession_store session reason w) as (Hh & _).
    cbv zeta in Hh. rewrite Hh, upd_same. reflexivity.
Qed.

Lemma enforce_actions session child w :
  let w' := run (enforce session child) w in
  sess_IsActive (sessionAt (store w) session) = true ->
  addsActions (if sess_IsActive (sessionAt (store w') session) then []
               else [NdsDeauth (MAC (sessionAt (store w) session))])
    (trace w) (trace w').
Proof.
  intros w' Hact. subst w'. unfold enforce. gorun.
  assert (D : forall reason w0, store w0 = store w -> trace w0 = trace w ->
                addsActions
                  (if sess_IsActive (sessionAt (store (run (deauthSession session reason) w0))
                                       session)
                   then [] else [NdsDeauth (MAC (sessionAt (store w) session))])
                  (trace w) (trace (run (deauthSession session reason) w0))).
  { intros reason w0 E Et. destruct (deauthSession_actions session reason w0) as (Ha & Hoff).
    cbv zeta in *. rewrite Hoff. now rewrite E, Et in Ha. }
  assert (N : forall w0, store w0 = store w -> trace w0 = trace w ->
                addsActions
                  (if sess_IsActive (sessionAt (store w0) session)
                   then [] else [NdsDeauth (MAC (sessionAt (store w) session))])
                  (trace w) (trace w0)).
  { intros w0 E Et. rewrite E, Et, Hact. apply addsActions_refl. }
  destruct (DailyQuotaMin (childAt (store w) child) <=? UsedTodayMin (childAt (store w) child)).
  - now apply D.
  - destruct (negb (String.eqb (ScheduleID (childAt (store w) child)) "")).
    + gorun.
      destruct (findSchedule (ScheduleID (childAt (store w) child)) (schedules (store w)))
        as [sched|].
      * gorun. destruct (negb (IsAllowedNow sched (now_at (env w) (step w)))).
        -- now apply D.
        -- gorun. now apply N.
      * gorun. now apply N.
    + gorun. now apply N.
Qed.

(** One pass of the loop body tells the controller to deauthorize the
    session's MAC when it turns the session from active to inactive, and
    nothing otherwise. *)
Lemma tickSession_actions now p w :
  let w1 := run (tickSession now p) w in
  addsActions (if sess_IsActive (sessionAt (store w) p)
                  && negb (sess_IsActive (sessionAt (store w1) p))
               then [NdsDeauth (MAC (sessionAt (store w) p))] else [])
    (trace w) (trace w1).
Proof.
  intro w1. subst w1.
  destruct (sess_IsActive (sessionAt (store w) p)) eqn:Hact.
  2:{ unfold tickSession. gorun. rewrite Hact. cbn [negb andb]. gorun. apply addsActions_refl. }
  cbn [andb].
  destruct (result (GetChild (ChildID (sessionAt (store w) p))) w) as [child|] eqn:Hchild.
  - rewrite (tickSession_active now p child w Hact Hchild).
    set (m := minutesSince now (sessionAt (store w) p)).
    destruct (accrue_store now p child m w (GetChild_own_id _ _ _ Hchild))
      as (_ & _ & _ & Hs & _ & _ & Ht).
    cbv zeta in *.
    set (wa := run (accrue now p child m) w) in *.
    assert (Hact' : sess_IsActive (sessionAt (store wa) p) = true).
    { rewrite Hs. destruct (0 <? m); [rewrite upd_same|]; assumption. }
    assert (Hmac : MAC (sessionAt (store wa) p) = MAC (sessionAt (store w) p)).
    { rewrite Hs. destruct (0 <? m); [rewrite upd_same|]; reflexivity. }
    pose proof (enforce_actions p child wa Hact') as He. cbv zeta in He.
    rewrite Hmac, Ht in He.
    destruct (sess_IsActive (sessionAt (store (run (enforce p child) wa)) p)); exact He.
  - unfold tickSession. gorun. rewrite Hact. cbn [negb]. gorun.
    rewrite result_GetChild in Hchild. rewrite Hchild.
    destruct (deauthSession_actions p "child_deleted" w) as (Ha & Hoff). cbv zeta in *.
    rewrite Hoff. exact Ha.
Qed.

Lemma tick_loop_actions now l : forall w,
  let w' := run (forRange l (tickSession now)) w in
  exists revoked,
    NoDup revoked
    /\ (forall p, In p revoked <->
                  In p l /\ sess_IsActive (sessionAt (store w) p) = true
                  /\ sess_IsActive (sessionAt (store w') p) = false)
    /\ addsActions (revocations (store w) revoked) (trace w) (trace w').
Proof.
  induction l as [|p rest IH]; intro w.
  - cbn [forRange]. rewrite run_ret. exists []. split; [constructor|]. split.
    + intro p. split; [intros []|intros ([] & _)].
    + apply addsActions_refl.
  - cbv zeta. rewrite forRange_cons.
    destruct (tickSession_step now p w) as (_ & _ & _ & Ss & Sother & _).
    pose proof (tickSession_actions now p w) as Sa.
    set (w1 := run (tickSession now p) w) in *.
    destruct (tick_loop_frame now rest w1) as (_ & _ & _ & Ls & Lother & _).
    destruct (IH w1) as (revoked & Hnd & Hiff & Ha).
    set (w' := run (forRange rest (tickSession now)) w1) in *. cbv zeta in *.
    assert (Hrev : revocations (store w1) revoked = revocations (store w) revoked).
    { unfold revocations. f_equal. apply map_ext. intro q. f_equal. apply Ss. }
    rewrite Hrev in Ha.
    pose proof (addsActions_trans _ _ _ _ _ Sa Ha) as Hall.
    destruct (sess_IsActive (sessionAt (store w) p)) eqn:Hact;
      [destruct (sess_IsActive (sessionAt (store w1) p)) eqn:Hact1|]; cbn [andb negb] in Hall.
    + (* still active after its own pass *)
      rewrite app_nil_r in Hall. exists revoked. split; [assumption|]. split; [|assumption].
      intro q. rewrite Hiff. split.
      * intros (Hq & Hq1 & Hq'). split; [now right|]. split; [now apply Ss|assumption].
      * intros ([<-|Hq] & Hqa & Hq').
        -- destruct (in_dec Nat.eq_dec p rest) as [Hin|Hnin]; [auto|].
           rewrite (Lother p Hnin) in Hq'. congruence.
        -- destruct (Nat.eq_dec q p) as [->|Hne]; [auto|].
           rewrite <- (Sother q Hne) in Hqa. auto.
    + (* revoked by its own pass *)
      exists (p :: revoked). split; [|split].
      * constructor; [|assumption]. intro Hin. apply Hiff in Hin as (_ & Hin & _). congruence.
      * intro q. cbn [In]. rewrite Hiff. split.
        -- intros [<-|(Hq & Hq1 & Hq')].
           ++ split; [now left|]. split; [assumption|].
              destruct (sess_IsActive (sessionAt (store w') p)) eqn:E; [|reflexivity].
              apply Ls in E. congruence.
           ++ split; [now right|]. split; [now apply Ss|assumption].
        -- intros ([<-|Hq] & Hqa & Hq'); [now left|].
           destruct (Nat.eq_dec q p) as [->|Hne]; [now left|]. right.
           rewrite <- (Sother q Hne) in Hqa. auto.
      * unfold revocations in *. cbn [map rev]. exact Hall.
    + (* not active to begin with *)
      rewrite app_nil_r in Hall. exists revoked. split; [assumption|]. split; [|assumption].
      intro q. rewrite Hiff. split.
      * intros (Hq & Hq1 & Hq'). split; [now right|]. split; [now apply Ss|assumption].
      * intros ([<-|Hq] & Hqa & Hq'); [congruence|].
        destruct (Nat.eq_dec q p) as [->|Hne]; [congruence|].
        rewrite <- (Sother q Hne) in Hqa. auto.
Qed.

Lemma checkDailyReset_actions now w :
  addsActions [] (trace w) (trace (run (checkDailyReset now) w)).
Proof.
  unfold checkDailyReset, ListChildren, ResetDailyQuotas, saveFile_children, log_Printf,
    emit, run, result, ask, getStore, putStore, bind, ret. simpl.
  destruct (anyStale _ _ _); simpl; [destruct (write_fails _ _); simpl|]; traced.
Qed.

(** During a tick the controller is told to deauthorize, and nothing else:
    it gets exactly one deauthorize call for each stored session the tick
    turns from active to inactive, for that session's MAC, and no call for
    any other session; it is never told to authorize, and the tick never
    pauses.  No session is activated. *)
Theorem tick_calls_the_controller_once_per_revoked_session :
  forall w,
    let w' := run tick w in
    (forall p, sess_IsActive (sessionAt (store w') p) = true ->
               sess_IsActive (sessionAt (store w) p) = true)
    /\ exists revoked,
         NoDup revoked
         /\ (forall p, In p revoked <->
                       In p (sessions (store w))
                       /\ sess_IsActive (sessionAt (store w) p) = true
                       /\ sess_IsActive (sessionAt (store w') p) = false)
         /\ addsActions (revocations (store w) revoked) (trace w) (trace w').
Proof.
  intros w w'. subst w'. unfold tick. gorun.
  set (w0 := {| store := store w; trace := trace w; step := S (step w); env := env w |}).
  set (now := now_at (env w) (step w)).
  destruct (checkDailyReset_frame now w0) as (Rsa & Rss & _).
  pose proof (checkDailyReset_actions now w0) as Ra.
  set (wr := run (checkDailyReset now) w0) in *. cbv zeta in *.
  unfold ListSessions. gorun. unfold result. simpl.
  change (store w0) with (store w) in *. change (trace w0) with (trace w) in *.
  assert (Hl : activeSessions (store wr) = activeSessions (store w))
    by (unfold activeSessions; now rewrite Rsa, Rss).
  rewrite Hl. set (l := activeSessions (store w)) in *.
  destruct (tick_loop_frame now l wr) as (_ & _ & _ & Ls & Lother & _).
  destruct (tick_loop_actions now l wr) as (revoked & Hnd & Hiff & Ha).
  cbv zeta in *. split.
  - intros p Hp. rewrite <- Rsa. now apply Ls.
  - exists revoked. split; [assumption|]. split.
    + intro p. rewrite Hiff, Rsa. unfold l, activeSessions. rewrite filter_In. tauto.
    + unfold revocations in *. rewrite Rsa in Ha.
      pose proof (addsActions_trans _ _ _ _ _ Ra Ha) as Hall.
      now rewrite app_nil_r in Hall.
Qed.

Lemma tick_loop_orphans now l : forall w p,
  In p l -> owner (store w) p = None ->
  sess_IsActive (sessionAt (store (run (forRange l (tickSession now)) w)) p) = false.
Proof.
  induction l as [|p0 rest IH]; intros w p Hp Hown; [destruct Hp|].
  rewrite forRange_cons.
  destruct (tickSession_step now p0 w) as (Scs & Sid & _ & Ss & _ & _ & Sq & _).
  set (w1 := run (tickSession now p0) w) in *.
  destruct (tick_loop_frame now rest w1) as (_ & _ & _ & Ls & _).
  cbv zeta in *.
  assert (Hown1 : owner (store w1) p = None).
  { rewrite <- Hown. apply owner_stable; auto; [intro c; apply Sid | apply Ss]. }
  destruct (in_dec Nat.eq_dec p rest) as [Hin|Hnin]; [now apply IH|].
  destruct Hp as [->|Hp]; [|contradiction].
  destruct (sess_IsActive (sessionAt (store (run (forRange rest (tickSession now)) w1)) p))
    eqn:E; [|reflexivity].
  apply Ls in E. destruct (Sq E) as (c & Hc & _). congruence.
Qed.

(** A session whose child id no stored child has is revoked by the tick. *)
Lemma tick_revokes_orphans w p :
  let w' := run tick w in
  In p (sessions (store w)) ->
  sess_IsActive (sessionAt (store w) p) = true ->
  owner (store w) p = None ->
  sess_IsActive (sessionAt (store w') p) = false
  /\ exists new, trace w' = (new ++ trace w)%list
                 /\ In (NdsDeauth (MAC (sessionAt (store w) p))) new.
Proof.
  intros w' Hp Hact Hown. subst w'. unfold tick. gorun.
  set (w0 := {| store := store w; trace := trace w; step := S (step w); env := env w |}).
  set (now := now_at (env w) (step w)).
  destruct (checkDailyReset_frame now w0) as (Rsa & Rss & Rcs & Rid & newr & Rt & _).
  set (wr := run (checkDailyReset now) w0) in *. cbv zeta in *.
  unfold ListSessions. gorun. unfold result. simpl.
  change (store w0) with (store w) in *. change (trace w0) with (trace w) in *.
  assert (Hl : activeSessions (store wr) = activeSessions (store w))
    by (unfold activeSessions; now rewrite Rsa, Rss).
  rewrite Hl. set (l := activeSessions (store w)) in *.
  assert (Hin : In p l) by (apply filter_In; auto).
  assert (Hown' : owner (store wr) p = None).
  { rewrite <- Hown. apply owner_stable; auto. now rewrite Rsa. }
  pose proof (tick_loop_orphans now l wr p Hin Hown') as Hoff.
  destruct (tick_loop_frame now l wr) as (_ & _ & _ & _ & _ & _ & new & Lt & Ld).
  split; [assumption|].
  exists (new ++ newr)%list. split; [rewrite Lt, Rt; now rewrite app_assoc|].
  apply in_or_app. left. rewrite <- Rsa. apply Ld; auto. now rewrite Rsa.
Qed.

(** Deleting a child revokes nothing by itself: the child's sessions stay
    active and the controller is not called.  When the stored child ids are
    pairwise different, the next tick finds no child for such a session,
    tells the controller to deauthorize its MAC and marks it inactive. *)
Theorem sessions_of_a_deleted_child_are_revoked_by_the_next_tick :
  forall id w p,
    NoDup (map (fun c => ID (childAt (store w) c)) (children (store w))) ->
    In p (sessions (store w)) ->
    sess_IsActive (sessionAt (store w) p) = true ->
    ChildID (sessionAt (store w) p) = id ->
    let w1 := run (DeleteChild id) w in
    let w2 := run tick w1 in
    sess_IsActive (sessionAt (store w1) p) = true
    /\ trace w1 = trace w
    /\ sess_IsActive (sessionAt (store w2) p) = false
    /\ exists new, trace w2 = (new ++ trace w)%list
                   /\ In (NdsDeauth (MAC (sessionAt (store w) p))) new.
Proof.
  intros id w p Hnd Hp Hact Hid w1 w2. subst w2.
  destruct (DeleteChild_slots id w) as (Hh & Hl & Hsa & Hss & Ht). cbv zeta in *.
  fold w1 in Hh, Hl, Hsa, Hss, Ht.
  assert (Hown : owner (store w1) p = None).
  { unfold owner. rewrite Hh, Hl, Hsa, Hid.
    now apply (removeFirst_unique (childAt (store w)) ID). }
  assert (Hp1 : In p (sessions (store w1))) by now rewrite Hss.
  assert (Hact1 : sess_IsActive (sessionAt (store w1) p) = true) by now rewrite Hsa.
  destruct (tick_revokes_orphans w1 p Hp1 Hact1 Hown) as (Hoff & new & Hnew & Hin).
  rewrite Hsa, Ht in *. repeat split; auto. exists new. auto.
Qed.

Lemma sessions_of_a_deleted_child_witness :
  sess_IsActive
    (sessionAt
       (store (run tick
                 (run (DeleteChild "c1")
                    (Household.home_with Household.calm
                       [Household.online "s1" Household.phone 0])))) 0%nat)
  = false.
Proof.
  exact (proj1 (proj2 (proj2
    (sessions_of_a_deleted_child_are_revoked_by_the_next_tick "c1"
       (Household.home_with Household.calm [Household.online "s1" Household.phone 0]) 0%nat
       ltac:(repeat constructor; simpl; tauto) ltac:(simpl; tauto) eq_refl eq_refl)))).
Defined.

(** ** The daily reset *)

Lemma anyStale_false h today slots :
  anyStale h today slots = false <-> forall p, In p slots -> LastResetDate (h p) = today.
Proof.
  split.
  - intros H p Hp. destruct (String.eqb_spec (LastResetDate (h p)) today) as [E|E]; [exact E|].
    assert (T : anyStale h today slots = true) by (apply anyStale_true; eauto). congruence.
  - intro H. destruct (anyStale h today slots) eqn:E; [|reflexivity].
    apply anyStale_true in E as (p & Hp & Hne). elim Hne. auto.
Qed.

Lemma checkDailyReset_settled now w :
  anyStale (childAt (store w)) (Format_date now) (children (store w)) = false ->
  run (checkDailyReset now) w = w.
Proof.
  intro H.
  unfold checkDailyReset, ListChildren, run, result, getStore, bind, ret. simpl.
  rewrite H. now destruct w.
Qed.

Lemma checkDailyReset_dates now w :
  let w1 := run (checkDailyReset now) w in
  children (store w1) = children (store w)
  /\ forall p, In p (children (store w1)) ->
               LastResetDate (childAt (store w1) p) = Format_date now.
Proof.
  unfold checkDailyReset, ListChildren, ResetDailyQuotas, saveFile_children, log_Printf,
    emit, run, result, ask, getStore, putStore, bind, ret. simpl.
  destruct (anyStale (childAt (store w)) (Format_date now) (children (store w))) eqn:Hstale.
  - destruct (write_fails (env w) (step w)); simpl; (split; [reflexivity|]);
      intros p Hp; rewrite resetAll_spec;
      destruct (in_dec Nat.eq_dec p (children (store w))); try contradiction; reflexivity.
  - simpl. split; [reflexivity|]. now apply anyStale_false.
Qed.

(** After the reset check has run at some instant, every stored child
    carries that instant's date, so the check at any later instant of the
    same date changes nothing at all: usage accrued since is not wiped, and
    children.json is not rewritten. *)
Theorem checkDailyReset_resets_once_a_day :
  forall now later w,
    Format_date later = Format_date now ->
    let w1 := run (checkDailyReset now) w in
    (forall p, In p (children (store w1)) ->
               LastResetDate (childAt (store w1) p) = Format_date now)
    /\ run (checkDailyReset later) w1 = w1
    /\ (forall w2,
          children (store w2) = children (store w1) ->
          (forall p, LastResetDate (childAt (store w2) p)
                     = LastResetDate (childAt (store w1) p)) ->
          run (checkDailyReset later) w2 = w2).
Proof.
  intros now later w Hdate w1.
  destruct (checkDailyReset_dates now w) as (Hcs & Hd). fold w1 in Hcs, Hd.
  split; [exact Hd|]. split.
  - apply checkDailyReset_settled. apply anyStale_false. rewrite Hdate. exact Hd.
  - intros w2 Hcs2 Hd2. apply checkDailyReset_settled. apply anyStale_false.
    rewrite Hdate, Hcs2. intros p Hp. rewrite Hd2. now apply Hd.
Qed.

Lemma checkDailyReset_once_a_day_witness :
  run (checkDailyReset (Household.at_second 60))
    (run (checkDailyReset (Household.at_second 0))
       (mkWorld (mkStore (fun _ => Household.kid 120 45) (fun _ => Household.idle)
                   [Household.parent] [0%nat] [] [] [] [])
          [] 0 Household.calm))
  = run (checkDailyReset (Household.at_second 0))
      (mkWorld (mkStore (fun _ => Household.kid 120 45) (fun _ => Household.idle)
                  [Household.parent] [0%nat] [] [] [] [])
         [] 0 Household.calm).
Proof.
  exact (proj1 (proj2
    (checkDailyReset_resets_once_a_day (Household.at_second 0) (Household.at_second 60)
       (mkWorld (mkStore (fun _ => Household.kid 120 45) (fun _ => Household.idle)
                   [Household.parent] [0%nat] [] [] [] [])
          [] 0 Household.calm)
       eq_refl))).
Defined.

(** ** The children API *)

Lemma upsert_same_id (h h' : ptr -> Child) child id idc slots :
  firstWhere h (fun c => String.eqb (ID c) id) slots = Some child ->
  (forall q, ID (h' q) = ID (h q)) ->
  idc = ID (h child) ->
  upsert h' (fun c => String.eqb (ID c) idc) child slots = slots.
Proof.
  intros Hfound Hid ->.
  assert (E : ID (h child) = id).
  { apply firstWhere_Some in Hfound as [_ H]. now apply String.eqb_eq in H. }
  rewrite upsert_ext with (obj := h) (test := fun c => String.eqb (ID c) id).
  - now apply upsert_first.
  - intros q _. now rewrite Hid, E.
Qed.

Lemma upd_twice {A : Type} (h : ptr -> A) p a b q : upd (upd h p a) p b q = upd h p b q.
Proof. unfold upd. now destruct (Nat.eqb q p). Qed.

Lemma upd_keeps_ID (h : ptr -> Child) p c q :
  ID c = ID (h p) -> ID (upd h p c q) = ID (h q).
Proof.
  intro H. unfold upd. destruct (Nat.eqb q p) eqn:E; [|reflexivity].
  apply Nat.eqb_eq in E. now subst q.
Qed.

Lemma adjustQuota_world id minutes w child :
  result (GetChild id) w = Some child ->
  let c := childAt (store w) child in
  let c' := set_UpdatedAt (set_UsedTodayMin c (ChildrenApi.adjusted c minutes))
              (now_at (env w) (step w)) in
  let w' := run (ChildrenApi.adjustQuota id (Some minutes)) w in
  (forall q, childAt (store w') q = upd (childAt (store w)) child c' q)
  /\ children (store w') = children (store w)
  /\ sessionAt (store w') = sessionAt (store w)
  /\ sessions (store w') = sessions (store w)
  /\ trace w' = trace w
  /\ result (ChildrenApi.adjustQuota id (Some minutes)) w
     = if write_fails (env w) (S (step w))
       then ChildrenApi.ChildError 500 "failed to adjust quota"
       else ChildrenApi.ChildJSON 200 (ChildrenApi.toChildResponse c').
Proof.
  intros Hfound c c' w'. subst w'.
  pose proof Hfound as Hf. rewrite result_GetChild in Hf.
  unfold ChildrenApi.adjustQuota, ChildrenApi.saveAndAnswer, SaveChild, saveFile_children,
    GetChild, time_Now, ask, readChild, writeChild, getStore, putStore, run, result, bind, ret.
  cbn. rewrite Hf. cbn. rewrite !upd_same. fold c. fold c'.
  match goal with
  | |- context [upsert ?h' ?t child (children (store w))] =>
      assert (Hup : upsert h' t child (children (store w)) = children (store w))
        by (apply (upsert_same_id (childAt (store w)) h' child id); auto;
            intro q; rewrite !upd_keeps_ID; auto; now rewrite upd_same)
  end.
  rewrite !Hup.
  destruct (write_fails (env w) (S (step w))); cbn; rewrite ?upd_same;
    repeat split; auto; intro q; apply upd_twice.
Qed.

Lemma int_sub_exact a b : minInt <= a - b <= maxInt -> int_sub a b = a - b.
Proof.
  unfold int_sub, wrap, minInt, maxInt. intro H.
  rewrite Z.mod_small; lia.
Qed.

Lemma adjusted_exact c minutes :
  minInt <= DailyQuotaMin c + 480 <= maxInt ->
  minInt <= UsedTodayMin c - minutes <= maxInt ->
  ChildrenApi.adjusted c minutes
  = Z.min (DailyQuotaMin c + 480) (Z.max 0 (UsedTodayMin c - minutes)).
Proof.
  intros Hq Hu. unfold ChildrenApi.adjusted. cbv zeta.
  rewrite int_sub_exact, int_add_exact by assumption.
  destruct (Z.ltb_spec (UsedTodayMin c - minutes) 0) as [H0|H0].
  - destruct (Z.ltb_spec (DailyQuotaMin c + 480) 0); clear Hq Hu; lia.
  - destruct (Z.ltb_spec (DailyQuotaMin c + 480) (UsedTodayMin c - minutes));
      clear Hq Hu; lia.
Qed.

(** The administrator's quota adjustment, for a stored child and as long
    as the arithmetic stays inside Go's [int]: the new usage is the old one
    minus the granted minutes, cut off at 0 and then at quota + 480; no
    other field that counts and no other child changes, and the child is
    still found by its id.  With a quota of at least -480 the usage ends
    between 0 and quota + 480; with a smaller (negative) quota the second
    cut-off makes it negative.  Granting minutes to a child within its
    quota raises what remains by the grant, but by no more than was used.
    The change is made in memory before the file is written, so it stands
    also when the write fails and the answer is the 500 error. *)
Theorem adjustQuota_cuts_usage_off_at_zero_and_quota_plus_480 :
  forall id minutes w child,
    result (GetChild id) w = Some child ->
    minInt <= DailyQuotaMin (childAt (store w) child) + 480 <= maxInt ->
    minInt <= UsedTodayMin (childAt (store w) child) - minutes <= maxInt ->
    let c := childAt (store w) child in
    let w' := run (ChildrenApi.adjustQuota id (Some minutes)) w in
    let c' := childAt (store w') child in
    UsedTodayMin c' = Z.min (DailyQuotaMin c + 480) (Z.max 0 (UsedTodayMin c - minutes))
    /\ (-480 <= DailyQuotaMin c -> 0 <= UsedTodayMin c' <= DailyQuotaMin c + 480)
    /\ (DailyQuotaMin c < -480 -> UsedTodayMin c' < 0)
    /\ (0 <= minutes -> 0 <= UsedTodayMin c <= DailyQuotaMin c ->
        RemainingMinutes c' = RemainingMinutes c + Z.min minutes (UsedTodayMin c))
    /\ (ID c' = ID c /\ DailyQuotaMin c' = DailyQuotaMin c /\ Devices c' = Devices c
        /\ LastResetDate c' = LastResetDate c)
    /\ (forall q, q <> child -> childAt (store w') q = childAt (store w) q)
    /\ result (GetChild id) w' = Some child
    /\ result (ChildrenApi.adjustQuota id (Some minutes)) w
       = (if write_fails (env w) (S (step w))
          then ChildrenApi.ChildError 500 "failed to adjust quota"
          else ChildrenApi.ChildJSON 200 (ChildrenApi.toChildResponse c')).
Proof.
  intros id minutes w child Hfound Hq Hu c w' c'.
  destruct (adjustQuota_world id minutes w child Hfound) as (Hc & Hcs & _ & _ & _ & Hres).
  cbv zeta in *. fold c w' in Hc, Hcs, Hres. fold c in Hq, Hu.
  assert (Ec : c' = set_UpdatedAt (set_UsedTodayMin c (ChildrenApi.adjusted c minutes))
                      (now_at (env w) (step w))).
  { unfold c'. now rewrite Hc, upd_same. }
  assert (Hused : UsedTodayMin c'
                  = Z.min (DailyQuotaMin c + 480) (Z.max 0 (UsedTodayMin c - minutes))).
  { rewrite Ec. cbn [set_UpdatedAt set_UsedTodayMin UsedTodayMin].
    now apply adjusted_exact. }
  assert (Hquota : DailyQuotaMin c' = DailyQuotaMin c) by (now rewrite Ec).
  split; [exact Hused|]. split; [intro; lia|]. split; [intro; lia|]. split; [|split; [|split; [|split]]].
  - intros Hm Hin. unfold RemainingMinutes. rewrite Hquota, Hused.
    unfold minInt, maxInt in *.
    rewrite !int_sub_exact by (unfold minInt, maxInt; lia).
    destruct (Z.ltb_spec (DailyQuotaMin c - Z.min (DailyQuotaMin c + 480)
                                            (Z.max 0 (UsedTodayMin c - minutes))) 0);
      destruct (Z.ltb_spec (DailyQuotaMin c - UsedTodayMin c) 0); lia.
  - now rewrite Ec.
  - intros q Hne. now rewrite Hc, upd_other.
  - rewrite !result_GetChild, Hcs.
    rewrite result_GetChild in Hfound. rewrite <- Hfound.
    apply firstWhere_ext. intros q _. rewrite Hc. f_equal.
    apply upd_keeps_ID. reflexivity.
  - rewrite Hres. now rewrite <- Ec.
Qed.

Lemma adjustQuota_witness :
  UsedTodayMin
    (childAt (store (run (ChildrenApi.adjustQuota "c1" (Some 30))
                       (mkWorld (mkStore (fun _ => Household.kid 120 45)
                                   (fun _ => Household.idle) [Household.parent] [0%nat]
                                   [] [] [] [])
                          [] 0 Household.calm))) 0%nat)
  = 15.
Proof.
  exact (proj1
    (adjustQuota_cuts_usage_off_at_zero_and_quota_plus_480 "c1" 30
       (mkWorld (mkStore (fun _ => Household.kid 120 45) (fun _ => Household.idle)
                   [Household.parent] [0%nat] [] [] [] [])
          [] 0 Household.calm)
       0%nat eq_refl
       ltac:(vm_compute; split; discriminate) ltac:(vm_compute; split; discriminate))).
Defined.

(** Evaluation of a handler on a world given by its fields: the monad and
    the store operations are unfolded, arguments first, so that no
    intermediate world is copied; records of the model stay folded. *)
Ltac crunch :=
  cbv beta iota zeta delta
    [bind ret run result getStore putStore emit ask getEnv time_Now time_Sleep log_Printf
     readChild readSession writeChild writeSession
     SaveChild saveFile_children SaveSession saveFile_sessions GetChild GetSession
     GetSessionByMAC GetChildByUsername DeleteChild
     fst snd store trace step env childAt sessionAt admins children sessions schedules
     children_json sessions_json].

Ltac crunch_in H :=
  cbv beta iota zeta delta
    [bind ret run result getStore putStore emit ask getEnv time_Now time_Sleep log_Printf
     readChild readSession writeChild writeSession
     SaveChild saveFile_children SaveSession saveFile_sessions GetChild GetSession
     GetSessionByMAC GetChildByUsername DeleteChild
     fst snd store trace step env childAt sessionAt admins children sessions schedules
     children_json sessions_json] in H.

(** Saving a child the lookup by id has returned, with its id unchanged,
    puts it back into its slot. *)
Lemma AddDevice_ID c mac name seen : ID (AddDevice c mac name seen) = ID c.
Proof. unfold AddDevice. now destruct (HasDevice c mac). Qed.

Ltac saved_in_place h cs child id :=
  match goal with
  | |- context [upsert ?h' ?t child cs] =>
      let Hup := fresh "Hup" in
      assert (Hup : upsert h' t child cs = cs)
        by (apply (upsert_same_id h h' child id);
            [ assumption
            | intro q; rewrite ?upd_keeps_ID; rewrite ?upd_same;
              cbn [ID set_UpdatedAt set_UsedTodayMin set_LastResetDate set_Devices
                   set_DailyQuotaMin]; rewrite ?AddDevice_ID; auto
            | rewrite ?upd_same;
              cbn [ID set_UpdatedAt set_UsedTodayMin set_LastResetDate set_Devices
                   set_DailyQuotaMin]; rewrite ?AddDevice_ID; auto ]);
      rewrite !Hup; clear Hup
  end.

Lemma resetQuota_world id w child :
  result (GetChild id) w = Some child ->
  let c := childAt (store w) child in
  let c' := set_UpdatedAt
              (set_LastResetDate (set_UsedTodayMin c 0) (Format_date (now_at (env w) (step w))))
              (now_at (env w) (S (step w))) in
  let w' := run (ChildrenApi.resetQuota id) w in
  (forall q, childAt (store w') q = upd (childAt (store w)) child c' q)
  /\ children (store w') = children (store w)
  /\ sessionAt (store w') = sessionAt (store w)
  /\ sessions (store w') = sessions (store w)
  /\ trace w' = trace w
  /\ result (ChildrenApi.resetQuota id) w
     = if write_fails (env w) (S (S (step w)))
       then ChildrenApi.ChildError 500 "failed to reset quota"
       else ChildrenApi.ChildJSON 200 (ChildrenApi.toChildResponse c').
Proof.
  intros Hf c c' w'. subst w' c' c.
  destruct w as [[h sa ad cs ss sc cj sj] tr n e].
  unfold ChildrenApi.resetQuota, ChildrenApi.saveAndAnswer. crunch. crunch_in Hf.
  rewrite Hf. crunch. rewrite !upd_same.
  saved_in_place h cs child id.
  destruct (write_fails e (S (S n))); crunch; rewrite ?upd_same;
    repeat split; auto; intro q; rewrite !upd_twice; reflexivity.
Qed.

Lemma addDevice_world id mac name w child :
  result (GetChild id) w = Some child ->
  mac <> "" ->
  let c := childAt (store w) child in
  let w' := run (ChildrenApi.addDevice id (Some (mac, name))) w in
  (exists seen updated,
     forall q, childAt (store w') q
               = upd (childAt (store w)) child
                   (set_UpdatedAt (AddDevice c mac name seen) updated) q)
  /\ children (store w') = children (store w)
  /\ sessionAt (store w') = sessionAt (store w)
  /\ sessions (store w') = sessions (store w)
  /\ trace w' = trace w.
Proof.
  intros Hf Hmac c w'. subst w' c.
  destruct w as [[h sa ad cs ss sc cj sj] tr n e].
  unfold ChildrenApi.addDevice, ChildrenApi.saveAndAnswer. crunch. crunch_in Hf.
  rewrite Hf. crunch. destruct (String.eqb_spec mac ""); [contradiction|]. crunch.
  destruct (HasDevice (h child) mac) eqn:Hhas; crunch; rewrite ?upd_same.
  - saved_in_place h cs child id.
    destruct (write_fails e (S n)); crunch;
      (split; [exists zeroTime, (now_at e n); intro q;
               unfold AddDevice; rewrite Hhas; reflexivity|auto]).
  - saved_in_place h cs child id.
    destruct (write_fails e (S (S n))); crunch;
      (split; [exists (now_at e n), (now_at e (S n)); intro q;
               rewrite upd_twice; reflexivity|auto]).
Qed.

Lemma removeDevice_world id mac w child :
  result (GetChild id) w = Some child ->
  mac <> "" ->
  let c := childAt (store w) child in
  let c' := set_UpdatedAt (set_Devices c (ChildrenApi.withoutDevice (Devices c) mac))
              (now_at (env w) (step w)) in
  let w' := run (ChildrenApi.removeDevice id mac) w in
  (forall q, childAt (store w') q = upd (childAt (store w)) child c' q)
  /\ children (store w') = children (store w)
  /\ sessionAt (store w') = sessionAt (store w)
  /\ sessions (store w') = sessions (store w)
  /\ trace w' = trace w.
Proof.
  intros Hf Hmac c c' w'. subst w' c' c.
  destruct w as [[h sa ad cs ss sc cj sj] tr n e].
  unfold ChildrenApi.removeDevice, ChildrenApi.saveAndAnswer. crunch. crunch_in Hf.
  rewrite Hf. crunch. destruct (String.eqb_spec mac ""); [contradiction|]. crunch.
  rewrite !upd_same.
  saved_in_place h cs child id.
  destruct (write_fails e (S n)); crunch; rewrite ?upd_same;
    repeat split; auto; intro q; rewrite !upd_twice; reflexivity.
Qed.

Lemma GetChild_after_update w w' id child :
  children (store w') = children (store w) ->
  (forall q, ID (childAt (store w') q) = ID (childAt (store w) q)) ->
  result (GetChild id) w = Some child ->
  result (GetChild id) w' = Some child.
Proof.
  intros Hcs Hid Hfound. rewrite result_GetChild in *. rewrite Hcs, <- Hfound.
  apply firstWhere_ext. intros q _. now rewrite Hid.
Qed.

Lemma AddDevice_has c mac name seen : HasDevice (AddDevice c mac name seen) mac = true.
Proof.
  unfold AddDevice. destruct (HasDevice c mac) eqn:H; [assumption|].
  unfold HasDevice, set_Devices. cbn [Devices]. rewrite hasDeviceIn_app.
  cbn [hasDeviceIn dev_MAC]. rewrite String.eqb_refl. apply orb_true_r.
Qed.

(** The device handlers of the children API, for a stored child and a
    non-empty MAC: after [addDevice] the child (still found by its id) has
    the device and is found by the MAC; after [removeDevice] it has it no
    longer, its other devices are the same, and if the device was new the
    list is the old one again.  Neither handler touches the child's
    identity, quota or usage, another child, a session or the controller. *)
Theorem device_handlers_add_and_forget :
  forall id mac name w child,
    result (GetChild id) w = Some child ->
    mac <> "" ->
    let c := childAt (store w) child in
    let wa := run (ChildrenApi.addDevice id (Some (mac, name))) w in
    let wr := run (ChildrenApi.removeDevice id mac) wa in
    (result (GetChild id) wa = Some child
     /\ HasDevice (childAt (store wa) child) mac = true
     /\ result (GetChildByMAC mac) wa <> None
     /\ quotaView (childAt (store wa) child) = quotaView c
     /\ (forall q, q <> child -> childAt (store wa) q = childAt (store w) q)
     /\ sessionAt (store wa) = sessionAt (store w) /\ trace wa = trace w)
    /\ (result (GetChild id) wr = Some child
        /\ HasDevice (childAt (store wr) child) mac = false
        /\ (forall other, other <> mac ->
              HasDevice (childAt (store wr) child) other = HasDevice c other)
        /\ (HasDevice c mac = false -> Devices (childAt (store wr) child) = Devices c)
        /\ quotaView (childAt (store wr) child) = quotaView c
        /\ (forall q, q <> child -> childAt (store wr) q = childAt (store w) q)
        /\ sessionAt (store wr) = sessionAt (store w) /\ trace wr = trace w).
Proof.
  intros id mac name w child Hfound Hmac c wa wr.
  destruct (addDevice_world id mac name w child Hfound Hmac)
    as ((seen & updated & Ha) & Hacs & Hasa & _ & Hat).
  cbv zeta in *. fold c wa in Ha, Hacs, Hasa, Hat.
  assert (Hac : childAt (store wa) child = set_UpdatedAt (AddDevice c mac name seen) updated)
    by (now rewrite Ha, upd_same).
  assert (Haid : forall q, ID (childAt (store wa) q) = ID (childAt (store w) q)).
  { intro q. rewrite Ha. apply upd_keeps_ID. cbn [set_UpdatedAt ID]. apply AddDevice_ID. }
  assert (Hfa : result (GetChild id) wa = Some child)
    by (now apply (GetChild_after_update w wa)).
  assert (Hhas : HasDevice (childAt (store wa) child) mac = true).
  { rewrite Hac. unfold HasDevice. cbn [set_UpdatedAt Devices]. apply AddDevice_has. }
  destruct (removeDevice_world id mac wa child Hfa Hmac) as (Hr & Hrcs & Hrsa & _ & Hrt).
  cbv zeta in *. fold wr in Hr, Hrcs, Hrsa, Hrt.
  assert (Hrc : Devices (childAt (store wr) child)
                = ChildrenApi.withoutDevice (Devices (AddDevice c mac name seen)) mac).
  { rewrite Hr, upd_same, Hac. reflexivity. }
  assert (Hrq : quotaView (childAt (store wr) child) = quotaView c).
  { rewrite Hr, upd_same, Hac. unfold quotaView. cbn [set_UpdatedAt set_Devices ID Name
      DailyQuotaMin UsedTodayMin]. apply AddDevice_quotaView. }
  split; [|split; [|split; [|split; [|split; [|split; [|split; [|split]]]]]]].
  - split; [assumption|]. split; [assumption|]. split; [|split; [|split; [|split]]].
    + change (result (GetChildByMAC mac) wa)
        with (firstWhere (childAt (store wa)) (fun x => HasDevice x mac) (children (store wa))).
      intro Hnone.
      rewrite firstWhere_None in Hnone. specialize (Hnone child).
      rewrite Hhas in Hnone.
      enough (In child (children (store wa))) by (specialize (Hnone H); discriminate).
      rewrite result_GetChild in Hfa. now apply firstWhere_Some in Hfa as [Hin _].
    + rewrite Hac. unfold quotaView. cbn [set_UpdatedAt ID Name DailyQuotaMin UsedTodayMin].
      apply AddDevice_quotaView.
    + intros q Hne. now rewrite Ha, upd_other.
    + assumption.
    + assumption.
  - now apply (GetChild_after_update wa wr);
      [|intro q; rewrite Hr; apply upd_keeps_ID|].
  - unfold HasDevice. rewrite Hrc. apply withoutDevice_forgets.
  - intros other Hne. unfold HasDevice at 1. rewrite Hrc, withoutDevice_keeps by assumption.
    unfold AddDevice. destruct (HasDevice c mac); [reflexivity|].
    unfold HasDevice, set_Devices. cbn [Devices]. rewrite hasDeviceIn_app.
    cbn [hasDeviceIn dev_MAC].
    destruct (String.eqb_spec mac other) as [E|_]; [congruence|]. apply orb_false_r.
  - intro Hno. rewrite Hrc. unfold AddDevice. rewrite Hno. unfold set_Devices. cbn [Devices].
    rewrite withoutDevice_app. cbn [ChildrenApi.withoutDevice dev_MAC].
    rewrite String.eqb_refl. cbn [negb]. rewrite app_nil_r.
    now apply withoutDevice_absent.
  - assumption.
  - intros q Hne. now rewrite Hr, upd_other, Ha, upd_other.
  - now rewrite Hrsa.
  - now rewrite Hrt.
Qed.

Lemma device_handlers_witness :
  HasDevice
    (childAt (store (run (ChildrenApi.addDevice "c1" (Some (Household.phone, "Phone")))
                       (Household.quiet_home Household.calm))) 0%nat)
    Household.phone = true
  /\ HasDevice
       (childAt
          (store (run (ChildrenApi.removeDevice "c1" Household.phone)
                    (run (ChildrenApi.addDevice "c1" (Some (Household.phone, "Phone")))
                       (Household.quiet_home Household.calm)))) 0%nat)
       Household.phone = false.
Proof.
  destruct (device_handlers_add_and_forget "c1" Household.phone "Phone"
              (Household.quiet_home Household.calm) 0%nat eq_refl ltac:(discriminate))
    as ((_ & Hadd & _) & (_ & Hrem & _)).
  split; [exact Hadd | exact Hrem].
Defined.

(** The administrator's quota reset, for a stored child: usage 0, the
    reset date of the moment (so the daily check of that day finds the
    child up to date), quota, identity and devices as before, no other
    child touched; with a quota inside Go's non-negative [int] all of it
    remains.  As with the adjustment, the change stands when the write
    fails and the answer is the 500 error.  An id that is not stored gets
    404 from every handler of the children API, and nothing changes. *)
Theorem resetQuota_resets_one_child :
  forall id w,
    match result (GetChild id) w with
    | Some child =>
        let c := childAt (store w) child in
        let w' := run (ChildrenApi.resetQuota id) w in
        let c' := childAt (store w') child in
        UsedTodayMin c' = 0
        /\ LastResetDate c' = Format_date (now_at (env w) (step w))
        /\ ID c' = ID c /\ DailyQuotaMin c' = DailyQuotaMin c /\ Devices c' = Devices c
        /\ (0 <= DailyQuotaMin c <= maxInt -> RemainingMinutes c' = DailyQuotaMin c)
        /\ (forall q, q <> child -> childAt (store w') q = childAt (store w) q)
        /\ result (GetChild id) w' = Some child
        /\ sessionAt (store w') = sessionAt (store w) /\ trace w' = trace w
        /\ result (ChildrenApi.resetQuota id) w
           = (if write_fails (env w) (S (S (step w)))
              then ChildrenApi.ChildError 500 "failed to reset quota"
              else ChildrenApi.ChildJSON 200 (ChildrenApi.toChildResponse c'))
    | None =>
        forall minutes body mac,
          ChildrenApi.resetQuota id w = (ChildrenApi.ChildError 404 "child not found", w)
          /\ ChildrenApi.adjustQuota id minutes w
             = (ChildrenApi.ChildError 404 "child not found", w)
          /\ ChildrenApi.addDevice id body w
             = (ChildrenApi.ChildError 404 "child not found", w)
          /\ ChildrenApi.removeDevice id mac w
             = (ChildrenApi.ChildError 404 "child not found", w)
          /\ ChildrenApi.delete id w = (ChildrenApi.ChildError 404 "child not found", w)
          /\ ChildrenApi.get id w = (ChildrenApi.ChildError 404 "child not found", w)
    end.
Proof.
  intros id w. destruct (result (GetChild id) w) as [child|] eqn:Hfound.
  - intros c w' c'.
    destruct (resetQuota_world id w child Hfound) as (Hc & Hcs & Hsa & _ & Ht & Hres).
    cbv zeta in *. fold c w' in Hc, Hcs, Hsa, Ht, Hres.
    assert (Ec : c' = set_UpdatedAt
                        (set_LastResetDate (set_UsedTodayMin c 0)
                           (Format_date (now_at (env w) (step w))))
                        (now_at (env w) (S (step w))))
      by (unfold c'; now rewrite Hc, upd_same).
    rewrite Hres, <- Ec. rewrite Ec at 1 2 3 4 5 6.
    cbn [set_UpdatedAt set_LastResetDate set_UsedTodayMin UsedTodayMin LastResetDate ID
         DailyQuotaMin Devices].
    repeat split; auto.
    + intro Hq. unfold RemainingMinutes.
      cbn [set_UpdatedAt set_LastResetDate set_UsedTodayMin UsedTodayMin DailyQuotaMin].
      rewrite int_sub_exact by (unfold minInt, maxInt in *; lia).
      destruct (Z.ltb_spec (DailyQuotaMin c - 0) 0); lia.
    + intros q Hne. now rewrite Hc, upd_other.
    + apply (GetChild_after_update w w'); auto. intro q. rewrite Hc. now apply upd_keeps_ID.
  - intros minutes body mac. rewrite result_GetChild in Hfound.
    unfold ChildrenApi.resetQuota, ChildrenApi.adjustQuota, ChildrenApi.addDevice,
      ChildrenApi.removeDevice, ChildrenApi.delete, ChildrenApi.get.
    unfold GetChild, getStore, bind, ret. cbn [fst snd]. rewrite Hfound. auto 7.
Qed.

(** ** The sessions API *)

Lemma extend_world id minutes w session child :
  result (GetSession id) w = Some session ->
  0 < minutes ->
  owner (store w) session = Some child ->
  let c := childAt (store w) child in
  let c' := set_DailyQuotaMin c (int_add (DailyQuotaMin c) minutes) in
  let w' := run (SessionsApi.extend id (Some minutes)) w in
  (forall q, childAt (store w') q = upd (childAt (store w)) child c' q)
  /\ children (store w') = children (store w)
  /\ sessionAt (store w') = sessionAt (store w)
  /\ sessions (store w') = sessions (store w)
  /\ trace w' = trace w
  /\ exists body, result (SessionsApi.extend id (Some minutes)) w = SessionJSON 200 body
                  /\ sr_RemainingMin body = RemainingMinutes c'.
Proof.
  intros Hf Hpos Hown c c' w'. subst w' c' c.
  rewrite result_GetSession in Hf. unfold owner in Hown.
  destruct w as [[h sa ad cs ss sc cj sj] tr n e].
  unfold SessionsApi.extend, toSessionResponse. crunch. crunch_in Hf. crunch_in Hown.
  rewrite Hf. crunch. destruct (Z.leb_spec minutes 0) as [|_]; [lia|]. crunch.
  rewrite Hown. crunch. rewrite ?upd_same.
  assert (Hid : ID (h child) = ChildID (sa session)).
  { apply firstWhere_Some in Hown as [_ H]. now apply String.eqb_eq in H. }
  saved_in_place h cs child (ChildID (sa session)).
  assert (Hagain : firstWhere
                     (upd h child (set_DailyQuotaMin (h child)
                                     (int_add (DailyQuotaMin (h child)) minutes)))
                     (fun c => String.eqb (ID c) (ChildID (sa session))) cs = Some child).
  { rewrite <- Hown. apply firstWhere_ext. intros q _. f_equal. now apply upd_keeps_ID. }
  destruct (write_fails e n); crunch; rewrite Hagain; crunch; rewrite ?upd_same;
    repeat split; auto; eexists; split; reflexivity.
Qed.

Lemma checkDailyReset_keeps_quota now w q :
  DailyQuotaMin (childAt (store (run (checkDailyReset now) w)) q)
  = DailyQuotaMin (childAt (store w) q).
Proof.
  unfold checkDailyReset, ListChildren, ResetDailyQuotas, saveFile_children, log_Printf,
    emit, run, result, ask, getStore, putStore, bind, ret. simpl.
  destruct (anyStale _ _ _); simpl; [|reflexivity].
  destruct (write_fails _ _); simpl; rewrite resetAll_spec;
    now destruct (in_dec Nat.eq_dec q (children (store w))).
Qed.

(** Extending a session by a positive number of minutes raises the daily
    quota of the session's child by that number (inside Go's [int]) and
    leaves its usage alone, so for a child within its quota what remains
    grows by exactly the minutes.  Nothing undoes the raise: the daily
    reset keeps it.  The handler changes no session and does not call the
    controller, so the session length the controller was given at login
    stays what it was.  Without a positive number the answer is 400 and
    nothing changes. *)
Theorem extend_raises_the_daily_quota_for_good :
  forall id minutes w session child,
    result (GetSession id) w = Some session ->
    0 < minutes ->
    owner (store w) session = Some child ->
    minInt <= DailyQuotaMin (childAt (store w) child) + minutes <= maxInt ->
    let c := childAt (store w) child in
    let w' := run (SessionsApi.extend id (Some minutes)) w in
    let c' := childAt (store w') child in
    DailyQuotaMin c' = DailyQuotaMin c + minutes
    /\ UsedTodayMin c' = UsedTodayMin c
    /\ (0 <= UsedTodayMin c <= DailyQuotaMin c ->
        RemainingMinutes c' = RemainingMinutes c + minutes)
    /\ (forall later,
          DailyQuotaMin (childAt (store (run (checkDailyReset later) w')) child)
          = DailyQuotaMin c + minutes)
    /\ (forall q, q <> child -> childAt (store w') q = childAt (store w) q)
    /\ sessionAt (store w') = sessionAt (store w)
    /\ sessions (store w') = sessions (store w)
    /\ trace w' = trace w
    /\ (exists body, result (SessionsApi.extend id (Some minutes)) w = SessionJSON 200 body
                     /\ sr_RemainingMin body = RemainingMinutes c')
    /\ (forall m, m <= 0 ->
          SessionsApi.extend id (Some m) w
          = (SessionError 400 "minutes must be positive", w)).
Proof.
  intros id minutes w session child Hf Hpos Hown Hrange c w' c'.
  destruct (extend_world id minutes w session child Hf Hpos Hown)
    as (Hc & Hcs & Hsa & Hss & Ht & Hres).
  cbv zeta in *. fold c w' in Hc, Hcs, Hsa, Hss, Ht, Hres. fold c in Hrange.
  assert (Ec : c' = set_DailyQuotaMin c (int_add (DailyQuotaMin c) minutes))
    by (unfold c'; now rewrite Hc, upd_same).
  assert (Hq : DailyQuotaMin c' = DailyQuotaMin c + minutes).
  { rewrite Ec. cbn [set_DailyQuotaMin DailyQuotaMin]. now apply int_add_exact. }
  assert (Hu : UsedTodayMin c' = UsedTodayMin c) by (now rewrite Ec).
  split; [exact Hq|]. split; [exact Hu|]. split; [|split; [|split; [|split; [|split; [|split; [|split]]]]]].
  - intro Hin. unfold RemainingMinutes. rewrite Hq, Hu.
    rewrite !int_sub_exact by (unfold minInt, maxInt in *; lia).
    destruct (Z.ltb_spec (DailyQuotaMin c + minutes - UsedTodayMin c) 0);
      destruct (Z.ltb_spec (DailyQuotaMin c - UsedTodayMin c) 0); lia.
  - intro later. rewrite checkDailyReset_keeps_quota. exact Hq.
  - intros q Hne. now rewrite Hc, upd_other.
  - assumption.
  - assumption.
  - assumption.
  - destruct Hres as (body & Hb & Hr). exists body. split; [assumption|].
    rewrite Hr. now rewrite <- Ec.
  - intros m Hm. rewrite result_GetSession in Hf.
    unfold SessionsApi.extend, GetSession, getStore, bind, ret. cbn [fst snd]. rewrite Hf.
    now destruct (Z.leb_spec m 0); [|lia].
Qed.

Lemma extend_witness :
  DailyQuotaMin
    (childAt (store (run (SessionsApi.extend "s1" (Some 30))
                       (Household.home_with Household.calm
                          [Household.online "s1" Household.phone 0]))) 0%nat)
  = 40.
Proof.
  exact (proj1
    (extend_raises_the_daily_quota_for_good "s1" 30
       (Household.home_with Household.calm [Household.online "s1" Household.phone 0])
       0%nat 0%nat eq_refl eq_refl eq_refl
       ltac:(vm_compute; split; discriminate))).
Defined.

(** ** The base64 codec and the payload of the handshake *)

Lemma val_of_bound a : 0 <= val_of a < 256.
Proof.
  unfold val_of. pose proof (nat_ascii_bounded a). lia.
Qed.

Lemma byte_of_val a : byte_of (val_of a) = a.
Proof.
  unfold byte_of, val_of. pose proof (nat_ascii_bounded a).
  rewrite Z.mod_small by lia. rewrite Nat2Z.id. apply ascii_nat_embedding.
Qed.

Lemma byte_of_mod v : byte_of (v mod 256) = byte_of v.
Proof. unfold byte_of. now rewrite Z.mod_mod by lia. Qed.

Lemma sextet_symbol v : sextet stdAlphabet (symbol stdAlphabet v) = Some (v mod 64).
Proof.
  assert (H : forallb (fun i => match sextet stdAlphabet (symbol stdAlphabet (Z.of_nat i)) with
                                | Some m => m =? Z.of_nat i
                                | None => false
                                end) (seq 0 64) = true) by (vm_compute; reflexivity).
  rewrite forallb_forall in H.
  assert (Hb : 0 <= v mod 64 < 64) by (apply Z.mod_pos_bound; lia).
  specialize (H (Z.to_nat (v mod 64))).
  rewrite Z2Nat.id in H by lia.
  assert (Hs : symbol stdAlphabet (v mod 64) = symbol stdAlphabet v)
    by (unfold symbol; now rewrite Z.mod_mod by lia).
  rewrite Hs in H.
  destruct (sextet stdAlphabet (symbol stdAlphabet v)) as [m|].
  - f_equal. apply Z.eqb_eq. apply H. apply in_seq. lia.
  - discriminate H. apply in_seq. lia.
Qed.

Lemma symbol_plain v :
  is_cr_lf (symbol stdAlphabet v) = false /\ isPad (symbol stdAlphabet v) = false.
Proof.
  assert (H : forallb (fun i => negb (is_cr_lf (symbol stdAlphabet (Z.of_nat i)))
                                && negb (isPad (symbol stdAlphabet (Z.of_nat i))))
                (seq 0 64) = true) by (vm_compute; reflexivity).
  rewrite forallb_forall in H.
  assert (Hb : 0 <= v mod 64 < 64) by (apply Z.mod_pos_bound; lia).
  specialize (H (Z.to_nat (v mod 64))).
  rewrite Z2Nat.id in H by lia.
  assert (Hs : symbol stdAlphabet (v mod 64) = symbol stdAlphabet v)
    by (unfold symbol; now rewrite Z.mod_mod by lia).
  rewrite Hs in H.
  assert (Hin : In (Z.to_nat (v mod 64)) (seq 0 64)) by (apply in_seq; lia).
  apply H in Hin. apply andb_true_iff in Hin as [H1 H2].
  split; [now apply negb_true_iff in H1 | now apply negb_true_iff in H2].
Qed.

Lemma sextet_pad : sextet stdAlphabet "="%char = None.
Proof. reflexivity. Qed.

Lemma encodeQuanta_plain l :
  filter (fun c => negb (is_cr_lf c)) (encodeQuanta stdAlphabet l) = encodeQuanta stdAlphabet l.
Proof.
  assert (G : forall n l, (List.length l <= n)%nat ->
                filter (fun c => negb (is_cr_lf c)) (encodeQuanta stdAlphabet l)
                = encodeQuanta stdAlphabet l).
  { clear l. induction n as [|n IH]; intros l Hl.
    - destruct l; [reflexivity|simpl in Hl; lia].
    - destruct l as [|a [|b [|c rest]]]; [reflexivity| | |].
      + cbn [encodeQuanta filter].
        rewrite !(proj1 (symbol_plain _)). reflexivity.
      + cbn [encodeQuanta filter].
        rewrite !(proj1 (symbol_plain _)). reflexivity.
      + cbn [encodeQuanta filter].
        rewrite !(proj1 (symbol_plain _)). cbn [negb].
        rewrite IH; [reflexivity|]. simpl in Hl. lia. }
  now apply (G (List.length l)).
Qed.

Lemma quantum_bytes a b c :
  let v := val_of a * 65536 + val_of b * 256 + val_of c in
  let v' := (v / 262144) mod 64 * 262144 + (v / 4096) mod 64 * 4096
            + (v / 64) mod 64 * 64 + v mod 64 in
  byte_of (v' / 65536) = a /\ byte_of (v' / 256) = b /\ byte_of v' = c.
Proof.
  intros v v'.
  pose proof (val_of_bound a). pose proof (val_of_bound b). pose proof (val_of_bound c).
  assert (E : v' = v) by (unfold v', v; Z.div_mod_to_equations; lia).
  rewrite E.
  assert (Ea : v / 65536 = val_of a) by (unfold v; Z.div_mod_to_equations; lia).
  assert (Eb : (v / 256) mod 256 = val_of b) by (unfold v; Z.div_mod_to_equations; lia).
  assert (Ec : v mod 256 = val_of c) by (unfold v; Z.div_mod_to_equations; lia).
  rewrite Ea, <- (byte_of_mod (v / 256)), Eb, <- (byte_of_mod v), Ec.
  now rewrite !byte_of_val.
Qed.

Lemma quantum_one a :
  let v := val_of a * 65536 in
  byte_of (((v / 262144) mod 64 * 262144 + (v / 4096) mod 64 * 4096) / 65536) = a.
Proof.
  intro v. pose proof (val_of_bound a).
  assert (E : ((v / 262144) mod 64 * 262144 + (v / 4096) mod 64 * 4096) / 65536 = val_of a)
    by (unfold v; Z.div_mod_to_equations; lia).
  rewrite E. apply byte_of_val.
Qed.

Lemma quantum_two a b :
  let v := val_of a * 65536 + val_of b * 256 in
  let v' := (v / 262144) mod 64 * 262144 + (v / 4096) mod 64 * 4096 + (v / 64) mod 64 * 64 in
  byte_of (v' / 65536) = a /\ byte_of (v' / 256) = b.
Proof.
  intros v v'. pose proof (val_of_bound a). pose proof (val_of_bound b).
  assert (E : v' = v) by (unfold v', v; Z.div_mod_to_equations; lia).
  rewrite E.
  assert (Ea : v / 65536 = val_of a) by (unfold v; Z.div_mod_to_equations; lia).
  assert (Eb : (v / 256) mod 256 = val_of b) by (unfold v; Z.div_mod_to_equations; lia).
  rewrite Ea, <- (byte_of_mod (v / 256)), Eb. now rewrite !byte_of_val.
Qed.

Lemma decode_encode_quanta l :
  decodeQuanta stdAlphabet true (encodeQuanta stdAlphabet l) = Some l.
Proof.
  assert (G : forall n l, (List.length l <= n)%nat ->
                decodeQuanta stdAlphabet true (encodeQuanta stdAlphabet l) = Some l).
  { clear l. induction n as [|n IH]; intros l Hl.
    - destruct l; [reflexivity|simpl in Hl; lia].
    - destruct l as [|a [|b [|c rest]]]; [reflexivity| | |].
      + cbn [encodeQuanta decodeQuanta]. rewrite !sextet_symbol, sextet_pad.
        change (isPad "="%char) with true. cbn [andb].
        pose proof (quantum_one a) as Ha. cbv zeta in Ha. now rewrite Ha.
      + cbn [encodeQuanta decodeQuanta]. rewrite !sextet_symbol, sextet_pad.
        change (isPad "="%char) with true. cbn [andb].
        destruct (quantum_two a b) as (Ha & Hb). cbv zeta in Ha, Hb.
        now rewrite Ha, Hb.
      + cbn [encodeQuanta decodeQuanta]. rewrite !sextet_symbol.
        rewrite IH by (simpl in Hl; lia).
        destruct (quantum_bytes a b c) as (Ha & Hb & Hc). cbv zeta in Ha, Hb, Hc.
        now rewrite Ha, Hb, Hc. }
  now apply (G (List.length l)).
Qed.

Lemma StdEncoding_round_trip s :
  StdEncoding_DecodeString (StdEncoding_EncodeToString s) = Some s.
Proof.
  unfold StdEncoding_DecodeString, decodeString, StdEncoding_EncodeToString.
  rewrite list_ascii_of_string_of_list_ascii, encodeQuanta_plain, decode_encode_quanta.
  now rewrite string_of_list_ascii_of_string.
Qed.

Lemma append_nil_r s : s ++ "" = s.
Proof. induction s as [|c s IH]; [reflexivity|]. cbn [append]. now rewrite IH. Qed.

Lemma append_assoc a b c : (a ++ b) ++ c = a ++ (b ++ c).
Proof. induction a as [|x a IH]; [reflexivity|]. cbn [append]. now rewrite IH. Qed.

Lemma splitScan_plain x : forall rest cur,
  plainText x = true ->
  splitScan ", " (x ++ rest) 0 cur = splitScan ", " rest 0 (cur ++ x).
Proof.
  induction x as [|c x IH]; intros rest cur Hx.
  - now rewrite append_nil_r.
  - unfold plainText in Hx. cbn [allBytes] in Hx.
    apply andb_true_iff in Hx as [Hc Hx]. apply andb_true_iff in Hc as [_ Hc].
    apply negb_true_iff in Hc.
    cbn [append splitScan prefix].
    destruct (ascii_dec "," c) as [E|_]; [subst c; discriminate|].
    rewrite IH by exact Hx. now rewrite append_assoc.
Qed.

Lemma splitScan_separator rest cur :
  splitScan ", " (", " ++ rest) 0 cur = cur :: splitScan ", " rest 0 "".
Proof.
  cbn [append splitScan prefix String.length Nat.sub].
  destruct (ascii_dec "," ","); [|contradiction].
  destruct (ascii_dec " " " "); [|contradiction].
  now rewrite prefix_nil.
Qed.

Lemma Split_Join x l :
  Forall (fun y => plainText y = true) (x :: l) ->
  Split (Join (x :: l) ", ") ", " = x :: l.
Proof.
  unfold Split, Join. intro H.
  enough (G : forall l x cur, Forall (fun y => plainText y = true) (x :: l) ->
                splitScan ", " (concat ", " (x :: l)) 0 cur = (cur ++ x) :: l)
    by (now rewrite G).
  clear. induction l as [|y l IH]; intros x cur H; inversion H as [|? ? Hx Hl]; subst.
  - cbn [concat]. rewrite <- (append_nil_r x) at 1.
    now rewrite splitScan_plain.
  - change (concat ", " (x :: y :: l)) with (x ++ ", " ++ concat ", " (y :: l)).
    rewrite splitScan_plain by exact Hx.
    rewrite splitScan_separator, IH by exact Hl. reflexivity.
Qed.

Lemma substring_all s n : (String.length s <= n)%nat -> substring 0 n s = s.
Proof.
  revert n. induction s as [|c s IH]; intros n H.
  - now destruct n.
  - destruct n as [|n]; [simpl in H; lia|]. cbn [substring]. rewrite IH; [reflexivity|].
    simpl in H. lia.
Qed.

Lemma cutScan_key k : forall v cur,
  plainKey k = true -> cutScan "=" (k ++ "=" ++ v) cur = [cur ++ k; v].
Proof.
  induction k as [|c k IH]; intros v cur Hk.
  - cbn [append cutScan prefix]. destruct (ascii_dec "=" "="); [|contradiction].
    rewrite prefix_nil, append_nil_r. cbn [String.length substring].
    rewrite substring_all by lia. reflexivity.
  - unfold plainKey in Hk. cbn [allBytes] in Hk.
    apply andb_true_iff in Hk as [Hc Hk]. apply andb_true_iff in Hc as [_ Hc].
    apply negb_true_iff in Hc.
    change (String c k ++ "=" ++ v) with (String c (k ++ "=" ++ v)).
    cbn [cutScan prefix].
    destruct (ascii_dec "=" c) as [E|_]; [subst c; discriminate|].
    rewrite IH by exact Hk. now rewrite append_assoc.
Qed.

Lemma visible_not_space c s :
  visible c = true ->
  find (fun p => prefix p (String c s)) spaceRunes = None
  /\ find (fun p => prefix p (String c s)) (map (fun p => rev_string p "") spaceRunes) = None.
Proof.
  destruct c as [[] [] [] [] [] [] [] []]; intro H; try discriminate H; split; reflexivity.
Qed.

Lemma rev_string_spec s : forall acc,
  rev_string s acc = string_of_list_ascii (rev (list_ascii_of_string s)) ++ acc.
Proof.
  induction s as [|c s IH]; intro acc; [reflexivity|].
  cbn [rev_string list_ascii_of_string rev]. rewrite IH.
  assert (E : forall l l', string_of_list_ascii (l ++ l')
                           = string_of_list_ascii l ++ string_of_list_ascii l').
  { clear. induction l as [|x l IH]; intro l'; [reflexivity|].
    cbn [app string_of_list_ascii append]. now rewrite IH. }
  rewrite E. cbn [string_of_list_ascii]. now rewrite append_assoc.
Qed.

Lemma rev_string_involutive s : rev_string (rev_string s "") "" = s.
Proof.
  rewrite !rev_string_spec, !append_nil_r, list_ascii_of_string_of_list_ascii, rev_involutive.
  apply string_of_list_ascii_of_string.
Qed.

Lemma allBytes_rev_string p s : forall acc,
  allBytes p (rev_string s acc) = allBytes p s && allBytes p acc.
Proof.
  induction s as [|c s IH]; intro acc; [reflexivity|].
  cbn [rev_string allBytes]. rewrite IH. cbn [allBytes].
  destruct (p c), (allBytes p s); reflexivity.
Qed.

Lemma TrimSpace_visible s : allBytes visible s = true -> TrimSpace s = s.
Proof.
  intro H. unfold TrimSpace. cbv zeta.
  assert (Hfront : dropLeading spaceRunes s 0 = s).
  { destruct s as [|c s']; [reflexivity|]. cbn [allBytes] in H.
    apply andb_true_iff in H as [Hc _]. cbn [dropLeading].
    now rewrite (proj1 (visible_not_space c s' Hc)). }
  rewrite Hfront.
  assert (Hr : allBytes visible (rev_string s "") = true)
    by (rewrite allBytes_rev_string, H; reflexivity).
  assert (Hback : dropLeading (map (fun p => rev_string p "") spaceRunes)
                    (rev_string s "") 0 = rev_string s "").
  { destruct (rev_string s "") as [|c r]; [reflexivity|]. cbn [allBytes] in Hr.
    apply andb_true_iff in Hr as [Hc _]. cbn [dropLeading].
    now rewrite (proj2 (visible_not_space c r Hc)). }
  rewrite Hback. apply rev_string_involutive.
Qed.

Lemma plainKey_visible k : plainKey k = true -> allBytes visible k = true.
Proof.
  apply allBytes_weaken. intros c H.
  apply andb_true_iff in H as [H _]. now apply andb_true_iff in H as [H _].
Qed.

Lemma plainText_visible v : plainText v = true -> allBytes visible v = true.
Proof. apply allBytes_weaken. intros c H. now apply andb_true_iff in H as [H _]. Qed.

Lemma plain_pair k v :
  plainKey k = true -> plainText v = true -> plainText (k ++ "=" ++ v) = true.
Proof.
  intros Hk Hv. unfold plainText. apply allBytes_append; [|apply allBytes_append].
  - revert Hk. apply allBytes_weaken. intros c H. now apply andb_true_iff in H as [H _].
  - reflexivity.
  - exact Hv.
Qed.

Lemma lower_ascii_visible c : visible c = true -> visible (lower_ascii c) = true.
Proof. destruct c as [[] [] [] [] [] [] [] []]; intro H; try discriminate H; reflexivity. Qed.

Lemma lowerBytes_visible s :
  allBytes visible s = true -> allBytes visible (lowerBytes s) = true.
Proof.
  induction s as [|c s IH]; [reflexivity|]. cbn [allBytes lowerBytes]. intro H.
  apply andb_true_iff in H as [Hc H]. now rewrite (lower_ascii_visible c Hc), IH.
Qed.

Lemma visible_below c : visible c = true -> (byteVal c <? 128) = true.
Proof. destruct c as [[] [] [] [] [] [] [] []]; intro H; try discriminate H; reflexivity. Qed.

Lemma visible_isASCII s : allBytes visible s = true -> isASCII s = true.
Proof.
  induction s as [|c s IH]; [reflexivity|]. cbn [allBytes isASCII]. intro H.
  apply andb_true_iff in H as [Hc H]. now rewrite (visible_below c Hc), IH.
Qed.

Lemma pair_not_empty k v : String.eqb (k ++ "=" ++ v) "" = false.
Proof. now destruct k. Qed.

Lemma first_parsePairs pairs : forall fas,
  Forall (fun kv => plainKey (fst kv) = true /\ plainText (snd kv) = true) pairs ->
  Fas.parsePairs (map (fun kv => fst kv ++ "=" ++ snd kv) pairs) fas
  = fold_left (fun fas kv => assignField fas (fst kv) (snd kv)) pairs fas.
Proof.
  induction pairs as [|[k v] pairs IH]; intros fas H; [reflexivity|].
  inversion H as [|? ? [Hk Hv] Hrest]; subst. cbn [fst snd] in *.
  cbn [map Fas.parsePairs fold_left fst snd]. unfold SplitN2.
  rewrite cutScan_key by exact Hk. cbn [append].
  rewrite (TrimSpace_visible k), (TrimSpace_visible v)
    by auto using plainKey_visible, plainText_visible.
  now apply IH.
Qed.

Lemma revised_parsePairs caseTable pairs : forall fas,
  Forall (fun kv => plainKey (fst kv) = true /\ plainText (snd kv) = true) pairs ->
  FasRevised.parsePairs caseTable (map (fun kv => fst kv ++ "=" ++ snd kv) pairs) fas
  = fold_left
      (fun fas kv =>
         if String.eqb (snd kv) "" || String.eqb (snd kv) "(null)" then fas
         else assignField fas (lowerBytes (fst kv)) (snd kv))
      pairs fas.
Proof.
  induction pairs as [|[k v] pairs IH]; intros fas H; [reflexivity|].
  inversion H as [|? ? [Hk Hv] Hrest]; subst. cbn [fst snd] in *.
  cbn [map FasRevised.parsePairs fold_left fst snd]. cbv zeta.
  rewrite (TrimSpace_visible (k ++ "=" ++ v))
    by (apply plainText_visible; now apply plain_pair).
  rewrite pair_not_empty. unfold SplitN2.
  rewrite cutScan_key by exact Hk. cbn [append].
  rewrite (ToLower_ascii caseTable k) by (apply visible_isASCII; now apply plainKey_visible).
  rewrite (TrimSpace_visible (lowerBytes k)), (TrimSpace_visible v)
    by auto using plainKey_visible, plainText_visible, lowerBytes_visible.
  destruct (String.eqb v "" || String.eqb v "(null)"); now apply IH.
Qed.

(** The handshake round trip for every well-formed payload.  A payload is
    a list of [key=value] pairs joined by [", "], keys and values of
    visible ASCII bytes without a comma (and keys without [=]); values may
    contain [=], as URLs do.  Standard base64 decoding undoes the encoding
    for every text; parsing such a payload assigns the fields pair after
    pair, in the first revision as they stand and in the later one with
    lower-cased keys and without empty or ["(null)"] values (whatever the
    case tables of package [unicode] hold); so the entry
    endpoint of the first revision redirects to the portal with exactly
    the fields of the payload, and the later revision's decoder returns
    the payload at its first attempt. *)
Theorem handshake_payload_round_trip :
  (forall text, StdEncoding_DecodeString (StdEncoding_EncodeToString text) = Some text)
  /\ forall pairs,
       Forall (fun kv => plainKey (fst kv) = true /\ plainText (snd kv) = true) pairs ->
       Fas.parseFASData (payloadOf pairs) = assigned pairs
       /\ (forall caseTable,
             FasRevised.parseFASData caseTable (payloadOf pairs) = assignedRevised pairs)
       /\ (pairs <> [] ->
           Fas.HandleFAS (entryRequest (StdEncoding_EncodeToString (payloadOf pairs)))
           = RespRedirect (Fas.portalURL (assigned pairs)) StatusFound)
       /\ FasRevised.decodeFAS (StdEncoding_EncodeToString (payloadOf pairs))
          = Some (payloadOf pairs).
Proof.
  split; [exact StdEncoding_round_trip|]. intros pairs H.
  assert (Hsplit : pairs <> [] ->
            Split (payloadOf pairs) ", " = map (fun kv => fst kv ++ "=" ++ snd kv) pairs).
  { intros Hne. unfold payloadOf. destruct pairs as [|p ps]; [contradiction|].
    cbn [map]. apply Split_Join. cbn [map] in *.
    change (Forall (fun y => plainText y = true)
              (map (fun kv => fst kv ++ "=" ++ snd kv) (p :: ps))).
    apply Forall_map. revert H. apply Forall_impl. intros [k v] [Hk Hv]. now apply plain_pair. }
  assert (Hfirst : Fas.parseFASData (payloadOf pairs) = assigned pairs).
  { destruct pairs as [|p ps]; [reflexivity|].
    unfold Fas.parseFASData, assigned. rewrite Hsplit by discriminate.
    now apply first_parsePairs. }
  split; [exact Hfirst|]. split; [|split].
  - intro caseTable. destruct pairs as [|p ps]; [reflexivity|].
    unfold FasRevised.parseFASData, assignedRevised. rewrite Hsplit by discriminate.
    now apply revised_parsePairs.
  - intro Hne. unfold Fas.HandleFAS, entryRequest. cbn [query_fas].
    rewrite StdEncoding_round_trip, Hfirst.
    destruct (String.eqb_spec (StdEncoding_EncodeToString (payloadOf pairs)) "") as [E|_];
      [|reflexivity].
    exfalso. pose proof (StdEncoding_round_trip (payloadOf pairs)) as R. rewrite E in R.
    injection R as R. destruct pairs as [|[k v] ps]; [contradiction|].
    unfold payloadOf in R. cbn [map fst snd] in R. unfold Join in R.
    destruct ps; cbn [concat] in R; destruct k; discriminate R.
  - unfold FasRevised.decodeFAS. now rewrite StdEncoding_round_trip.
Qed.

Lemma handshake_payload_witness :
  Fas.parseFASData
    (payloadOf [("clientmac", "aa:bb:cc:dd:ee:ff"); ("clientip", "10.0.0.5");
                ("originurl", "http://example.com/?q=1")])
  = mkFASData "" "10.0.0.5" "aa:bb:cc:dd:ee:ff" "" "" "" "http://example.com/?q=1".
Proof.
  exact (proj1 (proj2 handshake_payload_round_trip
                  [("clientmac", "aa:bb:cc:dd:ee:ff"); ("clientip", "10.0.0.5");
                   ("originurl", "http://example.com/?q=1")]
                  ltac:(repeat constructor))).
Defined.

(** ** Paths of the API *)

Lemma prefix_append pre x : prefix pre (pre ++ x) = true.
Proof.
  induction pre as [|c pre IH]; [apply prefix_nil|]. cbn [append prefix].
  destruct (ascii_dec c c); [exact IH|contradiction].
Qed.

Lemma length_append a b : String.length (a ++ b) = (String.length a + String.length b)%nat.
Proof. induction a as [|c a IH]; [reflexivity|]. cbn [append String.length]. now rewrite IH. Qed.

Lemma substring_append pre x n :
  substring (String.length pre) n (pre ++ x) = substring 0 n x.
Proof. induction pre as [|c pre IH]; [reflexivity|]. cbn [append String.length substring]. exact IH. Qed.

Lemma TrimPrefix_append pre x : TrimPrefix (pre ++ x) pre = x.
Proof.
  unfold TrimPrefix. rewrite prefix_append, substring_append, length_append.
  apply substring_all. lia.
Qed.

Lemma substring_front a b : substring 0 (String.length a) (a ++ b) = a.
Proof. induction a as [|c a IH]; [now destruct b|]. cbn [append String.length substring]. now rewrite IH. Qed.

Lemma Index_range s sub : -1 <= Index s sub.
Proof.
  induction s as [|c s IH]; cbn [Index].
  - destruct (prefix sub ""); lia.
  - destruct (prefix sub (String c s)); [lia|].
    destruct (Z.eqb_spec (Index s sub) (-1)); lia.
Qed.

Lemma Index_segment id : segment id = true -> Index id "/" = -1.
Proof.
  unfold segment. induction id as [|c id IH]; [reflexivity|]. cbn [allBytes Index prefix].
  intro H. apply andb_true_iff in H as [Hc H]. apply negb_true_iff in Hc.
  destruct (ascii_dec "/" c) as [E|_]; [subst c; discriminate|].
  now rewrite (IH H).
Qed.

Lemma Index_after_segment id rest :
  segment id = true -> Index (id ++ "/" ++ rest) "/" = Z.of_nat (String.length id).
Proof.
  unfold segment. induction id as [|c id IH].
  - intros _. cbn [append Index prefix]. destruct (ascii_dec "/" "/"); [|contradiction].
    now rewrite prefix_nil.
  - cbn [allBytes]. intro H. apply andb_true_iff in H as [Hc H]. apply negb_true_iff in Hc.
    change (String c id ++ "/" ++ rest) with (String c (id ++ "/" ++ rest)).
    cbn [Index prefix String.length].
    destruct (ascii_dec "/" c) as [E|_]; [subst c; discriminate|].
    rewrite (IH H). destruct (Z.eqb_spec (Z.of_nat (String.length id)) (-1)); lia.
Qed.

Lemma splitScan_segment x : forall rest cur,
  segment x = true -> splitScan "/" (x ++ rest) 0 cur = splitScan "/" rest 0 (cur ++ x).
Proof.
  unfold segment. induction x as [|c x IH]; intros rest cur Hx.
  - now rewrite append_nil_r.
  - cbn [allBytes] in Hx. apply andb_true_iff in Hx as [Hc Hx]. apply negb_true_iff in Hc.
    cbn [append splitScan prefix].
    destruct (ascii_dec "/" c) as [E|_]; [subst c; discriminate|].
    rewrite IH by exact Hx. now rewrite append_assoc.
Qed.

Lemma splitScan_last x cur : segment x = true -> splitScan "/" x 0 cur = [cur ++ x].
Proof.
  intro H. pose proof (splitScan_segment x "" cur H) as E.
  rewrite append_nil_r in E. now rewrite E.
Qed.

Lemma splitScan_slash rest cur :
  splitScan "/" ("/" ++ rest) 0 cur = cur :: splitScan "/" rest 0 "".
Proof.
  cbn [append splitScan prefix String.length Nat.sub].
  destruct (ascii_dec "/" "/"); [|contradiction]. now rewrite prefix_nil.
Qed.

Lemma cut_at_first_slash p :
  Contains (if negb (Index p "/" =? -1) then substring 0 (Z.to_nat (Index p "/")) p else p) "/"
  = false.
Proof.
  induction p as [|c p IH]; [reflexivity|]. cbn [Index prefix].
  destruct (ascii_dec "/" c) as [E|Hne].
  - rewrite prefix_nil. reflexivity.
  - pose proof (Index_range p "/") as Hr.
    destruct (Z.eqb_spec (Index p "/") (-1)) as [E|E].
    + rewrite E in IH. rewrite Z.eqb_refl in *. cbn [negb] in *. cbn [Contains prefix].
      destruct (ascii_dec "/" c); [contradiction|]. exact IH.
    + destruct (Z.eqb_spec (Index p "/") (-1)) as [|_]; [contradiction|]. cbn [negb] in IH.
      destruct (Z.eqb_spec (Index p "/" + 1) (-1)) as [|_]; [lia|]. cbn [negb].
      replace (Z.to_nat (Index p "/" + 1)) with (S (Z.to_nat (Index p "/"))) by lia.
      cbn [substring Contains prefix].
      destruct (ascii_dec "/" c); [contradiction|]. exact IH.
Qed.

(** The path helpers of the API: the id they extract never contains a
    slash; for a path made of the prefix, a slash and an id the id comes
    back and there is no action; with a further slash and an action
    segment, both come back. *)
Theorem path_helpers_find_id_and_action :
  (forall path pre, Contains (Common.ExtractID path pre) "/" = false)
  /\ (forall pre id,
        segment id = true ->
        Common.ExtractID (pre ++ "/" ++ id) pre = id
        /\ Common.ExtractAction (pre ++ "/" ++ id) pre = "")
  /\ (forall pre id action,
        segment id = true -> segment action = true ->
        Common.ExtractID (pre ++ "/" ++ id ++ "/" ++ action) pre = id
        /\ Common.ExtractAction (pre ++ "/" ++ id ++ "/" ++ action) pre = action).
Proof.
  split; [|split].
  - intros path pre. unfold Common.ExtractID. cbv zeta. apply cut_at_first_slash.
  - intros pre id Hid. unfold Common.ExtractID, Common.ExtractAction. cbv zeta.
    rewrite TrimPrefix_append, (TrimPrefix_append "/" id). split.
    + now rewrite (Index_segment id Hid).
    + unfold Split. now rewrite splitScan_last.
  - intros pre id action Hid Hact. unfold Common.ExtractID, Common.ExtractAction. cbv zeta.
    rewrite TrimPrefix_append, (TrimPrefix_append "/" (id ++ "/" ++ action)). split.
    + rewrite (Index_after_segment id action Hid).
      destruct (Z.eqb_spec (Z.of_nat (String.length id)) (-1)); [lia|]. cbn [negb].
      rewrite Nat2Z.id. apply substring_front.
    + unfold Split. rewrite splitScan_segment by exact Hid.
      rewrite splitScan_slash, splitScan_last by exact Hact. reflexivity.
Qed.

(** ** From the login to the status endpoint *)

Lemma AuthenticateChild_listed username password w child :
  result (AuthenticateChild username password) w = inl child ->
  In child (children (store w)).
Proof.
  unfold AuthenticateChild, GetChildByUsername, CheckPassword, getEnv, readChild, getStore,
    result, bind, ret. simpl.
  destruct (firstWhere (childAt (store w)) _ (children (store w))) as [p|] eqn:Hf;
    simpl; [|discriminate].
  destruct (bcrypt_matches _ _ _); simpl; [|discriminate].
  destruct (IsActive _); simpl; [|discriminate].
  intro H. injection H as <-. now apply firstWhere_Some in Hf as [Hin _].
Qed.

Lemma first_discoverDevice_listed child mac name w :
  In child (children (store w)) ->
  In child (children (store (run (Fas.discoverDevice child mac name) w))).
Proof.
  intro Hin.
  unfold Fas.discoverDevice, SaveChild, saveFile_children, time_Now, ask, readChild,
    writeChild, getStore, putStore, run, bind, ret. simpl.
  destruct (negb (HasDevice _ _)); simpl; [|assumption].
  destruct (write_fails _ _); simpl; apply upsert_keeps_saved.
Qed.

Lemma HandleAuth_keeps_the_child_listed r w req child :
  submitted r = Some req ->
  result (AuthenticateChild (req_Username req) (req_Password req)) w = inl child ->
  In child (children (store (run (Fas.HandleAuth r) w))).
Proof.
  intros Hreq Hauth. pose proof (AuthenticateChild_listed _ _ _ _ Hauth) as Hin.
  unfold Fas.HandleAuth, Fas.HandleAuthAmid.
  destruct (String.eqb (Method r) "POST"); cbn [negb]; [|now rewrite run_ret].
  fold (submitted r). rewrite Hreq.
  rewrite run_bind, AuthenticateChild_reads_only, Hauth.
  rewrite run_bind, run_readChild, result_readChild.
  destruct (RemainingMinutes (childAt (store w) child) <=? 0); [now rewrite run_ret|].
  rewrite run_bind.
  destruct (scheduleForbids_reads_only child w) as (Hs2 & _).
  set (w2 := run (Fas.scheduleForbids child) w) in *.
  destruct (result (Fas.scheduleForbids child) w); [now rewrite run_ret, Hs2|].
  rewrite run_bind.
  assert (Hin3 : In child (children (store (run (Fas.discoverDevice child (req_MAC req)
                                                   "Auto-discovered device") w2))))
    by (apply first_discoverDevice_listed; now rewrite Hs2).
  set (w3 := run (Fas.discoverDevice child (req_MAC req) "Auto-discovered device") w2) in *.
  clearbody w2 w3.
  unfold Fas.grantAccessAmid. rewrite !run_bind, run_ret.
  destruct (openSession_world req child w3) as (_ & Ocs & _).
  destruct (authorize_world req child (run (Fas.openSession req child) w3)) as (As & _).
  cbv zeta in *. now rewrite As, Ocs.
Qed.

Lemma head_of_the_only_match {A : Type} (f : A -> bool) (x : A) l :
  (forall y, In y l -> f y = true -> y = x) -> In x l -> f x = true ->
  hd_error (filter f l) = Some x.
Proof.
  induction l as [|y l IH]; intros Hall Hin Hx; [destruct Hin|].
  cbn [filter]. destruct (f y) eqn:Hy.
  - cbn [hd_error]. f_equal. apply Hall; [now left|assumption].
  - apply IH; auto.
    + intros z Hz. apply Hall. now right.
    + destruct Hin as [->|Hin]; [congruence|assumption].
Qed.

(** After a login that stored a session for a MAC with no active session
    before, the status endpoint answers 200 for that MAC.  It reports the
    start of the session the login created (the one stored session that
    was not stored before: for the submitted MAC, active, of the child that
    logged in, with the id drawn and the clock reading taken during the
    login), and the name and the numbers of a stored child with the id of
    the child that logged in. *)
Theorem status_after_an_accepted_login :
  forall r w req,
    submitted r = Some req ->
    req_MAC req <> "" ->
    activeFor (req_MAC req) (store w) = [] ->
    sessions (store (run (Fas.HandleAuth r) w)) <> sessions (store w) ->
    let w' := run (Fas.HandleAuth r) w in
    exists child c p n,
      result (AuthenticateChild (req_Username req) (req_Password req)) w = inl child
      /\ ID (childAt (store w') c) = ID (childAt (store w) child)
      /\ ~ In p (sessions (store w))
      /\ In p (sessions (store w'))
      /\ (forall q, In q (sessions (store w')) -> q = p \/ In q (sessions (store w)))
      /\ sessionAt (store w') p
         = mkSession (rand_hex (env w) n) (ID (childAt (store w) child))
             (Name (childAt (store w) child)) (req_MAC req) (req_IP req)
             (now_at (env w) (S n)) zeroTime true ""
      /\ result (PortalStatus.HandleStatus (req_MAC req)) w'
         = PortalStatus.StatusJSON 200
             (PortalStatus.mkStatusBody
                (Name (childAt (store w') c))
                (RemainingMinutes (childAt (store w') c))
                (UsedTodayMin (childAt (store w') c))
                (DailyQuotaMin (childAt (store w') c))
                (StartedAt (sessionAt (store w') p))).
Proof.
  intros r w req Hreq Hmac Hnone Hstored w'. fold w' in Hstored.
  pose proof (HandleAuthAmid_outcome (ret tt) r w) as Hout. cbv zeta in Hout.
  fold (Fas.HandleAuth r) in Hout. fold w' in Hout.
  destruct Hout as [(_ & Hsame)|Hok]; [elim Hstored; now rewrite Hsame|].
  destruct Hok as (req' & child & w1 & n & log & _ & Hreq' & Hauth & _ & _ & Hq & _ & _ & _
                   & (Hsa & Hss) & Hs & _).
  rewrite run_ret in Hs. rewrite <- Hs in Hq, Hsa, Hss. clear Hs w1.
  rewrite Hreq in Hreq'. injection Hreq' as <-.
  set (fresh := freshPtr (sessions (store w))) in *.
  set (s := mkSession (rand_hex (env w) n) (ID (childAt (store w) child))
              (Name (childAt (store w) child)) (req_MAC req) (req_IP req)
              (now_at (env w) (S n)) zeroTime true "") in *.
  pose proof (HandleAuth_keeps_the_child_listed r w req child Hreq Hauth) as Hlisted.
  fold w' in Hlisted.
  assert (Hhead : hd_error (activeFor (req_MAC req) (store w')) = Some fresh).
  { unfold activeFor. apply head_of_the_only_match.
    - intros p Hp Hf. rewrite Hss in Hp. apply upsert_incl in Hp as [->|Hp]; [reflexivity|].
      exfalso. assert (Hne : p <> fresh)
        by (intros ->; now apply (freshPtr_fresh (sessions (store w)))).
      rewrite Hsa, upd_other in Hf by exact Hne.
      assert (Hin : In p (activeFor (req_MAC req) (store w)))
        by (unfold activeFor; apply filter_In; auto).
      now rewrite Hnone in Hin.
    - rewrite Hss. apply upsert_keeps_saved.
    - rewrite Hsa, upd_same. unfold s. cbn [MAC sess_IsActive].
      now rewrite String.eqb_refl. }
  assert (Hid : forall q, ID (childAt (store w') q) = ID (childAt (store w) q)).
  { intro q. specialize (Hq q). unfold quotaView in Hq. congruence. }
  destruct (owner (store w') fresh) as [c|] eqn:Hown.
  - exists child, c, fresh, n. split; [exact Hauth|]. split.
    { apply owner_id in Hown. rewrite Hown, Hsa, upd_same. reflexivity. }
    split; [apply freshPtr_fresh|].
    split; [rewrite Hss; apply upsert_keeps_saved|].
    split; [intros q Hq'; rewrite Hss in Hq'; now apply upsert_incl in Hq'|].
    split; [now rewrite Hsa, upd_same|].
    rewrite (proj2 (HandleStatus_answer (req_MAC req) w') Hmac), Hhead, Hown.
    reflexivity.
  - exfalso. unfold owner in Hown. rewrite firstWhere_None in Hown.
    specialize (Hown child Hlisted). rewrite Hsa, upd_same, Hid in Hown.
    unfold s in Hown. cbn [ChildID] in Hown. now rewrite String.eqb_refl in Hown.
Qed.

Lemma status_after_login_witness :
  exists body,
    result (PortalStatus.HandleStatus Household.phone)
      (run (Fas.HandleAuth (Household.login "kid" "secret"))
         (Household.quiet_home Household.calm))
    = PortalStatus.StatusJSON 200 body.
Proof.
  destruct (status_after_an_accepted_login (Household.login "kid" "secret")
              (Household.quiet_home Household.calm)
              (form_values (Household.login "kid" "secret"))
              eq_refl ltac:(discriminate) eq_refl ltac:(vm_compute; discriminate))
    as (child & c & p & n & _ & _ & _ & _ & _ & _ & Hres).
  eexists. exact Hres.
Defined.
